(** * High-Precision-Sweep: the synthesis and packaging engine of [app.py]

    The script computes on IEEE binary64 numbers ([np.float64], Python
    [float]), so samples, frequencies and offsets are Rocq's primitive
    [float]s; Python [int]s are [Z]; [str] is [string] over code points
    below 256.  Library calls whose code is not part of the script
    ([np.sin], the pydub encoder) are parameters of the model; Python and
    numpy built-ins with a fixed meaning ([str.split], [float], the
    [.15f] format, [np.linspace], [astype]) are written out. *)

From Stdlib Require Import ZArith List String Ascii Bool Lia Floats DecimalString.
From Stdlib Require DecimalZ DecimalPos.
Import ListNotations.
Local Open Scope Z_scope.

(** ** Python built-ins *)

Module Py.

(** The exceptions that can end a run of the script: [ValueError] from
    [float] (and from [np.max] on an empty array), and pydub's
    [CouldntEncodeError] from [export]. *)
Inductive exn : Type := ValueError | CouldntEncodeError.

Definition result (A : Type) : Type := (exn + A)%type.

Definition ret {A} (a : A) : result A := inr a.

Definition raise {A} (e : exn) : result A := inl e.

Definition bind {A B} (m : result A) (k : A -> result B) : result B :=
  match m with
  | inl e => inl e
  | inr a => k a
  end.

(** A list comprehension whose body may raise: elements are evaluated in
    order and the first exception ends the evaluation. *)
Fixpoint mapM {A B} (f : A -> result B) (l : list A) : result (list B) :=
  match l with
  | [] => ret []
  | a :: l' =>
      bind (f a) (fun b => bind (mapM f l') (fun bs => ret (b :: bs)))
  end.

Definition code (c : ascii) : Z := Z.of_N (N_of_ascii c).

(** [str.isspace] on one character. *)
Definition isspace (c : ascii) : bool :=
  let n := code c in
  ((9 <=? n) && (n <=? 13)) || ((28 <=? n) && (n <=? 32))
  || (n =? 133) || (n =? 160).

Definition isdigit (c : ascii) : bool :=
  let n := code c in (48 <=? n) && (n <=? 57).

Fixpoint lstrip_with (p : ascii -> bool) (s : string) : string :=
  match s with
  | String c s' => if p c then lstrip_with p s' else s
  | EmptyString => EmptyString
  end.

Fixpoint rstrip_with (p : ascii -> bool) (s : string) : string :=
  match s with
  | EmptyString => EmptyString
  | String c s' =>
      match rstrip_with p s' with
      | EmptyString => if p c then EmptyString else String c EmptyString
      | r => String c r
      end
  end.

(** [s.strip()] *)
Definition strip (s : string) : string :=
  rstrip_with isspace (lstrip_with isspace s).

(** [s.rstrip(c)] for a one-character argument. *)
Definition rstrip (c : ascii) (s : string) : string :=
  rstrip_with (Ascii.eqb c) s.

(** [s.split(sep)] for a one-character separator. *)
Fixpoint split (sep : ascii) (s : string) : list string :=
  match s with
  | EmptyString => [EmptyString]
  | String c s' =>
      if Ascii.eqb c sep then EmptyString :: split sep s'
      else
        match split sep s' with
        | tok :: rest => String c tok :: rest
        | [] => [String c EmptyString]
        end
  end.


(** [str(n)] for an [int]. *)
Definition str_of_int (n : Z) : string := NilZero.string_of_int (Z.to_int n).

Fixpoint repeat_char (c : ascii) (n : nat) : string :=
  match n with
  | O => EmptyString
  | S n' => String c (repeat_char c n')
  end.

(** [s.zfill(w)] for a string of digits. *)
Definition zfill (w : nat) (s : string) : string :=
  repeat_char "0" (w - String.length s) ++ s.

(** The integers from [k] on, [n] of them. *)
Fixpoint count_from (k : Z) (n : nat) : list Z :=
  match n with
  | O => []
  | S n' => k :: count_from (k + 1) n'
  end.

(** [range(a, b)] *)
Definition range (a b : Z) : list Z := count_from a (Z.to_nat (b - a)).

(** Every character of [s] is in the set [p]. *)
Definition all_chars (p : ascii -> bool) (s : string) : Prop :=
  Forall (fun c => p c = true) (list_ascii_of_string s).

(** [bool(s)]: a string is true when it is not empty. *)
Definition truthy (s : string) : bool :=
  match s with
  | EmptyString => false
  | String _ _ => true
  end.

(** *** Binary64 numbers: [float(str)], [format(x, ".15f")], [repr(x)] *)

(** [float(n)] for an [int] below [2^63] in magnitude; exact below [2^53]. *)
Definition float_of_int (n : Z) : float :=
  if 0 <=? n then of_uint63 (Uint63.of_Z n)
  else (- of_uint63 (Uint63.of_Z (- n)))%float.

(** The binary64 number nearest to [D * 10^k] (ties to even), with sign
    [s]: what a correctly rounded [strtod] returns.  The two guards only
    cut short the cases that overflow to infinity and underflow to zero. *)
Definition decimal_to_SF (s : bool) (D k : Z) : spec_float :=
  if D =? 0 then S754_zero s
  else if 400 <? k then S754_infinity s
  else if k + ((Z.log2 D + 1) / 3 + 1) <? -400 then S754_zero s
  else if 0 <=? k then
    binary_normalize prec emax (cond_Zopp s (D * 10 ^ k)) 0 s
  else
    let den := 10 ^ (- k) in
    let sh := Z.log2 den + 66 in
    let (q, r) := Z.div_eucl (D * 2 ^ sh) den in
    binary_round_aux prec emax s q (- sh) (new_location den r).

(** The digit-separator rule of [float]: an underscore must stand
    between two digits; underscores are then dropped. *)
Fixpoint remove_underscores (prev : ascii) (s : string) : option string :=
  match s with
  | EmptyString => if Ascii.eqb prev "_" then None else Some EmptyString
  | String c s' =>
      if Ascii.eqb c "_" then
        if isdigit prev then remove_underscores c s' else None
      else if Ascii.eqb prev "_" && negb (isdigit c) then None
      else option_map (String c) (remove_underscores c s')
  end.

(** Reads a run of digits: the value accumulated on [acc], the number of
    digits read added to [n], and the rest of the string. *)
Fixpoint take_digits (s : string) (acc n : Z) : Z * Z * string :=
  match s with
  | String c s' =>
      if isdigit c then take_digits s' (10 * acc + (code c - 48)) (n + 1)
      else (acc, n, s)
  | EmptyString => (acc, n, s)
  end.

Definition take_sign (s : string) : bool * string :=
  match s with
  | String "-" s' => (true, s')
  | String "+" s' => (false, s')
  | _ => (false, s)
  end.

(** [c.lower()] on one character below 256: the letters A to Z and the
    capitals of Latin-1 ([À] to [Þ], the sign [×] apart) move 32 places
    up. *)
Definition lower (c : ascii) : ascii :=
  let n := code c in
  if ((65 <=? n) && (n <=? 90)) || ((192 <=? n) && (n <=? 214))
     || ((216 <=? n) && (n <=? 222))
  then ascii_of_N (Z.to_N (n + 32)) else c.

Fixpoint lower_str (s : string) : string :=
  match s with
  | EmptyString => EmptyString
  | String c s' => String (lower c) (lower_str s')
  end.

(** The exponent part: empty, or [e] or [E], an optional sign and at
    least one digit, up to the end of the string. *)
Definition parse_exponent (s : string) : option Z :=
  match s with
  | EmptyString => Some 0
  | String c s' =>
      if Ascii.eqb (lower c) "e" then
        let (neg, s1) := take_sign s' in
        let '(v, n, rest) := take_digits s1 0 0 in
        match rest with
        | EmptyString => if n =? 0 then None else Some (if neg then - v else v)
        | String _ _ => None
        end
      else None
  end.

(** An unsigned decimal numeral as mantissa and power of ten. *)
Definition parse_decimal (s : string) : option (Z * Z) :=
  let '(ip, ni, r1) := take_digits s 0 0 in
  let '(m, nf, r2) :=
    match r1 with
    | String "." r => take_digits r ip 0
    | _ => (ip, 0, r1)
    end in
  if ni + nf =? 0 then None
  else option_map (fun e => (m, e - nf)) (parse_exponent r2).

(** The white space that [float] skips around a numeral: the white
    space of C (tab to carriage return, and the space) and, of the
    characters above 127, the two that are white space, which [float]
    first turns into spaces.  The separators 28 to 31, which [strip]
    removes, are not skipped. *)
Definition float_space (c : ascii) : bool :=
  let n := code c in
  ((9 <=? n) && (n <=? 13)) || (n =? 32) || (n =? 133) || (n =? 160).

(** [float(s)] as a spec float; [None] is [ValueError]. *)
Definition parse_float (s : string) : option spec_float :=
  match remove_underscores "000"
          (rstrip_with float_space (lstrip_with float_space s)) with
  | None => None
  | Some t =>
      let (neg, body) := take_sign t in
      let low := lower_str body in
      if String.eqb low "inf" || String.eqb low "infinity" then
        Some (S754_infinity neg)
      else if String.eqb low "nan" then Some S754_nan
      else option_map (fun '(m, k) => decimal_to_SF neg m k) (parse_decimal body)
  end.

(** [float(s)] *)
Definition float_of_str (s : string) : result float :=
  match parse_float s with
  | Some x => ret (SF2Prim x)
  | None => raise ValueError
  end.

(** [num / den] rounded to the nearest integer, ties to even. *)
Definition div_half_even (num den : Z) : Z :=
  let (q, r) := Z.div_eucl num den in
  match 2 * r ?= den with
  | Lt => q
  | Gt => q + 1
  | Eq => if Z.even q then q else q + 1
  end.

(** [format(x, ".pf")] for [p >= 1]: the exact value of [x] rounded to
    [p] decimals, ties to even. *)
Definition format_fixed (p : nat) (x : float) : string :=
  let pw := 10 ^ Z.of_nat p in
  let body (n : Z) := (str_of_int (n / pw) ++ "." ++ zfill p (str_of_int (n mod pw)))%string in
  match Prim2SF x with
  | S754_nan => "nan"
  | S754_infinity s => if s then "-inf" else "inf"
  | S754_zero s => ((if s then "-" else EmptyString) ++ body 0)%string
  | S754_finite s m e =>
      let n := if 0 <=? e then Zpos m * pw * 2 ^ e
               else div_half_even (Zpos m * pw) (2 ^ (- e)) in
      ((if s then "-" else EmptyString) ++ body n)%string
  end.

(** [repr(x)] gives the shortest decimal numeral that [float] reads back
    as [x] and, among those of that length, the one nearest to [x].
    Numbers are fractions over the common denominator [den]. *)

(** [num / den] compared with [d * 10^k]. *)
Definition cmp_dec (num den d k : Z) : comparison :=
  if 0 <=? k then num ?= d * 10 ^ k * den
  else num * 10 ^ (- k) ?= d * den.

(** The integer part of [(num / den) / 10^k]. *)
Definition floor_dec (num den k : Z) : Z :=
  if 0 <=? k then num / (den * 10 ^ k) else (num * 10 ^ (- k)) / den.

(** The decimal exponent of [num / den]: [10^p <= num / den < 10^(p+1)]. *)
Definition log10_floor (num den : Z) : Z :=
  let p0 := ((Z.log2 num - Z.log2 den) * 30103) / 100000 in
  match cmp_dec num den 1 p0 with
  | Lt => p0 - 1
  | _ => match cmp_dec num den 1 (p0 + 1) with
         | Lt => p0
         | _ => p0 + 1
         end
  end.

(** Tries [n], [n+1], ... significant digits: the numerals just below
    and just above [v] are kept when they lie in the rounding interval
    from [lo] to [hi] (its ends count when [incl]). *)
Fixpoint shortest (fuel : nat) (n lo v hi den p : Z) (incl : bool) : Z * Z :=
  let k := p - n + 1 in
  let d0 := floor_dec v den k in
  let d1 := d0 + 1 in
  let inside d :=
    match cmp_dec lo den d k, cmp_dec hi den d k with
    | Lt, Gt => true
    | Eq, Gt | Lt, Eq | Eq, Eq => incl
    | _, _ => false
    end in
  let pick :=
    match inside d0, inside d1 with
    | true, true =>
        Some match cmp_dec (2 * v) den (d0 + d1) k with
             | Lt => d0
             | Gt => d1
             | Eq => if Z.even d0 then d0 else d1
             end
    | true, false => Some d0
    | false, true => Some d1
    | false, false => None
    end in
  match pick, fuel with
  | Some d, _ => (d, k)
  | None, S fuel' => shortest fuel' (n + 1) lo v hi den p incl
  | None, O => (d0, k)
  end.

Fixpoint drop_zeros (fuel : nat) (d k : Z) : Z * Z :=
  match fuel with
  | O => (d, k)
  | S fuel' =>
      if (d mod 10 =? 0) && negb (d =? 0) then drop_zeros fuel' (d / 10) (k + 1)
      else (d, k)
  end.

(** The digits [d] and exponent [k] of [repr] for [m * 2^e]: the numeral
    is [d * 10^k].  The interval reaches half-way to the neighbouring
    floats; the lower neighbour is nearer at a power of two. *)
Definition repr_digits (m : positive) (e : Z) : Z * Z :=
  let low_gap := if (Zpos m =? 2 ^ 52) && (-1074 <? e) then 1 else 2 in
  let sc := if 2 <=? e then 2 ^ (e - 2) else 1 in
  let den := if 2 <=? e then 1 else 2 ^ (2 - e) in
  let v := 4 * Zpos m * sc in
  let lo := (4 * Zpos m - low_gap) * sc in
  let hi := (4 * Zpos m + 2) * sc in
  let '(d, k) := shortest 16 1 lo v hi den (log10_floor v den) (Z.even (Zpos m)) in
  drop_zeros 17 d k.

Definition zeros (n : Z) : string := repeat_char "0" (Z.to_nat n).

(** [repr(x)], which is also [str(x)] and what an f-string field without
    a format gives. *)
Definition float_repr (x : float) : string :=
  match Prim2SF x with
  | S754_nan => "nan"
  | S754_infinity s => if s then "-inf" else "inf"
  | S754_zero s => if s then "-0.0" else "0.0"
  | S754_finite s m e =>
      let '(d, k) := repr_digits m e in
      let ds := str_of_int d in
      let nd := Z.of_nat (String.length ds) in
      let decpt := k + nd in
      let fixed := (-4 <? decpt) && (decpt <=? 16) in
      let frac_only := decpt <=? 0 in
      let int_only := nd <=? decpt in
      let body :=
        (if fixed then
           if frac_only then "0." ++ zeros (- decpt) ++ ds
           else if int_only then ds ++ zeros (decpt - nd) ++ ".0"
           else substring 0 (Z.to_nat decpt) ds ++ "."
                ++ substring (Z.to_nat decpt) (Z.to_nat (nd - decpt)) ds
         else
           substring 0 1 ds
           ++ (if 1 <? nd then "." ++ substring 1 (Z.to_nat (nd - 1)) ds
               else EmptyString)%Z
           ++ "e" ++ (if decpt - 1 <? 0 then "-" else "+")%Z
           ++ zfill 2 (str_of_int (Z.abs (decpt - 1))))%string in
      ((if s then "-" else EmptyString) ++ body)%string
  end.

End Py.

(** ** numpy operations on [float64] arrays, as lists *)

Module Np.

Import Py.

(** [np.pi] *)
Definition pi : float := 0x1.921fb54442d18p+1%float.

(** [np.arange(0, num, dtype=float64)] *)
Definition arange (num : Z) : list float := map float_of_int (range 0 num).

(** [np.linspace(start, stop, num, endpoint=False)] for [num > 0]: the
    indices are scaled by [step = (stop - start) / num] (by [1 / num] and
    then by the span when the step rounds to zero), then [start] is
    added. *)
Definition linspace (start stop : float) (num : Z) : list float :=
  let delta := (stop - start)%float in
  let div := float_of_int num in
  let step := (delta / div)%float in
  map (fun y =>
         ((if (step =? 0)%float then y / div * delta else y * step) + start)%float)
      (arange num).

(** [np.zeros_like(t)] *)
Definition zeros_like (t : list float) : list float := map (fun _ => 0%float) t.

(** [a + b] on arrays of one shape. *)
Definition add (a b : list float) : list float :=
  map (fun '(x, y) => (x + y)%float) (combine a b).

(** [np.abs(a)] *)
Definition abs (a : list float) : list float := map PrimFloat.abs a.

(** [np.maximum] on two numbers: a NaN on either side is returned. *)
Definition maximum (a b : float) : float :=
  if (b <=? a)%float || is_nan a then a else b.

(** [np.max(a)]: the reduction of [maximum] over the array; raises
    [ValueError] on an empty array. *)
Definition max (a : list float) : result float :=
  match a with
  | [] => raise ValueError
  | x :: a' => ret (fold_left maximum a' x)
  end.

(** [np.vstack((l, r)).T]: one row per sample instant. *)
Definition vstack_T (l r : list float) : list (float * float) := combine l r.

(** A 16-bit sample; [None] stands for the value the C conversion of a
    NaN, an infinity or an out-of-range number leaves undefined. *)
Definition int16 : Type := option Z.

(** The integer part of [x], rounding toward zero. *)
Definition trunc (x : float) : option Z :=
  match Prim2SF x with
  | S754_zero _ => Some 0
  | S754_finite s m e =>
      Some (cond_Zopp s (if 0 <=? e then Zpos m * 2 ^ e else Zpos m / 2 ^ (- e)))
  | S754_infinity _ | S754_nan => None
  end.

(** One element of [a.astype(np.int16)]: the C conversion from [double]
    to a 16-bit signed integer. *)
Definition astype_int16 (x : float) : int16 :=
  match trunc x with
  | Some z => if (-32768 <=? z) && (z <=? 32767) then Some z else None
  | None => None
  end.

End Np.

(** ** The script *)

Module App.

Import Py.

Definition bytes : Type := list Byte.byte.

(** A pydub [AudioSegment] decoded from the WAV buffer that
    [wavfile.write] filled: its frame rate and its two-channel 16-bit
    frames. *)
Record AudioSegment : Type := {
  frame_rate : Z;
  frames : list (Np.int16 * Np.int16)
}.

Inductive mode : Type := Sweep | Individual.

(** The widget values of one run of the script. *)
Record inputs : Type := {
  base_freq : float;
  sample_rate : Z;
  duration : Z;
  gen_mode : mode;
  file_format : string;
  include_ref : bool;
  decimals : Z;
  raw_ints : string;
  generate : bool
}.

(** What a run hands to the page: nothing before the button is pressed,
    the sweep file with its download name, or the archive entries with
    the number shown in the success message. *)
Inductive output : Type :=
  | Idle
  | SweepFile (out_file : bytes) (name : string)
  | Archive (entries : list (string * bytes)) (count : Z).

(** The choices of the sample-rate box. *)
Definition rates : list Z := [44100; 48000; 88200; 96000].

(** [10 ** -i] for [i >= 1]: the float nearest to [10^-i]. *)
Definition pow10_neg (i : Z) : float := SF2Prim (decimal_to_SF false 1 (- i)).

(** [offsets1 = [10**-i for i in range(1, decimals + 1)]] *)
Definition offsets1 (decimals : Z) : list float :=
  map pow10_neg (range 1 (decimals + 1)).

(** [offsets2 = [float(x.strip()) for x in raw_ints.split(",") if x.strip()]] *)
Definition offsets2 (raw_ints : string) : result (list float) :=
  mapM (fun x => float_of_str (strip x))
       (filter (fun x => truthy (strip x)) (split "," raw_ints)).

(** [all_offsets = offsets1 + offsets2] *)
Definition all_offsets (decimals : Z) (raw_ints : string) : result (list float) :=
  bind (offsets2 raw_ints) (fun o2 => ret (offsets1 decimals ++ o2)).

(** [(final * 32767).astype(np.int16)] *)
Definition to_int16 (final : list (float * float)) : list (Np.int16 * Np.int16) :=
  map (fun '(l, r) =>
         (Np.astype_int16 (l * 32767)%float, Np.astype_int16 (r * 32767)%float))
      final.

(** [clean_off = f"{off:.15f}".rstrip('0').rstrip('.')] *)
Definition clean_off (off : float) : string :=
  rstrip "." (rstrip "0" (format_fixed 15 off)).

(** [fname = f"{i+1}_{base_freq}Hz_plus_{clean_off}Hz_{sample_rate}SR.{file_format}"] *)
Definition fname (i : Z) (base_freq off : float) (sample_rate : Z)
    (file_format : string) : string :=
  (str_of_int (i + 1) ++ "_" ++ float_repr base_freq ++ "Hz_plus_"
   ++ clean_off off ++ "Hz_" ++ str_of_int sample_rate ++ "SR." ++ file_format)%string.

Section Engine.

(** [np.sin] on one number, and pydub's [AudioSegment.export] to a
    buffer, which may fail when the codec is missing. *)
Variable np_sin : float -> float.
Variable pydub_export : AudioSegment -> string -> result bytes.

(** [t = np.linspace(0, duration, int(sample_rate * duration),
    endpoint=False, dtype=np.float64)] *)
Definition time_grid (sample_rate duration : Z) : list float :=
  Np.linspace (float_of_int 0) (float_of_int duration) (sample_rate * duration).

(** [np.sin(2 * np.pi * freq * t)] *)
Definition tone (freq : float) (t : list float) : list float :=
  map (fun tk => np_sin (float_of_int 2 * Np.pi * freq * tk)%float) t.

(** The sample instant of index [k], as [np.linspace] computes it. *)
Definition grid_point (sample_rate duration k : Z) : float :=
  let start := float_of_int 0 in
  let delta := (float_of_int duration - start)%float in
  let div := float_of_int (sample_rate * duration) in
  let step := (delta / div)%float in
  ((if (step =? 0)%float then float_of_int k / div * delta
    else float_of_int k * step) + start)%float.

(** The step of the grid is the float [1 / sample_rate], and it is not
    zero. *)
Definition step_ok (sample_rate duration : Z) : bool :=
  PrimFloat.Leibniz.eqb
    ((float_of_int duration - float_of_int 0)
     / float_of_int (sample_rate * duration))%float
    (1 / float_of_int sample_rate)%float
  && negb ((float_of_int duration - float_of_int 0)
           / float_of_int (sample_rate * duration) =? 0)%float.

(** The two-channel array [final]: the signal beside the reference tone,
    or beside itself. *)
Definition assemble (include_ref : bool) (base_freq : float)
    (sig t : list float) : list (float * float) :=
  if include_ref then Np.vstack_T sig (tone base_freq t)
  else Np.vstack_T sig sig.

Definition create_audio_segment (base_freq offset : float)
    (sample_rate duration : Z) (include_ref : bool) : AudioSegment :=
  let t := time_grid sample_rate duration in
  let freq := (base_freq + offset)%float in
  let sig := tone freq t in
  let final := assemble include_ref base_freq sig t in
  let audio_data := to_int16 final in
  {| frame_rate := sample_rate; frames := audio_data |}.

Definition export_buffer (audio_segment : AudioSegment) (fmt : string) : result bytes :=
  pydub_export audio_segment (lower_str fmt).

(** The sweep loop: [mixed += np.sin(2 * np.pi * (base_freq + off) * t)]
    for each offset, from [np.zeros_like(t)]. *)
Definition mix (base_freq : float) (offsets t : list float) : list float :=
  fold_left (fun mixed off => Np.add mixed (tone (base_freq + off)%float t))
            offsets (Np.zeros_like t).

(** The value the sweep loop leaves at the instant [tk]: the tones
    added one after the other to zero. *)
Definition mix_at (base_freq : float) (offsets : list float) (tk : float) : float :=
  fold_left
    (fun acc off => (acc + np_sin (float_of_int 2 * Np.pi * (base_freq + off) * tk))%float)
    offsets 0%float.

(** [mixed /= np.max(np.abs(mixed))] *)
Definition normalize (mixed : list float) : result (list float) :=
  bind (Np.max (Np.abs mixed)) (fun peak => ret (map (fun x => (x / peak)%float) mixed)).

(** The two-channel array of the sweep branch. *)
Definition sweep_final (base_freq : float) (offsets : list float)
    (sample_rate duration : Z) (include_ref : bool) : result (list (float * float)) :=
  let t := time_grid sample_rate duration in
  bind (normalize (mix base_freq offsets t))
       (fun mixed => ret (assemble include_ref base_freq mixed t)).

Definition sweep (base_freq : float) (offsets : list float)
    (sample_rate duration : Z) (include_ref : bool) (file_format : string) : result output :=
  bind (sweep_final base_freq offsets sample_rate duration include_ref) (fun final =>
  let audio_data := to_int16 final in
  let segment := {| frame_rate := sample_rate; frames := audio_data |} in
  bind (export_buffer segment file_format) (fun out_file =>
  ret (SweepFile out_file ("sweep_" ++ float_repr base_freq ++ "Hz." ++ file_format)))).

(** The loop [for i, off in enumerate(all_offsets)] from index [i] on,
    appending to the entries [zip_file] written so far. *)
Fixpoint individual_loop (base_freq : float) (sample_rate duration : Z)
    (include_ref : bool) (file_format : string)
    (i : Z) (offsets : list float) (zip_file : list (string * bytes))
    : result (list (string * bytes)) :=
  match offsets with
  | [] => ret zip_file
  | off :: rest =>
      let segment := create_audio_segment base_freq off sample_rate duration include_ref in
      bind (export_buffer segment file_format) (fun buf =>
      individual_loop base_freq sample_rate duration include_ref file_format
        (i + 1) rest
        (zip_file ++ [(fname i base_freq off sample_rate file_format, buf)]))
  end.

Definition individual (base_freq : float) (offsets : list float)
    (sample_rate duration : Z) (include_ref : bool) (file_format : string) : result output :=
  bind (individual_loop base_freq sample_rate duration include_ref file_format 0 offsets [])
       (fun zip_file => ret (Archive zip_file (Z.of_nat (List.length offsets)))).

(** One run of the script: the offsets are built at the top level, then
    the button starts the chosen branch. *)
Definition run (inp : inputs) : result output :=
  bind (all_offsets (decimals inp) (raw_ints inp)) (fun offsets =>
  if generate inp then
    match gen_mode inp with
    | Sweep =>
        sweep (base_freq inp) offsets (sample_rate inp) (duration inp)
              (include_ref inp) (file_format inp)
    | Individual =>
        individual (base_freq inp) offsets (sample_rate inp) (duration inp)
                   (include_ref inp) (file_format inp)
    end
  else ret Idle).

End Engine.

End App.

(** ** A sine to run the model with

    [np.sin] is a parameter of the model.  To evaluate the script at
    concrete inputs this stand-in takes its place: NaN at NaN and at the
    infinities, otherwise the argument reduced by a multiple of [2 * pi]
    and a Taylor polynomial, kept within [[-1, 1]]. *)

Module Ref.

Definition two_pi : float := (2 * Np.pi)%float.

(** The nearest integer to [x], for [|x| < 2^51]. *)
Definition rint (x : float) : float :=
  (x + 6755399441055744 - 6755399441055744)%float.

Fixpoint taylor (n : nat) (k : Z) (r2 term acc : float) : float :=
  match n with
  | O => acc
  | S n' =>
      let term' := (- term * r2 / Py.float_of_int ((k + 1) * (k + 2)))%float in
      taylor n' (k + 2) r2 term' (acc + term')%float
  end.

Definition sin (x : float) : float :=
  if negb (is_finite x) then nan
  else
    let r := (x - rint (x / two_pi) * two_pi)%float in
    let y := taylor 12 1 (r * r)%float r r in
    if (1 <? y)%float then 1%float
    else if (y <? -1)%float then (-1)%float
    else y.

End Ref.

(** ** In the words of the specification: the quantizer, and the
    literals that are read as offsets *)

Module Spec.

(** The exact value of a finite float as a fraction with a positive
    denominator. *)
Definition exact (x : spec_float) : option (Z * Z) :=
  match x with
  | S754_zero _ => Some (0, 1)
  | S754_finite s m e =>
      Some (cond_Zopp s (Zpos m * 2 ^ Z.max e 0), 2 ^ Z.max (- e) 0)
  | S754_infinity _ | S754_nan => None
  end.

Definition in_int16 (z : Z) : Np.int16 :=
  if (-32768 <=? z) && (z <=? 32767) then Some z else None.

(** [round(x)]: the nearest integer, ties to even. *)
Definition to_nearest (x : float) : Np.int16 :=
  match exact (Prim2SF x) with
  | Some (n, d) => in_int16 (Py.div_half_even n d)
  | None => None
  end.

(** The integer quotient that rounds toward zero. *)
Definition toward_zero (x : float) : Np.int16 :=
  match exact (Prim2SF x) with
  | Some (n, d) => in_int16 (Z.quot n d)
  | None => None
  end.

(** [x] is a float nearest to [10^-i]: at most half a unit in the last
    place away. *)
Definition nearest_pow10_neg (i : Z) (x : float) : bool :=
  match Prim2SF x with
  | S754_finite false m e =>
      (e <? 0) && (2 * Z.abs (Zpos m * 10 ^ i - 2 ^ (- e)) <=? 10 ^ i)
  | _ => false
  end.

(** [sample16 = round(sample * 32767)] on each channel. *)
Definition quantize (final : list (float * float)) : list (Np.int16 * Np.int16) :=
  map (fun '(l, r) => (to_nearest (l * 32767)%float, to_nearest (r * 32767)%float)) final.

(** *** The literals that [float] reads, by their grammar *)

(** A run of decimal digits as a number. *)
Definition digits_value_from (acc : Z) (s : string) : Z :=
  fold_left (fun a c => 10 * a + (Py.code c - 48)) (list_ascii_of_string s) acc.

Definition digits_value (s : string) : Z := digits_value_from 0 s.

(** An optional sign, and whether it is a minus sign. *)
Inductive sign : string -> bool -> Prop :=
  | sign_none : sign EmptyString false
  | sign_plus : sign "+" false
  | sign_minus : sign "-" true.

(** An optional exponent part and its value: [e] or [E], an optional
    sign and at least one digit. *)
Inductive exponent : string -> Z -> Prop :=
  | exp_none : exponent EmptyString 0
  | exp_some (c : ascii) (sg ds : string) (neg : bool) :
      c = "e"%char \/ c = "E"%char -> sign sg neg ->
      Py.all_chars Py.isdigit ds -> ds <> EmptyString ->
      exponent (String c (sg ++ ds))
               (if neg then - digits_value ds else digits_value ds).

(** A mantissa, its digits as a number and the number of digits after
    the point: digits, or digits, a point and digits, with a digit on
    one side of the point at least. *)
Inductive mantissa : string -> Z -> Z -> Prop :=
  | man_int (ip : string) :
      Py.all_chars Py.isdigit ip -> ip <> EmptyString ->
      mantissa ip (digits_value ip) 0
  | man_point (ip fp : string) :
      Py.all_chars Py.isdigit ip -> Py.all_chars Py.isdigit fp ->
      (ip ++ fp)%string <> EmptyString ->
      mantissa (ip ++ String "." fp) (digits_value (ip ++ fp))
               (Z.of_nat (String.length fp)).

(** The numerals that [float] reads, without digit separators, and
    their values: a sign and then a decimal numeral, read as the nearest
    binary64 number (an infinity when it is too large), or one of the
    words [inf], [infinity] and [nan] in any letter case. *)
Inductive literal : string -> spec_float -> Prop :=
  | lit_inf (sg w : string) (neg : bool) :
      sign sg neg ->
      Py.lower_str w = "inf"%string \/ Py.lower_str w = "infinity"%string ->
      literal (sg ++ w) (S754_infinity neg)
  | lit_nan (sg w : string) (neg : bool) :
      sign sg neg -> Py.lower_str w = "nan"%string ->
      literal (sg ++ w) S754_nan
  | lit_dec (sg m ex : string) (neg : bool) (D nf E : Z) :
      sign sg neg -> mantissa m D nf -> exponent ex E ->
      literal (sg ++ m ++ ex) (Py.decimal_to_SF neg D (E - nf)).

(** [s] without its underscores. *)
Fixpoint drop_underscores (s : string) : string :=
  match s with
  | EmptyString => EmptyString
  | String c s' =>
      if Ascii.eqb c "_" then drop_underscores s' else String c (drop_underscores s')
  end.

(** Every underscore of [s] stands between two digits. *)
Definition separators_ok (s : string) : Prop :=
  forall a b : string, s = (a ++ String "_" b)%string ->
    (exists a' c, a = (a' ++ String c EmptyString)%string /\ Py.isdigit c = true)
    /\ (exists d b', b = String d b' /\ Py.isdigit d = true).

(** A token that [float] accepts, and the number it is read as. *)
Definition float_literal (t : string) (x : spec_float) : Prop :=
  separators_ok t /\ literal (drop_underscores t) x.

End Spec.

(** ** Notions used in the proofs about binary64 rounding *)

Module B64.

(** Bits have been shifted out of the mantissa of [mrs]. *)
Definition inexact (mrs : shr_record) : bool := shr_r mrs || shr_s mrs.

(** The mantissa of [mrs], scaled by [2^k], stays below [W], and
    strictly below once bits have been shifted out. *)
Definition below (W k : Z) (mrs : shr_record) : Prop :=
  0 <= shr_m mrs /\ shr_m mrs * 2 ^ k <= W /\
  (inexact mrs = true -> shr_m mrs * 2 ^ k < W).

(** The order of two positive floats in canonical form, read off their
    exponents and mantissas. *)
Definition mag_le (m1 : positive) (e1 : Z) (m2 : positive) (e2 : Z) : Prop :=
  e1 < e2 \/ (e1 = e2 /\ Zpos m1 <= Zpos m2).

(** One is [2^52 * 2^-52]. *)
Definition m_one : positive := 4503599627370496.

(** Magnitude at most one, on a canonical pair. *)
Definition le_one (m : positive) (e : Z) : Prop := mag_le m e m_one (-52).

End B64.

(** * Facts *)

(** ** Rounding in binary64: what rounding cannot exceed *)

Module B64Facts.

Import B64.

Lemma digits2_pos_size (p : positive) : digits2_pos p = Pos.size p.
Proof. induction p; simpl; congruence. Qed.

(** [2^(d-1) <= m < 2^d] for the number [d] of binary digits of [m]. *)
Lemma digits2_bounds (p : positive) :
  2 ^ (Zpos (digits2_pos p) - 1) <= Zpos p < 2 ^ Zpos (digits2_pos p).
Proof.
  rewrite digits2_pos_size. split.
  - pose proof (Pos.size_le p) as H.
    assert (Hp : (2 ^ Pos.size p <= p~0)%positive) by exact H.
    apply Pos2Z.pos_le_pos in Hp. rewrite Pos2Z.inj_pow in Hp.
    replace (Zpos (Pos.size p)) with (Z.succ (Zpos (Pos.size p) - 1)) in Hp by lia.
    rewrite Z.pow_succ_r in Hp by lia. lia.
  - pose proof (Pos.size_gt p) as H.
    apply Pos2Z.pos_lt_pos in H. rewrite Pos2Z.inj_pow in H. exact H.
Qed.

Lemma Zdigits2_nonneg (m : Z) : 0 <= Zdigits2 m.
Proof. destruct m; simpl; lia. Qed.

(** A number below [b * 2^k] has at most [k] digits more than [b]. *)
Lemma Zdigits2_le (m b k : Z) :
  0 <= m -> 0 < b -> 0 <= k -> m <= b * 2 ^ k -> Zdigits2 m <= Zdigits2 b + k.
Proof.
  intros Hm Hb Hk Hle.
  destruct m as [|p|p]; [ | | lia ].
  - unfold Zdigits2 at 1. pose proof (Zdigits2_nonneg b). lia.
  - destruct b as [|q|q]; try lia. unfold Zdigits2.
    pose proof (digits2_bounds p) as [Hp _].
    pose proof (digits2_bounds q) as [_ Hq].
    destruct (Z_lt_le_dec (Zpos (digits2_pos q) + k) (Zpos (digits2_pos p))) as [Hlt|Hge]; [ exfalso | lia ].
    assert (2 ^ (Zpos (digits2_pos q) + k) <= 2 ^ (Zpos (digits2_pos p) - 1))
      by (apply Z.pow_le_mono_r; lia).
    rewrite Z.pow_add_r in H by lia.
    assert (Zpos q * 2 ^ k < 2 ^ Zpos (digits2_pos q) * 2 ^ k).
    { apply Z.mul_lt_mono_pos_r; [ apply Z.pow_pos_nonneg; lia | exact Hq ]. }
    lia.
Qed.

Lemma fexp_mono (a b : Z) : a <= b -> fexp prec emax a <= fexp prec emax b.
Proof. unfold fexp. lia. Qed.

Lemma below_shr_1 (W k : Z) (mrs : shr_record) :
  0 <= k -> below W k mrs -> below W (k + 1) (shr_1 mrs).
Proof.
  intros Hk H.
  assert (Hp : 0 < 2 ^ k) by (apply Z.pow_pos_nonneg; lia).
  destruct mrs as [m r s]. unfold below, inexact in *. cbn [shr_m shr_r shr_s] in *.
  destruct H as (Hm & Hle & Hlt).
  rewrite Z.pow_add_r by lia. change (2 ^ 1) with 2.
  generalize dependent (2 ^ k). intros X Hle Hlt HX.
  destruct m as [|[p|p|]|p]; cbn [shr_1 shr_m shr_r shr_s]; try lia.
  - rewrite Z.mul_0_l in *. repeat split; try lia.
    rewrite orb_false_l. exact Hlt.
  - replace (Zpos p * (X * 2)) with (Zpos p~0 * X) by (rewrite Pos2Z.inj_xO; ring).
    repeat split; try lia. rewrite orb_false_l. exact Hlt.
Qed.

Lemma below_iter (n : positive) : forall (W k : Z) (mrs : shr_record),
  0 <= k -> below W k mrs -> below W (k + Zpos n) (iter_pos shr_1 n mrs).
Proof.
  induction n as [n IH|n IH|]; intros W k mrs Hk H; cbn [iter_pos].
  - replace (k + Zpos n~1) with (k + 1 + Zpos n + Zpos n) by lia.
    apply IH; [lia|]. apply IH; [lia|]. now apply below_shr_1.
  - replace (k + Zpos n~0) with (k + Zpos n + Zpos n) by lia.
    apply IH; [lia|]. now apply IH.
  - now apply below_shr_1.
Qed.

Lemma below_shr_fexp (W m e : Z) (l : location) :
  0 <= m -> m <= W -> (l <> loc_Exact -> m < W) ->
  let e1 := Z.max e (fexp prec emax (Zdigits2 m + e)) in
  exists mrs, shr_fexp prec emax m e l = (mrs, e1) /\ below W (e1 - e) mrs.
Proof.
  intros Hm Hle Hlt e1. unfold shr_fexp, shr.
  assert (H0 : below W 0 (shr_record_of_loc m l)).
  { unfold below, inexact.
    destruct l as [|[]]; cbn [shr_record_of_loc shr_m shr_r shr_s orb];
      rewrite Z.mul_1_r; (split; [lia|split; [lia|]]); intros H;
      try discriminate; apply Hlt; discriminate. }
  destruct (fexp prec emax (Zdigits2 m + e) - e) as [|n|n] eqn:Hn.
  - exists (shr_record_of_loc m l). split; [f_equal; lia|].
    replace (e1 - e) with 0 by lia. exact H0.
  - exists (iter_pos shr_1 n (shr_record_of_loc m l)). split; [f_equal; lia|].
    replace (e1 - e) with (0 + Zpos n) by lia. apply below_iter; [lia|exact H0].
  - exists (shr_record_of_loc m l). split; [f_equal; lia|].
    replace (e1 - e) with 0 by lia. exact H0.
Qed.

Lemma round_nearest_even_below (W k : Z) (mrs : shr_record) :
  0 <= k -> below (W * 2 ^ k) k mrs ->
  let r := round_nearest_even (shr_m mrs) (loc_of_shr_record mrs) in
  0 <= r <= W.
Proof.
  intros Hk (Hm & Hle & Hlt).
  assert (Hp : 0 < 2 ^ k) by (apply Z.pow_pos_nonneg; lia).
  assert (Hle' : shr_m mrs <= W) by (apply (Z.mul_le_mono_pos_r _ _ (2 ^ k)); assumption).
  assert (Hlt' : inexact mrs = true -> shr_m mrs + 1 <= W).
  { intros H. specialize (Hlt H). apply Z.mul_lt_mono_pos_r in Hlt; lia. }
  destruct mrs as [m [] []]; unfold inexact in *;
    cbn [shr_m shr_r shr_s loc_of_shr_record round_nearest_even orb] in *;
    try destruct (Z.even m); lia.
Qed.

(** Rounding a number that is at most the float [mb * 2^eb] gives a
    float that is at most [mb * 2^eb]. *)
Lemma binary_round_aux_le (sx : bool) (m e : Z) (l : location) (mb eb : Z) :
  0 <= m -> 0 < mb -> e <= eb ->
  m <= mb * 2 ^ (eb - e) -> (l <> loc_Exact -> m < mb * 2 ^ (eb - e)) ->
  fexp prec emax (Zdigits2 mb + eb) = eb -> eb <= emax - prec ->
  match binary_round_aux prec emax sx m e l with
  | S754_zero s => s = sx
  | S754_finite s m' e' => s = sx /\ (e' < eb \/ (e' = eb /\ Zpos m' <= mb))
  | _ => False
  end.
Proof.
  intros Hm Hmb He Hle Hlt Hcan Hmax.
  unfold binary_round_aux.
  destruct (below_shr_fexp _ m e l Hm Hle Hlt) as (mrs1 & -> & Hb1).
  set (e1 := Z.max e (fexp prec emax (Zdigits2 m + e))) in *.
  assert (He1 : e <= e1 <= eb).
  { split; [lia|]. apply Z.max_lub; [exact He|].
    rewrite <- Hcan. apply fexp_mono.
    pose proof (Zdigits2_le m mb (eb - e)). lia. }
  assert (Hsplit : mb * 2 ^ (eb - e) = mb * 2 ^ (eb - e1) * 2 ^ (e1 - e)).
  { rewrite <- Z.mul_assoc, <- Z.pow_add_r by lia. do 2 f_equal. lia. }
  rewrite Hsplit in Hb1.
  assert (Hk1 : 0 <= e1 - e) by lia.
  pose proof (round_nearest_even_below (mb * 2 ^ (eb - e1)) (e1 - e) mrs1 Hk1 Hb1) as Hr.
  cbv zeta in Hr.
  set (m2 := round_nearest_even (shr_m mrs1) (loc_of_shr_record mrs1)) in *.
  destruct (below_shr_fexp (mb * 2 ^ (eb - e1)) m2 e1 loc_Exact) as (mrs3 & -> & Hb3);
    [lia|lia|congruence|].
  set (e3 := Z.max e1 (fexp prec emax (Zdigits2 m2 + e1))) in *.
  assert (He3 : e1 <= e3 <= eb).
  { split; [lia|]. apply Z.max_lub; [lia|].
    rewrite <- Hcan. apply fexp_mono.
    pose proof (Zdigits2_le m2 mb (eb - e1)). lia. }
  destruct Hb3 as (H3 & Hle3 & _).
  assert (Hm3 : shr_m mrs3 <= mb * 2 ^ (eb - e3)).
  { apply (Z.mul_le_mono_pos_r _ _ (2 ^ (e3 - e1))); [apply Z.pow_pos_nonneg; lia|].
    rewrite <- Z.mul_assoc, <- Z.pow_add_r by lia.
    replace (eb - e3 + (e3 - e1)) with (eb - e1) by lia. exact Hle3. }
  destruct (shr_m mrs3) as [|m3|m3]; [reflexivity| |lia].
  replace (e3 <=? emax - prec) with true by (symmetry; apply Z.leb_le; lia).
  split; [reflexivity|].
  destruct (Z.eq_dec e3 eb) as [->|]; [right|left; lia].
  rewrite Z.sub_diag, Z.mul_1_r in Hm3. split; [reflexivity|exact Hm3].
Qed.

Lemma bounded_inv (m : positive) (e : Z) :
  bounded prec emax m e = true ->
  fexp prec emax (Zpos (digits2_pos m) + e) = e /\ e <= emax - prec.
Proof.
  unfold bounded, canonical_mantissa. intros H.
  apply andb_prop in H as [H1 H2].
  apply Z.eqb_eq in H1. apply Z.leb_le in H2. now split.
Qed.

Lemma bounded_digits (m : positive) (e : Z) :
  bounded prec emax m e = true ->
  Zpos (digits2_pos m) <= 53 /\ -1074 <= e /\
  (-1074 < e -> Zpos (digits2_pos m) = 53).
Proof.
  intros H. apply bounded_inv in H as [H _].
  unfold fexp, SpecFloat.emin, prec, emax in H. lia.
Qed.

Lemma pow2_le_mono (a b : Z) : 0 <= a <= b -> 2 ^ a <= 2 ^ b.
Proof. intros. apply Z.pow_le_mono_r; lia. Qed.

Lemma bounded_lt_2p53 (m : positive) (e : Z) :
  bounded prec emax m e = true -> Zpos m < 9007199254740992.
Proof.
  intros H. pose proof (bounded_digits _ _ H) as (Hd & _).
  pose proof (digits2_bounds m) as [_ Hu].
  change 9007199254740992 with (2 ^ 53).
  eapply Z.lt_le_trans; [exact Hu|]. apply pow2_le_mono. lia.
Qed.

(** In canonical form the order of the pairs is the order of the values. *)
Lemma mag_le_value (m1 : positive) (e1 : Z) (m2 : positive) (e2 : Z) :
  bounded prec emax m1 e1 = true -> bounded prec emax m2 e2 = true ->
  mag_le m1 e1 m2 e2 ->
  e1 <= e2 /\ Zpos m1 <= Zpos m2 * 2 ^ (e2 - e1) /\
  Zpos (digits2_pos m1) + e1 <= Zpos (digits2_pos m2) + e2.
Proof.
  intros H1 H2 [Hlt|[-> Hle]].
  - pose proof (bounded_digits _ _ H1) as (Hd1 & Hmin1 & _).
    pose proof (bounded_digits _ _ H2) as (_ & _ & Hd2).
    assert (Hd2' : Zpos (digits2_pos m2) = 53) by (apply Hd2; lia).
    pose proof (bounded_lt_2p53 _ _ H1) as Hu.
    pose proof (digits2_bounds m2) as [Hl _].
    rewrite Hd2' in Hl. change (2 ^ (53 - 1)) with 4503599627370496 in Hl.
    assert (Hp : 2 ^ 1 <= 2 ^ (e2 - e1)) by (apply pow2_le_mono; lia).
    change (2 ^ 1) with 2 in Hp.
    repeat split; [lia| |lia].
    apply Z.le_trans with (4503599627370496 * 2); [lia|].
    apply Z.mul_le_mono_nonneg; lia.
  - rewrite Z.sub_diag, Z.mul_1_r. repeat split; [lia|exact Hle|].
    pose proof (Zdigits2_le (Zpos m1) (Zpos m2) 0) as H. unfold Zdigits2 in H.
    rewrite Z.mul_1_r in H. lia.
Qed.

Lemma bounded_one : bounded prec emax m_one (-52) = true.
Proof. reflexivity. Qed.

Lemma le_one_value (m : positive) (e : Z) :
  bounded prec emax m e = true -> le_one m e -> e <= -52 /\ Zpos m <= 2 ^ (- e).
Proof.
  intros Hb H. destruct (mag_le_value _ _ _ _ Hb bounded_one H) as (He & Hv & _).
  split; [exact He|].
  replace (- e) with (52 + (-52 - e)) by lia. rewrite Z.pow_add_r by lia.
  exact Hv.
Qed.

(** The product of a float of magnitude at most one with a float [y] has
    magnitude at most that of [y], and the sign of the product. *)
Lemma SFmul_le (sx : bool) (mx : positive) (ex : Z) (sy : bool) (my : positive) (ey : Z) :
  bounded prec emax mx ex = true -> bounded prec emax my ey = true ->
  le_one mx ex ->
  match SFmul prec emax (S754_finite sx mx ex) (S754_finite sy my ey) with
  | S754_zero s => s = xorb sx sy
  | S754_finite s m e => s = xorb sx sy /\ mag_le m e my ey
  | _ => False
  end.
Proof.
  intros Hx Hy H1.
  destruct (le_one_value _ _ Hx H1) as (He & Hv).
  apply bounded_inv in Hy as [Hcan Hmax].
  cbn [SFmul].
  assert (Hle : Zpos (mx * my) <= Zpos my * 2 ^ (ey - (ex + ey))).
  { replace (ey - (ex + ey)) with (- ex) by lia.
    rewrite Pos2Z.inj_mul, (Z.mul_comm (Zpos mx)).
    apply Z.mul_le_mono_nonneg_l; [lia|exact Hv]. }
  apply (binary_round_aux_le (xorb sx sy) (Zpos (mx * my)) (ex + ey) loc_Exact
           (Zpos my) ey); try lia; try assumption.
  intros H. now elim H.
Qed.

Lemma new_location_exact (n r : Z) : new_location n r <> loc_Exact -> r <> 0.
Proof.
  intros H ->. apply H. unfold new_location, new_location_even, new_location_odd.
  now destruct (Z.even n).
Qed.

(** The quotient of a float by one of larger or equal magnitude has
    magnitude at most one. *)
Lemma SFdiv_le (sx : bool) (mx : positive) (ex : Z) (sy : bool) (my : positive) (ey : Z) :
  bounded prec emax mx ex = true -> bounded prec emax my ey = true ->
  mag_le mx ex my ey ->
  match SFdiv prec emax (S754_finite sx mx ex) (S754_finite sy my ey) with
  | S754_zero s => s = xorb sx sy
  | S754_finite s m e => s = xorb sx sy /\ le_one m e
  | _ => False
  end.
Proof.
  intros Hx Hy Hle.
  destruct (mag_le_value _ _ _ _ Hx Hy Hle) as (He & Hv & Hd).
  cbn [SFdiv]. unfold SFdiv_core_binary. unfold Zdigits2.
  set (e' := Z.min (fexp prec emax (Zpos (digits2_pos mx) + ex - (Zpos (digits2_pos my) + ey)))
                   (ex - ey)).
  assert (He' : e' <= -53 /\ e' <= ex - ey).
  { split; [|apply Z.le_min_r].
    etransitivity; [apply Z.le_min_l|].
    change (-53) with (fexp prec emax 0). apply fexp_mono. lia. }
  set (s := ex - ey - e').
  assert (Hs : 0 <= s) by (unfold s; lia).
  assert (Hm' : match s with
                | Zpos _ => Z.shiftl (Zpos mx) s
                | 0 => Zpos mx
                | Zneg _ => 0
                end = Zpos mx * 2 ^ s).
  { destruct s as [|p|p] eqn:Es; [now rewrite Z.mul_1_r|now rewrite Z.shiftl_mul_pow2|lia]. }
  rewrite Hm'.
  pose proof (Z_div_mod (Zpos mx * 2 ^ s) (Zpos my) ltac:(lia)) as Hdm.
  destruct (Z.div_eucl (Zpos mx * 2 ^ s) (Zpos my)) as [q r].
  destruct Hdm as [Hq Hr].
  assert (Hps : 0 < 2 ^ s) by (apply Z.pow_pos_nonneg; lia).
  assert (Hbound : Zpos mx * 2 ^ s <= Zpos my * 2 ^ (- e')).
  { replace (- e') with (ey - ex + s) by (unfold s; lia).
    rewrite Z.pow_add_r, Z.mul_assoc by lia.
    apply Z.mul_le_mono_nonneg_r; [lia|exact Hv]. }
  assert (Hq0 : 0 <= q).
  { destruct (Z_lt_le_dec q 0) as [Hneg|]; [exfalso|assumption].
    assert (Zpos my * q <= Zpos my * (-1)) by (apply Z.mul_le_mono_nonneg_l; lia).
    lia. }
  assert (Hqle : q <= 2 ^ (- e') /\ (r <> 0 -> q < 2 ^ (- e'))).
  { split.
    - apply (Z.mul_le_mono_pos_l _ _ (Zpos my)); lia.
    - intros Hr0. apply (Z.mul_lt_mono_pos_l (Zpos my)); lia. }
  assert (Hpow : Zpos m_one * 2 ^ (-52 - e') = 2 ^ (- e')).
  { replace (- e') with (52 + (-52 - e')) by lia. now rewrite Z.pow_add_r by lia. }
  apply (binary_round_aux_le (xorb sx sy) q e' (new_location (Zpos my) r)
           (Zpos m_one) (-52)); try lia.
  - intros Hl. apply new_location_exact in Hl. lia.
  - reflexivity.
  - unfold prec, emax; lia.
Qed.

(** A finite float divided by a float of the same magnitude gives one,
    up to the sign. *)
Lemma SFdiv_self (sx sy : bool) (m : positive) (e : Z) :
  SFdiv prec emax (S754_finite sx m e) (S754_finite sy m e)
  = S754_finite (xorb sx sy) m_one (-52).
Proof.
  cbn [SFdiv]. unfold SFdiv_core_binary.
  rewrite !Z.sub_diag. change (Z.min (fexp prec emax 0) 0) with (-53).
  change (0 - -53) with 53. cbv iota.
  rewrite Z.shiftl_mul_pow2 by lia.
  pose proof (Z_div_mod (Zpos m * 2 ^ 53) (Zpos m) ltac:(lia)) as Hdm.
  destruct (Z.div_eucl (Zpos m * 2 ^ 53) (Zpos m)) as [q r].
  destruct Hdm as [Hq Hr].
  assert (Hq' : q = 2 ^ 53 /\ r = 0).
  { assert (Zpos m * (2 ^ 53 - q) = r) by lia.
    destruct (Z.eq_dec q (2 ^ 53)) as [->|Hne]; [lia|exfalso].
    destruct (Z_lt_le_dec q (2 ^ 53)).
    - assert (Zpos m * 1 <= Zpos m * (2 ^ 53 - q)) by (apply Z.mul_le_mono_nonneg_l; lia). lia.
    - assert (Zpos m * (2 ^ 53 - q) <= Zpos m * (-1)) by (apply Z.mul_le_mono_nonneg_l; lia). lia. }
  destruct Hq' as [-> ->].
  replace (new_location (Zpos m) 0) with loc_Exact
    by (unfold new_location, new_location_even, new_location_odd; now destruct (Z.even _)).
  reflexivity.
Qed.

Ltac cmp_cases :=
  repeat match goal with
         | H : context [Z.compare ?a ?b] |- _ =>
             destruct (Z.compare_spec a b); try discriminate H
         | H : context [Pos.compare_cont Eq ?a ?b] |- _ =>
             change (Pos.compare_cont Eq a b) with (Pos.compare a b) in H;
             destruct (Pos.compare_spec a b); cbn [CompOpp] in H; try discriminate H
         | |- context [Z.compare ?a ?b] =>
             destruct (Z.compare_spec a b)
         | |- context [Pos.compare_cont Eq ?a ?b] =>
             change (Pos.compare_cont Eq a b) with (Pos.compare a b);
             destruct (Pos.compare_spec a b); cbn [CompOpp]
         end.

Lemma SFleb_trans (x y z : spec_float) :
  SFleb x y = true -> SFleb y z = true -> SFleb x z = true.
Proof.
  unfold SFleb.
  destruct x as [[]|[]| |[] mx ex], y as [[]|[]| |[] my ey], z as [[]|[]| |[] mz ez];
    cbn [SFcompare]; intros Hxy Hyz; try discriminate; try reflexivity;
    cmp_cases; subst; try reflexivity; try lia.
Qed.

Lemma SFleb_refl (x : spec_float) : x <> S754_nan -> SFleb x x = true.
Proof.
  unfold SFleb. destruct x as [[]|[]| |[] m e]; cbn [SFcompare]; intros H;
    try reflexivity; try congruence;
    rewrite Z.compare_refl; change (Pos.compare_cont Eq m m) with (Pos.compare m m);
    now rewrite Pos.compare_refl.
Qed.

Lemma SFleb_total (x y : spec_float) :
  x <> S754_nan -> y <> S754_nan -> SFleb x y = false -> SFleb y x = true.
Proof.
  unfold SFleb.
  destruct x as [[]|[]| |[] mx ex], y as [[]|[]| |[] my ey];
    cbn [SFcompare]; intros Hx Hy Hxy; try discriminate; try reflexivity; try congruence;
    cmp_cases; subst; try reflexivity; try lia.
Qed.

Lemma SFleb_not_nan (x y : spec_float) :
  SFleb x y = true -> x <> S754_nan /\ y <> S754_nan.
Proof.
  unfold SFleb. destruct x, y; cbn [SFcompare]; intros H; try discriminate;
    split; discriminate.
Qed.

(** Below a positive finite float, and above it, lies only itself. *)
Lemma SFleb_antisym_finite (x : spec_float) (m : positive) (e : Z) :
  SFleb x (S754_finite false m e) = true ->
  SFleb (S754_finite false m e) x = true ->
  x = S754_finite false m e.
Proof.
  unfold SFleb.
  destruct x as [[]|[]| |[] mx ex]; cbn [SFcompare]; intros H1 H2; try discriminate.
  cmp_cases; subst; try reflexivity; try lia; try discriminate.
Qed.

(** A number at most the positive finite [m * 2^e] in absolute value. *)
Lemma SFleb_abs_finite (x : spec_float) (m : positive) (e : Z) :
  SFleb (SFabs x) (S754_finite false m e) = true ->
  (exists s, x = S754_zero s) \/
  (exists s mx ex, x = S754_finite s mx ex /\ mag_le mx ex m e).
Proof.
  unfold SFleb, mag_le.
  destruct x as [s|s| |s mx ex]; cbn [SFabs SFcompare]; intros H; try discriminate.
  - left. now exists s.
  - right. exists s, mx, ex. split; [reflexivity|].
    cmp_cases; subst; lia.
Qed.

Lemma mag_le_SFleb (m1 : positive) (e1 : Z) (m2 : positive) (e2 : Z) :
  mag_le m1 e1 m2 e2 -> SFleb (S754_finite false m1 e1) (S754_finite false m2 e2) = true.
Proof.
  unfold SFleb, mag_le. cbn [SFcompare]. intros H.
  cmp_cases; subst; try reflexivity; lia.
Qed.

Lemma Prim2SF_one : Prim2SF 1 = S754_finite false m_one (-52).
Proof. reflexivity. Qed.

Lemma Prim2SF_zero : Prim2SF 0 = S754_zero false.
Proof. reflexivity. Qed.

Lemma Prim2SF_infinity : Prim2SF infinity = S754_infinity false.
Proof. reflexivity. Qed.

Lemma Prim2SF_32767 : Prim2SF 32767 = S754_finite false 9006924376834048 (-38).
Proof. reflexivity. Qed.

Lemma is_nan_false (x : float) : is_nan x = false <-> Prim2SF x <> S754_nan.
Proof.
  unfold is_nan. rewrite eqb_spec. unfold SFeqb. split.
  - intros H E. rewrite E in H. discriminate.
  - intros H. pose proof (SFleb_refl _ H) as Hr. unfold SFleb in Hr.
    destruct (SFcompare (Prim2SF x) (Prim2SF x)) as [[]|] eqn:E; try discriminate; try reflexivity.
    exfalso. revert E. destruct (Prim2SF x) as [[]|[]| |[] m e]; cbn [SFcompare];
      try discriminate; try congruence;
      rewrite Z.compare_refl; change (Pos.compare_cont Eq m m) with (Pos.compare m m);
      rewrite Pos.compare_refl; discriminate.
Qed.

Lemma leb_refl (x : float) : is_nan x = false -> (x <=? x)%float = true.
Proof. rewrite is_nan_false, leb_spec. apply SFleb_refl. Qed.

Lemma leb_trans (x y z : float) :
  (x <=? y)%float = true -> (y <=? z)%float = true -> (x <=? z)%float = true.
Proof. rewrite !leb_spec. apply SFleb_trans. Qed.

Lemma leb_total (x y : float) :
  is_nan x = false -> is_nan y = false ->
  (x <=? y)%float = false -> (y <=? x)%float = true.
Proof. rewrite !is_nan_false, !leb_spec. apply SFleb_total. Qed.

Lemma leb_not_nan (x y : float) :
  (x <=? y)%float = true -> is_nan x = false /\ is_nan y = false.
Proof. rewrite !is_nan_false, leb_spec. apply SFleb_not_nan. Qed.

(** A finite float is a zero or a canonical mantissa and exponent. *)
Lemma is_finite_cases (x : float) :
  is_finite x = true ->
  (exists s, Prim2SF x = S754_zero s) \/
  (exists s m e, Prim2SF x = S754_finite s m e /\ bounded prec emax m e = true).
Proof.
  unfold is_finite, is_nan, is_infinity. rewrite !eqb_spec, abs_spec, Prim2SF_infinity.
  pose proof (Prim2SF_valid x) as Hv.
  destruct (Prim2SF x) as [s|[]| |s m e]; unfold SFeqb; cbn [valid_binary] in Hv;
    cbn [SFabs SFcompare negb orb]; intros H; try discriminate.
  - left. now exists s.
  - right. now exists s, m, e.
Qed.

Lemma is_zero_SF (x : float) : is_zero x = true <-> exists s, Prim2SF x = S754_zero s.
Proof.
  unfold is_zero, zero. rewrite eqb_spec, Prim2SF_zero. unfold SFeqb. split.
  - destruct (Prim2SF x) as [s|[]| |[] m e]; cbn [SFcompare]; intros H; try discriminate.
    now exists s.
  - intros [s ->]. reflexivity.
Qed.

(** [maximum] returns one of its arguments. *)
Lemma fold_maximum_in (l : list float) : forall a, In (fold_left Np.maximum l a) (a :: l).
Proof.
  induction l as [|b l IH]; intros a; cbn [fold_left].
  - now left.
  - destruct (IH (Np.maximum a b)) as [E|Hin].
    + rewrite <- E. unfold Np.maximum.
      destruct ((b <=? a)%float || is_nan a); cbn [In]; auto.
    + right. now right.
Qed.

(** A maximum that is a number is above every element. *)
Lemma fold_maximum_upper (l : list float) : forall a,
  is_nan (fold_left Np.maximum l a) = false ->
  (a <=? fold_left Np.maximum l a)%float = true /\
  Forall (fun x => (x <=? fold_left Np.maximum l a)%float = true) l.
Proof.
  induction l as [|b l IH]; intros a Hr; cbn [fold_left] in *.
  - split; [now apply leb_refl|constructor].
  - destruct (IH _ Hr) as [HM Hl].
    set (r := fold_left Np.maximum l (Np.maximum a b)) in *.
    destruct (leb_not_nan _ _ HM) as [HMn _].
    unfold Np.maximum in HM, HMn.
    destruct (b <=? a)%float eqn:Hba; cbn [orb] in HM, HMn.
    + split; [exact HM|]. constructor; [|exact Hl]. now apply leb_trans with a.
    + destruct (is_nan a) eqn:Ha; [congruence|].
      split; [|constructor; assumption].
      apply leb_trans with b; [|exact HM]. now apply leb_total.
Qed.

Lemma max_upper (a : list float) (r : float) :
  Np.max a = inr r -> is_nan r = false ->
  In r a /\ Forall (fun x => (x <=? r)%float = true) a.
Proof.
  destruct a as [|x a]; cbn [Np.max]; [discriminate|].
  unfold Py.ret. intros [= <-] Hr. split; [apply fold_maximum_in|].
  destruct (fold_maximum_upper a x Hr). now constructor.
Qed.

(** When every element is at most one and one is among them, the maximum
    is one. *)
Lemma max_one (a : list float) :
  Forall (fun x => (x <=? 1)%float = true) a -> In 1%float a -> Np.max a = inr 1%float.
Proof.
  intros Hall Hin.
  destruct a as [|x a]; [destruct Hin|]. cbn [Np.max]. unfold Py.ret. f_equal.
  set (r := fold_left Np.maximum a x).
  assert (Hr : In r (x :: a)) by apply fold_maximum_in.
  rewrite Forall_forall in Hall.
  pose proof (Hall _ Hr) as Hr1.
  destruct (leb_not_nan _ _ Hr1) as [Hrn _].
  destruct (fold_maximum_upper a x Hrn) as [Hx Ha].
  assert (H1r : (1 <=? r)%float = true).
  { destruct Hin as [<-|Hin]; [exact Hx|]. rewrite Forall_forall in Ha. now apply Ha. }
  apply Prim2SF_inj. rewrite Prim2SF_one.
  rewrite leb_spec, Prim2SF_one in Hr1, H1r.
  now apply SFleb_antisym_finite.
Qed.

(** The quotient by the peak has magnitude at most one. *)
Lemma div_peak_le_one (x peak : float) :
  is_finite peak = true -> is_zero peak = false ->
  (abs x <=? peak)%float = true -> (abs (x / peak) <=? 1)%float = true.
Proof.
  intros Hf Hz Hle.
  rewrite leb_spec, abs_spec, div_spec, Prim2SF_one. unfold SF64div.
  rewrite leb_spec, abs_spec in Hle.
  destruct (is_finite_cases _ Hf) as [[s Hp]|(sp & mp & ep & Hp & Hbp)].
  { assert (is_zero peak = true) by (apply is_zero_SF; now exists s). congruence. }
  rewrite Hp in *.
  pose proof (Prim2SF_valid x) as Hvx.
  destruct sp.
  { destruct (Prim2SF x) as [[]|[]| |[] m e]; discriminate Hle. }
  apply SFleb_abs_finite in Hle as [[s Hx]|(s & mx & ex & Hx & Hm)]; rewrite Hx in *.
  - reflexivity.
  - cbn [valid_binary] in Hvx.
    pose proof (SFdiv_le s mx ex false mp ep Hvx Hbp Hm) as H.
    destruct (SFdiv prec emax (S754_finite s mx ex) (S754_finite false mp ep))
      as [s'|s'| |s' m' e']; try contradiction.
    + reflexivity.
    + cbn [SFabs]. apply mag_le_SFleb. apply H.
Qed.

(** The element that attains the peak is sent to one or minus one. *)
Lemma div_peak_self (x : float) :
  is_finite (abs x) = true -> is_zero (abs x) = false -> abs (x / abs x) = 1%float.
Proof.
  intros Hf Hz. apply Prim2SF_inj.
  rewrite abs_spec, div_spec, abs_spec, Prim2SF_one. unfold SF64div.
  destruct (is_finite_cases _ Hf) as [[s Hp]|(sp & mp & ep & Hp & Hbp)].
  { assert (is_zero (abs x) = true) by (apply is_zero_SF; now exists s). congruence. }
  rewrite abs_spec in Hp.
  destruct (Prim2SF x) as [s|s| |s m e]; try discriminate Hp.
  cbn [SFabs] in *. now rewrite SFdiv_self.
Qed.

(** Dividing an array by its peak absolute value, when that is a nonzero
    number, gives an array of peak absolute value one. *)
Lemma normalize_peak (mixed : list float) (peak : float) :
  Np.max (Np.abs mixed) = inr peak ->
  is_finite peak = true -> is_zero peak = false ->
  Np.max (Np.abs (map (fun x => (x / peak)%float) mixed)) = inr 1%float.
Proof.
  intros Hmax Hf Hz.
  assert (Hn : is_nan peak = false).
  { unfold is_finite in Hf. destruct (is_nan peak); [discriminate|reflexivity]. }
  destruct (max_upper _ _ Hmax Hn) as [Hin Hall].
  unfold Np.abs in *. rewrite Forall_forall in Hall.
  apply max_one.
  - rewrite Forall_forall. intros y Hy.
    apply in_map_iff in Hy as (q & <- & Hq).
    apply in_map_iff in Hq as (x & <- & Hx).
    apply div_peak_le_one; try assumption.
    apply Hall. now apply in_map.
  - apply in_map_iff in Hin as (x & Hx & Hxin).
    apply in_map_iff. exists (x / peak)%float. split.
    + subst peak. now apply div_peak_self.
    + apply in_map_iff. now exists x.
Qed.

(** A sample of magnitude at most one, scaled by 32767, converts to a
    16-bit integer between -32767 and 32767. *)
Lemma astype_int16_scaled (x : float) :
  (abs x <=? 1)%float = true ->
  exists z, Np.astype_int16 (x * 32767)%float = Some z /\ -32767 <= z <= 32767.
Proof.
  intros H. rewrite leb_spec, abs_spec, Prim2SF_one in H.
  pose proof (Prim2SF_valid x) as Hvx.
  pose proof (Prim2SF_valid (x * 32767)%float) as Hvp.
  unfold Np.astype_int16, Np.trunc.
  rewrite mul_spec, Prim2SF_32767 in *. unfold SF64mul in *.
  apply SFleb_abs_finite in H as [[s Hx]|(s & mx & ex & Hx & Hm)]; rewrite Hx in *.
  - exists 0. cbn. split; [reflexivity|lia].
  - cbn [valid_binary] in Hvx.
    pose proof (SFmul_le s mx ex false 9006924376834048 (-38) Hvx eq_refl Hm) as Hb.
    destruct (SFmul prec emax (S754_finite s mx ex) (S754_finite false 9006924376834048 (-38)))
      as [s'|s'| |s' m' e']; try contradiction.
    + exists 0. split; [reflexivity|lia].
    + destruct Hb as [_ Hb]. cbn [valid_binary] in Hvp.
      destruct (mag_le_value m' e' 9006924376834048 (-38) Hvp eq_refl Hb) as (He & Hv & _).
      replace (0 <=? e') with false by (symmetry; apply Z.leb_gt; lia).
      assert (Hp : 0 < 2 ^ (- e')) by (apply Z.pow_pos_nonneg; lia).
      assert (Hq : 0 <= Zpos m' / 2 ^ (- e') <= 32767).
      { split; [apply Z.div_pos; lia|].
        apply Z.div_le_upper_bound; [exact Hp|].
        replace (- e') with (38 + (-38 - e')) by lia.
        rewrite Z.pow_add_r by lia. change (2 ^ 38) with 274877906944. lia. }
      exists (cond_Zopp s' (Zpos m' / 2 ^ (- e'))).
      assert (Hr : -32767 <= cond_Zopp s' (Zpos m' / 2 ^ (- e')) <= 32767)
        by (destruct s'; cbn [cond_Zopp]; lia).
      split; [|exact Hr].
      replace ((-32768 <=? _) && (_ <=? 32767)) with true; [reflexivity|].
      symmetry. apply andb_true_intro. split; apply Z.leb_le; lia.
Qed.

End B64Facts.

(** ** Strings and list comprehensions *)

Module PyFacts.

Lemma split_not_nil (sep : ascii) (s : string) : Py.split sep s <> [].
Proof.
  destruct s as [|c s]; cbn [Py.split]; [discriminate|].
  destruct (Ascii.eqb c sep); [discriminate|].
  destruct (Py.split sep s); discriminate.
Qed.



(** No piece of a split holds the separator. *)
Lemma split_no_sep (sep : ascii) (s : string) :
  Forall (fun tok => ~ In sep (list_ascii_of_string tok)) (Py.split sep s).
Proof.
  induction s as [|c s IH]; cbn [Py.split].
  - constructor; [intros []|constructor].
  - destruct (Ascii.eqb_spec c sep) as [->|Hne].
    + constructor; [intros []|exact IH].
    + destruct (Py.split sep s) as [|tok rest]; [repeat constructor; cbn; intuition|].
      inversion IH as [|? ? Htok Hrest]; subst.
      constructor; [|exact Hrest]. cbn. intros [E|Hin]; [congruence|now apply Htok].
Qed.

(** What [rstrip] removes is a run at the end of characters of the set. *)
Lemma rstrip_with_app (p : ascii -> bool) (s : string) :
  exists t, s = (Py.rstrip_with p s ++ t)%string /\ Py.all_chars p t.
Proof.
  induction s as [|c s (t & Ht & Hp)]; cbn [Py.rstrip_with].
  - exists EmptyString. split; [reflexivity|constructor].
  - destruct (Py.rstrip_with p s) as [|c' r] eqn:E.
    + destruct (p c) eqn:Hc.
      * exists (String c s). split; [reflexivity|].
        cbn in Ht. subst t. unfold Py.all_chars in *. cbn. now constructor.
      * exists t. split; [cbn in *; now f_equal|exact Hp].
    + exists t. split; [cbn in *; now f_equal|exact Hp].
Qed.

(** What [rstrip] leaves does not end with a character of the set. *)
Lemma rstrip_with_last (p : ascii -> bool) (s : string) :
  forall (r : string) (c : ascii),
  Py.rstrip_with p s = (r ++ String c EmptyString)%string -> p c = false.
Proof.
  induction s as [|a s IH]; intros r c; cbn [Py.rstrip_with].
  - destruct r; discriminate.
  - destruct (Py.rstrip_with p s) as [|c' r'] eqn:E.
    + destruct (p a) eqn:Ha.
      * destruct r; discriminate.
      * destruct r as [|x r]; cbn; [intros [= <-]; exact Ha|].
        intros [= _ H]. destruct r; discriminate.
    + destruct r as [|x r]; cbn; [intros [= _ H]; discriminate|].
      intros [= _ H]. now apply (IH r c).
Qed.

(** What [lstrip] removes is a run at the start of characters of the set,
    and what it leaves does not start with one. *)
Lemma lstrip_with_app (p : ascii -> bool) (s : string) :
  exists t, s = (t ++ Py.lstrip_with p s)%string /\ Py.all_chars p t
    /\ match Py.lstrip_with p s with
       | String c _ => p c = false
       | EmptyString => True
       end.
Proof.
  induction s as [|c s (t & Ht & Hp & Hh)]; cbn [Py.lstrip_with].
  - exists EmptyString. repeat split. constructor.
  - destruct (p c) eqn:Hc.
    + exists (String c t). split; [cbn; now f_equal|]. split; [|exact Hh].
      unfold Py.all_chars in *. cbn. now constructor.
    + exists EmptyString. split; [reflexivity|]. split; [constructor|exact Hc].
Qed.

(** List comprehensions that may raise *)

Lemma mapM_inr {A B} (f : A -> Py.result B) (l : list A) (out : list B) :
  Py.mapM f l = inr out <-> Forall2 (fun a b => f a = inr b) l out.
Proof.
  revert out. induction l as [|a l IH]; intros out; cbn [Py.mapM].
  - split; [intros [= <-]; constructor|intros H; inversion H; reflexivity].
  - destruct (f a) as [e|b] eqn:E; cbn [Py.bind].
    + split; [discriminate|intros H; inversion H; congruence].
    + destruct (Py.mapM f l) as [e|bs]; cbn [Py.bind].
      * split; [discriminate|]. intros H. inversion H as [|? b' ? bs' Hb Hl]; subst.
        apply IH in Hl. discriminate.
      * unfold Py.ret. split.
        -- intros [= <-]. constructor; [exact E|]. now apply IH.
        -- intros H. inversion H as [|? b' ? bs' Hb Hl]; subst.
           apply IH in Hl. injection Hl as <-. congruence.
Qed.

Lemma mapM_inl {A B} (f : A -> Py.result B) (l : list A) (e : Py.exn) :
  Py.mapM f l = inl e -> exists a, In a l /\ f a = inl e.
Proof.
  induction l as [|a l IH]; cbn [Py.mapM]; [discriminate|].
  destruct (f a) as [e'|b] eqn:E; cbn [Py.bind].
  - intros [= <-]. exists a. split; [now left|exact E].
  - destruct (Py.mapM f l) as [e'|bs]; cbn [Py.bind]; [|discriminate].
    intros [= <-]. destruct (IH eq_refl) as (a' & Hin & Ha).
    exists a'. split; [now right|exact Ha].
Qed.


Lemma float_of_str_error (s : string) (e : Py.exn) :
  Py.float_of_str s = inl e -> e = Py.ValueError.
Proof. unfold Py.float_of_str. destruct (Py.parse_float s); [discriminate|]. now intros [= <-]. Qed.

(** Appending and stripping *)

Lemma append_assoc (a b c : string) : ((a ++ b) ++ c = a ++ b ++ c)%string.
Proof. induction a as [|x a IH]; cbn; [reflexivity|now rewrite IH]. Qed.

Lemma append_nil_r (a : string) : (a ++ EmptyString)%string = a.
Proof. induction a as [|x a IH]; cbn; [reflexivity|now rewrite IH]. Qed.

Lemma length_append (a b : string) :
  String.length (a ++ b) = (String.length a + String.length b)%nat.
Proof. induction a as [|x a IH]; cbn; [reflexivity|now rewrite IH]. Qed.

Lemma all_chars_app (p : ascii -> bool) (a b : string) :
  Py.all_chars p (a ++ b) <-> Py.all_chars p a /\ Py.all_chars p b.
Proof.
  unfold Py.all_chars. induction a as [|c a IH]; cbn.
  - split; [intros H; split; [constructor|exact H]|intros [_ H]; exact H].
  - split.
    + intros H. inversion H as [|? ? Hc Hr]; subst. apply IH in Hr as [Ha Hb].
      split; [constructor; assumption|assumption].
    + intros [Ha Hb]. inversion Ha as [|? ? Hc Hr]; subst. constructor; [exact Hc|].
      apply IH. now split.
Qed.

Lemma all_chars_impl (p q : ascii -> bool) (s : string) :
  (forall c, p c = true -> q c = true) -> Py.all_chars p s -> Py.all_chars q s.
Proof. intros H. unfold Py.all_chars. apply Forall_impl. exact H. Qed.

Lemma lstrip_with_all (p : ascii -> bool) (s : string) :
  Py.all_chars p s -> Py.lstrip_with p s = EmptyString.
Proof.
  unfold Py.all_chars. induction s as [|c s IH]; cbn; [reflexivity|].
  intros H. inversion H as [|? ? Hc Hr]; subst. rewrite Hc. now apply IH.
Qed.

Lemma lstrip_with_app_all (p : ascii -> bool) (a s : string) :
  Py.all_chars p a -> Py.lstrip_with p (a ++ s) = Py.lstrip_with p s.
Proof.
  unfold Py.all_chars. induction a as [|c a IH]; cbn; intros H; [reflexivity|].
  inversion H as [|? ? Hc Hr]; subst. rewrite Hc. now apply IH.
Qed.

Lemma rstrip_with_all (p : ascii -> bool) (t : string) :
  Py.all_chars p t -> Py.rstrip_with p t = EmptyString.
Proof.
  unfold Py.all_chars. induction t as [|c t IH]; cbn; intros H; [reflexivity|].
  inversion H as [|? ? Hc Hr]; subst. now rewrite (IH Hr), Hc.
Qed.

Lemma rstrip_with_app_all (p : ascii -> bool) (t : string) (a : string) :
  Py.all_chars p t -> Py.rstrip_with p (a ++ t) = Py.rstrip_with p a.
Proof.
  intros Ht. induction a as [|c a IH]; cbn [String.append Py.rstrip_with].
  - now apply rstrip_with_all.
  - now rewrite IH.
Qed.

Lemma rstrip_with_none (p : ascii -> bool) (s : string) :
  Py.all_chars (fun c => negb (p c)) s -> Py.rstrip_with p s = s.
Proof.
  unfold Py.all_chars. induction s as [|c s IH]; cbn; intros H; [reflexivity|].
  inversion H as [|? ? Hc Hr]; subst. rewrite (IH Hr).
  destruct s; [|reflexivity]. apply negb_true_iff in Hc. now rewrite Hc.
Qed.

Lemma rstrip_with_fixed (p : ascii -> bool) (s : string) :
  (forall r c, s = (r ++ String c EmptyString)%string -> p c = false) ->
  Py.rstrip_with p s = s.
Proof.
  induction s as [|x s IH]; intros H; [reflexivity|]. cbn [Py.rstrip_with].
  rewrite IH by (intros r c ->; apply (H (String x r) c); reflexivity).
  destruct s; [|reflexivity]. now rewrite (H EmptyString x eq_refl).
Qed.

Lemma rstrip_char_unique (x : ascii) (c t : string) :
  Py.all_chars (Ascii.eqb x) t ->
  (forall r, c <> (r ++ String x EmptyString)%string) ->
  Py.rstrip_with (Ascii.eqb x) (c ++ t) = c.
Proof.
  intros Ht Hc. rewrite rstrip_with_app_all by exact Ht.
  apply rstrip_with_fixed. intros r y -> .
  destruct (Ascii.eqb_spec x y) as [<-|]; [|reflexivity]. now elim (Hc r).
Qed.

Lemma rstrip_with_head (p : ascii -> bool) (s : string) (c : ascii) (r : string) :
  Py.rstrip_with p s = String c r -> exists r', s = String c r'.
Proof.
  destruct s as [|a s]; cbn [Py.rstrip_with]; [discriminate|].
  destruct (Py.rstrip_with p s).
  - destruct (p a); [discriminate|]. intros [= -> _]. eauto.
  - intros [= -> _]. eauto.
Qed.

Lemma strip_head (s : string) (c : ascii) (r : string) :
  Py.strip s = String c r -> Py.isspace c = false.
Proof.
  unfold Py.strip. intros H. apply rstrip_with_head in H as (r' & Hr).
  destruct (lstrip_with_app Py.isspace s) as (_ & _ & _ & Hh).
  now rewrite Hr in Hh.
Qed.

End PyFacts.

(** ** The numerals that [float] reads *)

Module LiteralFacts.

Import Spec PyFacts.

Lemma take_digits_app (ds : string) : forall (rest : string) (acc n : Z),
  Py.all_chars Py.isdigit ds ->
  match rest with String c _ => Py.isdigit c = false | EmptyString => True end ->
  Py.take_digits (ds ++ rest) acc n
  = (digits_value_from acc ds, n + Z.of_nat (String.length ds), rest).
Proof.
  unfold Py.all_chars, digits_value_from.
  induction ds as [|c ds IH]; intros rest acc n Hd Hr; cbn [String.append].
  - cbn. rewrite Z.add_0_r. destruct rest as [|c r]; [reflexivity|].
    cbn [Py.take_digits]. now rewrite Hr.
  - inversion Hd as [|? ? Hc Hds]; subst. cbn [Py.take_digits]. rewrite Hc.
    rewrite IH by assumption. cbn [list_ascii_of_string fold_left String.length].
    f_equal. f_equal. lia.
Qed.

Lemma take_digits_inv (s : string) : forall (acc n v n' : Z) (r : string),
  Py.take_digits s acc n = (v, n', r) ->
  exists ds, s = (ds ++ r)%string /\ Py.all_chars Py.isdigit ds
             /\ v = digits_value_from acc ds
             /\ n' = n + Z.of_nat (String.length ds)
             /\ match r with String c _ => Py.isdigit c = false | EmptyString => True end.
Proof.
  unfold Py.all_chars, digits_value_from.
  induction s as [|c s IH]; intros acc n v n' r; cbn [Py.take_digits].
  - intros [= <- <- <-]. exists EmptyString. cbn. repeat split; try constructor. lia.
  - destruct (Py.isdigit c) eqn:Hc.
    + intros H. apply IH in H as (ds & -> & Hd & -> & -> & Hr).
      exists (String c ds). cbn [String.append list_ascii_of_string fold_left String.length].
      repeat split; try assumption; [now constructor|lia].
    + intros [= <- <- <-]. exists EmptyString. cbn. repeat split; try constructor; [lia|exact Hc].
Qed.

Lemma digits_value_app (a b : string) :
  digits_value (a ++ b) = digits_value_from (digits_value a) b.
Proof.
  unfold digits_value, digits_value_from.
  generalize 0. induction a as [|x a IH]; intros acc; cbn; [reflexivity|apply IH].
Qed.

Lemma lower_is_e (c : ascii) :
  Ascii.eqb (Py.lower c) "e" = true <-> c = "e"%char \/ c = "E"%char.
Proof.
  split.
  - destruct c as [[] [] [] [] [] [] [] []]; cbv; intros H; try discriminate H; auto.
  - intros [-> | ->]; reflexivity.
Qed.

Lemma digit_or_dot_facts (c : ascii) :
  Py.isdigit c = true \/ c = "."%char ->
  Ascii.eqb c "-" = false /\ Ascii.eqb c "+" = false
  /\ Ascii.eqb (Py.lower c) "i" = false /\ Ascii.eqb (Py.lower c) "n" = false.
Proof.
  intros [H | ->]; [|repeat split].
  revert H. destruct c as [[] [] [] [] [] [] [] []]; cbv; intros H; try discriminate H;
    repeat split.
Qed.

Lemma lower_letter_not_sign (c x : ascii) :
  Py.lower c = x -> x = "i"%char \/ x = "n"%char ->
  Ascii.eqb c "-" = false /\ Ascii.eqb c "+" = false.
Proof.
  intros <- H. revert H.
  destruct c as [[] [] [] [] [] [] [] []]; cbv; intros [H|H]; try discriminate H;
    split; reflexivity.
Qed.

Lemma take_sign_cases (s : string) :
  Py.take_sign s
  = match s with
    | String c s' =>
        if Ascii.eqb c "-" then (true, s')
        else if Ascii.eqb c "+" then (false, s') else (false, s)
    | EmptyString => (false, s)
    end.
Proof.
  destruct s as [|c s']; [reflexivity|].
  destruct c as [[] [] [] [] [] [] [] []]; reflexivity.
Qed.

Lemma take_sign_inv (s body : string) (neg : bool) :
  Py.take_sign s = (neg, body) -> exists sg, s = (sg ++ body)%string /\ sign sg neg.
Proof.
  rewrite take_sign_cases. destruct s as [|c s'].
  - intros [= <- <-]. exists EmptyString. split; [reflexivity|constructor].
  - destruct (Ascii.eqb_spec c "-") as [->|_].
    + intros [= <- <-]. exists "-"%string. split; [reflexivity|constructor].
    + destruct (Ascii.eqb_spec c "+") as [->|_]; intros [= <- <-].
      * exists "+"%string. split; [reflexivity|constructor].
      * exists EmptyString. split; [reflexivity|constructor].
Qed.

Lemma take_sign_app (sg body : string) (neg : bool) :
  sign sg neg ->
  match body with
  | String c _ => Ascii.eqb c "-" = false /\ Ascii.eqb c "+" = false
  | EmptyString => True
  end ->
  Py.take_sign (sg ++ body) = (neg, body).
Proof.
  rewrite take_sign_cases. intros [ | | ] Hb; cbn [String.append]; try reflexivity.
  destruct body as [|c r]; [reflexivity|]. destruct Hb as [-> ->]. reflexivity.
Qed.

Lemma digits_head (ds : string) :
  Py.all_chars Py.isdigit ds ->
  match ds with
  | String c _ => Ascii.eqb c "-" = false /\ Ascii.eqb c "+" = false
  | EmptyString => True
  end.
Proof.
  destruct ds as [|c r]; [trivial|]. intros H. inversion H as [|? ? Hc _]; subst.
  destruct (digit_or_dot_facts c (or_introl Hc)) as (H1 & H2 & _). now split.
Qed.

Lemma parse_exponent_spec (s : string) (E : Z) :
  Py.parse_exponent s = Some E <-> exponent s E.
Proof.
  split.
  - unfold Py.parse_exponent. destruct s as [|c s']; [intros [= <-]; constructor|].
    destruct (Ascii.eqb (Py.lower c) "e") eqn:Hc; [|discriminate].
    apply lower_is_e in Hc.
    destruct (Py.take_sign s') as [neg s1] eqn:Hs.
    destruct (Py.take_digits s1 0 0) as [[v n] rest] eqn:Hd.
    destruct rest; [|discriminate].
    destruct (Z.eqb_spec n 0) as [|Hn]; [discriminate|]. intros [= <-].
    apply take_sign_inv in Hs as (sg & -> & Hsg).
    apply take_digits_inv in Hd as (ds & -> & Hds & -> & -> & _).
    rewrite append_nil_r.
    apply exp_some; try assumption. intros ->. cbn in Hn. lia.
  - intros [ |c sg ds neg Hc Hsg Hds Hne]; [reflexivity|].
    unfold Py.parse_exponent. rewrite (proj2 (lower_is_e c) Hc).
    rewrite (take_sign_app sg ds neg Hsg (digits_head ds Hds)).
    rewrite <- (append_nil_r ds) at 1.
    rewrite (take_digits_app ds EmptyString 0 0 Hds I).
    replace (0 + Z.of_nat (String.length ds) =? 0) with false; [reflexivity|].
    symmetry. apply Z.eqb_neq. destruct ds; [congruence|cbn; lia].
Qed.

Lemma dot_match {A} (r1 : string) (f : string -> A) (d : A) :
  match r1 with
  | String "." r => f r
  | _ => d
  end
  = match r1 with
    | String c r => if Ascii.eqb c "." then f r else d
    | EmptyString => d
    end.
Proof.
  destruct r1 as [|c r]; [reflexivity|].
  destruct c as [[] [] [] [] [] [] [] []]; reflexivity.
Qed.

Lemma exponent_head (ex : string) (E : Z) :
  exponent ex E ->
  match ex with
  | String c _ => Py.isdigit c = false /\ Ascii.eqb c "." = false
  | EmptyString => True
  end.
Proof. intros [ |c sg ds neg [-> | ->] _ _ _]; [trivial| |]; split; reflexivity. Qed.

Lemma parse_decimal_spec (body : string) (D k : Z) :
  Py.parse_decimal body = Some (D, k)
  <-> exists m ex nf E, body = (m ++ ex)%string /\ mantissa m D nf
                        /\ exponent ex E /\ k = E - nf.
Proof.
  unfold Py.parse_decimal. split.
  - destruct (Py.take_digits body 0 0) as [[ip ni] r1] eqn:H1.
    apply take_digits_inv in H1 as (ipd & -> & Hipd & -> & -> & Hr1).
    rewrite dot_match. destruct r1 as [|c r].
    + destruct (Z.eqb_spec (0 + Z.of_nat (String.length ipd) + 0) 0) as [|Hn];
        [discriminate|].
      cbn [Py.parse_exponent option_map]. intros [= <- <-].
      exists ipd, EmptyString, 0, 0.
      split; [now rewrite append_nil_r|]. split; [|split; [constructor|reflexivity]].
      constructor; [assumption|]. intros ->. cbn in Hn. lia.
    + destruct (Ascii.eqb_spec c ".") as [->|Hc].
      * destruct (Py.take_digits r (digits_value_from 0 ipd) 0) as [[m nf] r2] eqn:H2.
        apply take_digits_inv in H2 as (fpd & -> & Hfpd & -> & -> & Hr2).
        destruct (Z.eqb_spec (0 + Z.of_nat (String.length ipd)
                              + (0 + Z.of_nat (String.length fpd))) 0) as [|Hn];
          [discriminate|].
        destruct (Py.parse_exponent r2) as [e|] eqn:He; [|discriminate].
        cbn [option_map]. intros [= <- <-]. apply parse_exponent_spec in He.
        exists (ipd ++ String "." fpd)%string, r2, (Z.of_nat (String.length fpd)), e.
        split; [now rewrite append_assoc|]. split; [|split; [exact He|lia]].
        fold (digits_value ipd). rewrite <- digits_value_app.
        apply man_point; try assumption.
        intros E. apply (f_equal String.length) in E. rewrite length_append in E.
        cbn in E. lia.
      * destruct (Z.eqb_spec (0 + Z.of_nat (String.length ipd) + 0) 0) as [|Hn];
          [discriminate|].
        destruct (Py.parse_exponent (String c r)) as [e|] eqn:He; [|discriminate].
        cbn [option_map]. intros [= <- <-]. apply parse_exponent_spec in He.
        exists ipd, (String c r), 0, e.
        split; [reflexivity|]. split; [|split; [exact He|lia]].
        constructor; [assumption|]. intros ->. cbn in Hn. lia.
  - intros (m & ex & nf & E & -> & Hm & Hex & ->).
    pose proof (exponent_head ex E Hex) as Hh.
    apply parse_exponent_spec in Hex.
    destruct Hm as [ip Hip Hne|ip fp Hip Hfp Hne].
    + rewrite (take_digits_app ip ex 0 0 Hip) by (destruct ex; [trivial|apply Hh]).
      rewrite dot_match.
      replace (match ex with
               | EmptyString => (digits_value_from 0 ip, 0, ex)
               | String c r =>
                   if Ascii.eqb c "." then Py.take_digits r (digits_value_from 0 ip) 0
                   else (digits_value_from 0 ip, 0, ex)
               end) with (digits_value_from 0 ip, 0, ex)
        by (destruct ex as [|c r]; [reflexivity|]; destruct Hh as [_ ->]; reflexivity).
      replace (0 + Z.of_nat (String.length ip) + 0 =? 0) with false
        by (symmetry; apply Z.eqb_neq; destruct ip; [congruence|cbn; lia]).
      rewrite Hex. reflexivity.
    + rewrite append_assoc.
      rewrite (take_digits_app ip (String "." fp ++ ex) 0 0 Hip eq_refl).
      rewrite dot_match. cbn [String.append]. change (Ascii.eqb "." ".") with true.
      cbv iota.
      rewrite (take_digits_app fp ex (digits_value_from 0 ip) 0 Hfp)
        by (destruct ex; [trivial|apply Hh]).
      replace (0 + Z.of_nat (String.length ip) + (0 + Z.of_nat (String.length fp)) =? 0)
        with false.
      * rewrite Hex. cbn [option_map]. now rewrite digits_value_app.
      * symmetry. apply Z.eqb_neq. intros E0.
        apply Hne. destruct ip, fp; cbn in E0; try lia. reflexivity.
Qed.

Lemma lower_str_head (w : string) (x : ascii) (r : string) :
  Py.lower_str w = String x r -> exists c w', w = String c w' /\ Py.lower c = x.
Proof. destruct w as [|c w']; cbn; [discriminate|]. intros [= <- _]. eauto. Qed.

Lemma mantissa_head (m : string) (D nf : Z) :
  mantissa m D nf ->
  exists c r, m = String c r /\ (Py.isdigit c = true \/ c = "."%char).
Proof.
  intros [ip Hip Hne|ip fp Hip Hfp Hne].
  - destruct ip as [|c r]; [congruence|]. inversion Hip; subst. eauto.
  - destruct ip as [|c r]; cbn [String.append]; [eauto|]. inversion Hip; subst. eauto.
Qed.

(** The numeral after its digit separators are dropped *)
Lemma literal_spec (t : string) (X : spec_float) :
  (let (neg, body) := Py.take_sign t in
   let low := Py.lower_str body in
   if String.eqb low "inf" || String.eqb low "infinity" then Some (S754_infinity neg)
   else if String.eqb low "nan" then Some S754_nan
   else option_map (fun '(m, k) => Py.decimal_to_SF neg m k) (Py.parse_decimal body))
  = Some X
  <-> literal t X.
Proof.
  split.
  - destruct (Py.take_sign t) as [neg body] eqn:Hs.
    apply take_sign_inv in Hs as (sg & -> & Hsg). cbv zeta.
    destruct (String.eqb_spec (Py.lower_str body) "inf") as [Hi|_]; cbn [orb].
    { intros [= <-]. apply lit_inf; auto. }
    destruct (String.eqb_spec (Py.lower_str body) "infinity") as [Hi|_].
    { intros [= <-]. apply lit_inf; auto. }
    destruct (String.eqb_spec (Py.lower_str body) "nan") as [Hn|_].
    { intros [= <-]. now apply lit_nan with (neg := neg). }
    destruct (Py.parse_decimal body) as [[D k]|] eqn:Hd; [|discriminate].
    cbn [option_map]. intros [= <-].
    apply parse_decimal_spec in Hd as (m & ex & nf & E & -> & Hm & Hex & ->).
    now apply lit_dec.
  - intros [sg w neg Hsg Hw|sg w neg Hsg Hw|sg m ex neg D nf E Hsg Hm Hex].
    + assert (Hh : exists c w', w = String c w' /\ Py.lower c = "i"%char)
        by (destruct Hw as [Hw|Hw]; apply lower_str_head in Hw; exact Hw).
      destruct Hh as (c & w' & -> & Hc).
      rewrite (take_sign_app sg (String c w') neg Hsg
                 (lower_letter_not_sign c "i" Hc (or_introl eq_refl))).
      cbv zeta. destruct Hw as [-> | ->]; reflexivity.
    + destruct (lower_str_head _ _ _ Hw) as (c & w' & -> & Hc).
      rewrite (take_sign_app sg (String c w') neg Hsg
                 (lower_letter_not_sign c "n" Hc (or_intror eq_refl))).
      cbv zeta. rewrite Hw. reflexivity.
    + destruct (mantissa_head m D nf Hm) as (c & r & Em & Hc).
      destruct (digit_or_dot_facts c Hc) as (H1 & H2 & Hi & Hn).
      assert (Hsign : Py.take_sign (sg ++ m ++ ex) = (neg, (m ++ ex)%string)).
      { apply take_sign_app; [exact Hsg|]. rewrite Em. cbn [String.append]. now split. }
      rewrite Hsign. cbv zeta.
      assert (Hlow : exists l, Py.lower_str (m ++ ex) = String (Py.lower c) l)
        by (rewrite Em; cbn; eauto).
      destruct Hlow as (l & ->). cbn [String.eqb]. rewrite Hi, Hn. cbn [andb orb].
      assert (Hd : Py.parse_decimal (m ++ ex) = Some (D, E - nf)).
      { apply parse_decimal_spec. exists m, ex, nf, E. auto. }
      rewrite Hd. reflexivity.
Qed.

Lemma digit_not_underscore (c : ascii) : Py.isdigit c = true -> Ascii.eqb c "_" = false.
Proof.
  destruct c as [[] [] [] [] [] [] [] []]; cbv; intros H; try discriminate H; reflexivity.
Qed.

Lemma remove_underscores_spec (s : string) : forall (prev : ascii) (t : string),
  Py.remove_underscores prev s = Some t
  <-> t = drop_underscores s
      /\ (Ascii.eqb prev "_" = true ->
          match s with String d _ => Py.isdigit d = true | EmptyString => False end)
      /\ (forall a b : string, s = (a ++ String "_" b)%string ->
            (exists a' c, String prev a = (a' ++ String c EmptyString)%string
                          /\ Py.isdigit c = true)
            /\ (exists d b', b = String d b' /\ Py.isdigit d = true)).
Proof.
  induction s as [|c s IH]; intros prev t; cbn [Py.remove_underscores drop_underscores].
  - destruct (Ascii.eqb prev "_") eqn:Hp; split.
    + discriminate.
    + intros (_ & H & _). destruct (H eq_refl).
    + intros [= <-]. split; [reflexivity|]. split; [discriminate|].
      intros a b E. destruct a; discriminate E.
    + intros (-> & _). reflexivity.
  - destruct (Ascii.eqb_spec c "_") as [->|Hc].
    + destruct (Py.isdigit prev) eqn:Hd.
      * rewrite IH. split.
        -- intros (-> & Hs & HQ). split; [reflexivity|]. split.
           ++ rewrite (digit_not_underscore prev Hd). discriminate.
           ++ intros a b E. destruct a as [|x a]; cbn [String.append] in E.
              ** injection E as <-. split.
                 --- exists EmptyString, prev. split; [reflexivity|exact Hd].
                 --- specialize (Hs eq_refl). destruct s as [|d s']; [destruct Hs|eauto].
              ** injection E as <- E. destruct (HQ a b E) as [(a' & c & Ea & Hc) Hb].
                 split; [|exact Hb]. exists (String prev a'), c. cbn [String.append].
                 now rewrite <- Ea.
        -- intros (-> & _ & HQ). split; [reflexivity|]. split.
           ++ intros _. destruct (HQ EmptyString s eq_refl) as [_ (d & b' & -> & Hb)].
              exact Hb.
           ++ intros a b E.
              destruct (HQ (String "_" a) b) as [(a' & c & Ea & Hc) Hb];
                [cbn [String.append]; now rewrite E|].
              split; [|exact Hb]. destruct a' as [|x a']; cbn [String.append] in Ea.
              ** discriminate Ea.
              ** injection Ea as _ Ea. eauto.
      * split; [discriminate|]. intros (_ & _ & HQ).
        destruct (HQ EmptyString s eq_refl) as [(a' & c & Ea & Hc) _].
        destruct a' as [|x a']; cbn [String.append] in Ea.
        -- injection Ea as ->. congruence.
        -- injection Ea as _ Ea. destruct a'; discriminate Ea.
    + destruct (Ascii.eqb prev "_" && negb (Py.isdigit c)) eqn:Hcond.
      * split; [discriminate|]. intros (_ & Hs & _).
        apply andb_true_iff in Hcond as [Hp Hn]. rewrite (Hs Hp) in Hn. discriminate.
      * assert (Hce : Ascii.eqb c "_" = false) by (now apply Ascii.eqb_neq).
        destruct (Py.remove_underscores c s) as [t'|] eqn:Hr; cbn [option_map].
        -- apply IH in Hr as (-> & _ & HQ). split.
           ++ intros [= <-]. split; [reflexivity|]. split.
              ** intros Hp. rewrite Hp in Hcond. cbn in Hcond.
                 now apply negb_false_iff in Hcond.
              ** intros a b E. destruct a as [|x a]; cbn [String.append] in E.
                 --- injection E as -> _. congruence.
                 --- injection E as <- E. destruct (HQ a b E) as [(a' & c0 & Ea & Hc0) Hb].
                     split; [|exact Hb]. exists (String prev a'), c0. cbn [String.append].
                     now rewrite <- Ea.
           ++ intros (-> & _). reflexivity.
        -- split; [discriminate|]. intros (-> & _ & HQ).
           assert (Hr' : Py.remove_underscores c s = Some (drop_underscores s)).
           { apply IH. split; [reflexivity|]. split; [rewrite Hce; discriminate|].
             intros a b E.
             destruct (HQ (String c a) b) as [(a' & c0 & Ea & Hc0) Hb];
               [cbn [String.append]; now rewrite E|].
             split; [|exact Hb]. destruct a' as [|x a']; cbn [String.append] in Ea.
             ** discriminate Ea.
             ** injection Ea as _ Ea. eauto. }
           congruence.
Qed.

Lemma remove_underscores_top (s t : string) :
  Py.remove_underscores "000" s = Some t
  <-> separators_ok s /\ t = drop_underscores s.
Proof.
  rewrite remove_underscores_spec. unfold separators_ok. split.
  - intros (-> & _ & HQ). split; [|reflexivity]. intros a b E.
    destruct (HQ a b E) as [(a' & c & Ea & Hc) Hb]. split; [|exact Hb].
    destruct a' as [|x a']; cbn [String.append] in Ea.
    + injection Ea as <- _. discriminate Hc.
    + injection Ea as _ Ea. eauto.
  - intros (HQ & ->). split; [reflexivity|]. split; [discriminate|].
    intros a b E. destruct (HQ a b E) as [(a' & c & -> & Hc) Hb]. split; [|exact Hb].
    exists (String "000" a'), c. split; [reflexivity|exact Hc].
Qed.

(** [float] on a string *)
Lemma parse_float_spec (s : string) (X : spec_float) :
  Py.parse_float s = Some X
  <-> float_literal (Py.rstrip_with Py.float_space (Py.lstrip_with Py.float_space s)) X.
Proof.
  unfold Py.parse_float, float_literal.
  set (u := Py.rstrip_with Py.float_space (Py.lstrip_with Py.float_space s)).
  split.
  - destruct (Py.remove_underscores "000" u) as [t|] eqn:Hr; [|discriminate].
    apply remove_underscores_top in Hr as [Hok ->]. intros H.
    split; [exact Hok|]. now apply literal_spec.
  - intros [Hok Hl].
    rewrite (proj2 (remove_underscores_top u _) (conj Hok eq_refl)).
    now apply literal_spec.
Qed.

Lemma float_space_isspace (c : ascii) : Py.float_space c = true -> Py.isspace c = true.
Proof.
  destruct c as [[] [] [] [] [] [] [] []]; cbv; intros H; try discriminate H; reflexivity.
Qed.

Lemma float_strip_stripped (s : string) :
  Py.rstrip_with Py.float_space (Py.lstrip_with Py.float_space (Py.strip s))
  = Py.strip s.
Proof.
  assert (Hl : Py.lstrip_with Py.float_space (Py.strip s) = Py.strip s).
  { destruct (Py.strip s) as [|c r] eqn:E; [reflexivity|]. cbn [Py.lstrip_with].
    pose proof (strip_head s c r E) as Hc.
    destruct (Py.float_space c) eqn:Hf; [|reflexivity].
    apply float_space_isspace in Hf. congruence. }
  rewrite Hl. apply rstrip_with_fixed. intros r c E.
  destruct (Py.float_space c) eqn:Hf; [|reflexivity].
  apply float_space_isspace in Hf.
  unfold Py.strip in E. apply rstrip_with_last in E. congruence.
Qed.


End LiteralFacts.

(** ** The script *)

Module AppFacts.

Import B64 B64Facts PyFacts LiteralFacts.

Lemma astype_toward_zero (x : float) : Np.astype_int16 x = Spec.toward_zero x.
Proof.
  unfold Np.astype_int16, Np.trunc, Spec.toward_zero, Spec.exact, Spec.in_int16.
  destruct (Prim2SF x) as [s|s| |s m e]; try reflexivity.
  destruct (Z.leb_spec 0 e) as [He|He].
  - rewrite Z.max_l, Z.max_r by lia. change (2 ^ 0) with 1.
    rewrite Z.quot_1_r. reflexivity.
  - rewrite Z.max_r, Z.max_l by lia. change (2 ^ 0) with 1. rewrite Z.mul_1_r.
    assert (Hp : 0 < 2 ^ (- e)) by (apply Z.pow_pos_nonneg; lia).
    replace (Z.quot (cond_Zopp s (Zpos m)) (2 ^ (- e)))
      with (cond_Zopp s (Zpos m / 2 ^ (- e))); [reflexivity|].
    destruct s; cbn [cond_Zopp].
    + rewrite Z.quot_opp_l by lia. now rewrite Z.quot_div_nonneg by lia.
    + now rewrite Z.quot_div_nonneg by lia.
Qed.

Lemma to_int16_toward_zero (final : list (float * float)) :
  App.to_int16 final
  = map (fun '(l, r) => (Spec.toward_zero (l * 32767)%float,
                         Spec.toward_zero (r * 32767)%float)) final
  /\ map fst (App.to_int16 final)
     = map (fun l => Spec.toward_zero (l * 32767)%float) (map fst final)
  /\ map snd (App.to_int16 final)
     = map (fun r => Spec.toward_zero (r * 32767)%float) (map snd final).
Proof.
  unfold App.to_int16. repeat split.
  - apply map_ext. intros [l r]. now rewrite !astype_toward_zero.
  - rewrite !map_map. apply map_ext. intros [l r]. cbn. apply astype_toward_zero.
  - rewrite !map_map. apply map_ext. intros [l r]. cbn. apply astype_toward_zero.
Qed.

(** Lists *)

Lemma count_from_length (n : nat) : forall k, List.length (Py.count_from k n) = n.
Proof. induction n as [|n IH]; intros k; cbn; [reflexivity|now rewrite IH]. Qed.

Lemma combine_map_same {A B C} (f : A -> B) (g : A -> C) (l : list A) :
  combine (map f l) (map g l) = map (fun x => (f x, g x)) l.
Proof. induction l as [|a l IH]; cbn; [reflexivity|now rewrite IH]. Qed.

Lemma map_fst_combine_eq {A B} (a : list A) : forall b : list B,
  List.length a = List.length b -> map fst (combine a b) = a.
Proof.
  induction a as [|x a IH]; intros [|y b] H; cbn in *; try discriminate; [reflexivity|].
  f_equal. apply IH. now injection H.
Qed.

Lemma map_snd_combine_eq {A B} (a : list A) : forall b : list B,
  List.length a = List.length b -> map snd (combine a b) = b.
Proof.
  induction a as [|x a IH]; intros [|y b] H; cbn in *; try discriminate; [reflexivity|].
  f_equal. apply IH. now injection H.
Qed.

Lemma time_grid_length (sr d : Z) : List.length (App.time_grid sr d) = Z.to_nat (sr * d).
Proof.
  unfold App.time_grid, Np.linspace, Np.arange, Py.range.
  rewrite !length_map, count_from_length. f_equal. lia.
Qed.

Section Engine.

Variable np_sin : float -> float.

Lemma tone_length (f : float) (t : list float) : List.length (App.tone np_sin f t) = List.length t.
Proof. apply length_map. Qed.

Lemma mix_fold (base : float) (offsets : list float) (t : list float) :
  forall g : float -> float,
  fold_left (fun mixed off => Np.add mixed (App.tone np_sin (base + off)%float t))
            offsets (map g t)
  = map (fun tk =>
           fold_left (fun acc off =>
                        (acc + np_sin (Py.float_of_int 2 * Np.pi * (base + off) * tk))%float)
                     offsets (g tk)) t.
Proof.
  induction offsets as [|off offsets IH]; intros g; cbn [fold_left]; [reflexivity|].
  unfold Np.add at 2, App.tone at 2. rewrite combine_map_same, map_map.
  apply (IH (fun tk => (g tk + np_sin (Py.float_of_int 2 * Np.pi * (base + off) * tk))%float)).
Qed.

(** The mixed buffer is the sum of the tones at each instant. *)
Lemma mix_pointwise (base : float) (offsets t : list float) :
  App.mix np_sin base offsets t = map (App.mix_at np_sin base offsets) t.
Proof. unfold App.mix, Np.zeros_like. apply mix_fold. Qed.

Lemma assemble_channels (incl : bool) (base : float) (sig t : list float) :
  List.length sig = List.length t ->
  map fst (App.assemble np_sin incl base sig t) = sig /\
  map snd (App.assemble np_sin incl base sig t)
  = (if incl then App.tone np_sin base t else sig).
Proof.
  intros H. unfold App.assemble, Np.vstack_T. destruct incl.
  - split; [apply map_fst_combine_eq|apply map_snd_combine_eq]; now rewrite tone_length.
  - split; [apply map_fst_combine_eq|apply map_snd_combine_eq]; reflexivity.
Qed.

Lemma normalize_cases (mixed : list float) :
  match mixed with
  | [] => App.normalize mixed = inl Py.ValueError
  | x :: l =>
      App.normalize mixed
      = inr (map (fun y => (y / fold_left Np.maximum (map abs l) (abs x))%float) mixed)
  end.
Proof. destruct mixed; reflexivity. Qed.

Lemma normalize_length (mixed out : list float) :
  App.normalize mixed = inr out -> List.length out = List.length mixed.
Proof.
  pose proof (normalize_cases mixed) as H. destruct mixed; rewrite H; [discriminate|].
  intros [= <-]. cbn [map List.length]. now rewrite length_map.
Qed.

Lemma channels (base offset : float) (sr d : Z) (incl : bool)
    (offsets : list float) :
  let t := App.time_grid sr d in
  let primary := App.tone np_sin (base + offset)%float t in
  let final := App.assemble np_sin incl base primary t in
  App.frames (App.create_audio_segment np_sin base offset sr d incl) = App.to_int16 final
  /\ map fst final = primary
  /\ map snd final = (if incl then App.tone np_sin base t else primary)
  /\ match App.normalize (App.mix np_sin base offsets t) with
     | inr mixed =>
         exists final',
           App.sweep_final np_sin base offsets sr d incl = inr final'
           /\ map fst final' = mixed
           /\ map snd final' = (if incl then App.tone np_sin base t else mixed)
     | inl e => App.sweep_final np_sin base offsets sr d incl = inl e
     end.
Proof.
  intros t primary final.
  destruct (assemble_channels incl base primary t (tone_length _ _)) as [Hl Hr].
  split; [reflexivity|]. split; [exact Hl|]. split; [exact Hr|].
  unfold App.sweep_final. fold t.
  destruct (App.normalize (App.mix np_sin base offsets t)) as [e|mixed] eqn:Hn;
    cbn [Py.bind]; [reflexivity|].
  exists (App.assemble np_sin incl base mixed t). split; [reflexivity|].
  apply assemble_channels.
  rewrite (normalize_length _ _ Hn), mix_pointwise. apply length_map.
Qed.

Lemma range_cons (a b : Z) : a < b -> Py.range a b = a :: Py.range (a + 1) b.
Proof.
  intros H. unfold Py.range.
  replace (Z.to_nat (b - a)) with (S (Z.to_nat (b - (a + 1)))) by lia.
  reflexivity.
Qed.

(** The time grid, instant by instant. *)
Lemma time_grid_points (sr d : Z) :
  App.time_grid sr d = map (App.grid_point sr d) (Py.range 0 (sr * d)).
Proof.
  unfold App.time_grid, Np.linspace, Np.arange. rewrite map_map. reflexivity.
Qed.

Lemma time_grid_cons (sr d : Z) :
  0 < sr * d ->
  App.time_grid sr d
  = App.grid_point sr d 0 :: map (App.grid_point sr d) (Py.range 1 (sr * d)).
Proof. intros H. rewrite time_grid_points, range_cons by exact H. reflexivity. Qed.

Lemma Prim2SF_nan : Prim2SF nan = S754_nan.
Proof. reflexivity. Qed.

Lemma is_nan_eq (x : float) : is_nan x = true -> x = nan.
Proof.
  intros H. apply Prim2SF_inj. rewrite Prim2SF_nan.
  destruct (Prim2SF x) eqn:E; try reflexivity; exfalso;
    assert (Hn : is_nan x = false) by (apply is_nan_false; rewrite E; discriminate);
    congruence.
Qed.

Lemma div_nan_r (x : float) : (x / nan)%float = nan.
Proof.
  apply Prim2SF_inj. rewrite div_spec, Prim2SF_nan. unfold SF64div.
  now destruct (Prim2SF x).
Qed.

Lemma fold_maximum_nan (l : list float) : fold_left Np.maximum l nan = nan.
Proof. induction l as [|b l IH]; cbn [fold_left]; [reflexivity|]. unfold Np.maximum at 2.
  change (is_nan nan) with true. now rewrite orb_true_r. Qed.

Lemma fold_maximum_const (c : float) (l : list float) :
  Np.maximum c c = c -> fold_left Np.maximum (map (fun _ => c) l) c = c.
Proof.
  intros H. induction l as [|b l IH]; cbn [fold_left map]; [reflexivity|].
  now rewrite H.
Qed.

(** With no offset the mix is zero everywhere, its peak is zero, and the
    division leaves NaN everywhere: no exception is raised. *)
Lemma sweep_final_empty (base : float) (sr d : Z) (incl : bool) :
  0 < sr * d ->
  exists final,
    App.sweep_final np_sin base [] sr d incl = inr final
    /\ List.length final = Z.to_nat (sr * d)
    /\ map fst final = repeat nan (Z.to_nat (sr * d))
    /\ map fst (App.to_int16 final) = repeat None (Z.to_nat (sr * d)).
Proof.
  intros Hn.
  pose proof (channels base base sr d incl []) as H.
  cbv zeta in H. destruct H as (_ & _ & _ & H).
  pose proof (time_grid_length sr d) as Hlen.
  assert (Hnorm : App.normalize (App.mix np_sin base [] (App.time_grid sr d))
                  = inr (map (fun _ => nan) (App.time_grid sr d))).
  { unfold App.mix. cbn [fold_left]. unfold Np.zeros_like.
    rewrite (time_grid_cons sr d Hn). cbn [map]. unfold App.normalize, Np.abs. cbn [map Np.max].
    rewrite map_map. unfold Py.ret, Py.bind.
    change (abs 0) with 0%float.
    rewrite (fold_maximum_const 0%float) by reflexivity.
    f_equal. cbn [map]. f_equal. rewrite map_map. reflexivity. }
  rewrite Hnorm in H. destruct H as (final & Hf & Hl & _).
  assert (Hrep : map (fun _ : float => nan) (App.time_grid sr d) = repeat nan (Z.to_nat (sr * d))).
  { rewrite <- Hlen. generalize (App.time_grid sr d). intros l.
    induction l; cbn; [reflexivity|now f_equal]. }
  exists final. split; [exact Hf|]. rewrite Hrep in Hl.
  assert (Hlf : List.length final = Z.to_nat (sr * d)).
  { rewrite <- (length_map fst), Hl. apply repeat_length. }
  split; [exact Hlf|]. split; [exact Hl|].
  destruct (to_int16_toward_zero final) as (_ & Hq & _).
  rewrite Hq, Hl. generalize (Z.to_nat (sr * d)). intros n.
  induction n; cbn [repeat map]; [reflexivity|]. now rewrite IHn.
Qed.

(** When the peak of the mix is a nonzero number, the sweep divides the
    mix by it and the left channel has peak one. *)
Lemma sweep_unit_peak (base : float) (offsets : list float) (sr d : Z) (incl : bool)
    (peak : float) :
  Np.max (Np.abs (App.mix np_sin base offsets (App.time_grid sr d))) = inr peak ->
  is_finite peak = true -> is_zero peak = false ->
  exists final,
    App.sweep_final np_sin base offsets sr d incl = inr final
    /\ map fst final
       = map (fun x => (x / peak)%float) (App.mix np_sin base offsets (App.time_grid sr d))
    /\ Np.max (Np.abs (map fst final)) = inr 1%float.
Proof.
  intros Hmax Hf Hz.
  pose proof (channels base base sr d incl offsets) as H. cbv zeta in H.
  destruct H as (_ & _ & _ & H).
  unfold App.normalize in H. rewrite Hmax in H. cbn [Py.bind] in H. unfold Py.ret in H.
  destruct H as (final & Hfin & Hl & _).
  exists final. split; [exact Hfin|]. split; [exact Hl|].
  rewrite Hl. now apply normalize_peak.
Qed.

(** A NaN at the first instant of the mix makes the peak NaN, and with it
    every sample of the left channel. *)
Lemma sweep_nan_head (base : float) (offsets : list float) (sr d : Z) (incl : bool) :
  0 < sr * d ->
  is_nan (App.mix_at np_sin base offsets (App.grid_point sr d 0)) = true ->
  exists final,
    App.sweep_final np_sin base offsets sr d incl = inr final
    /\ Np.max (Np.abs (map fst final)) = inr nan.
Proof.
  intros Hn Hnan. apply is_nan_eq in Hnan.
  pose proof (channels base base sr d incl offsets) as H. cbv zeta in H.
  destruct H as (_ & _ & _ & H).
  rewrite mix_pointwise, (time_grid_cons sr d Hn) in H. cbn [map] in H.
  rewrite Hnan in H. unfold App.normalize, Np.abs in H. cbn [map Np.max] in H.
  change (abs nan) with nan in H. rewrite fold_maximum_nan in H.
  cbn [Py.bind] in H. unfold Py.ret in H. cbn [map] in H.
  destruct H as (final & Hfin & Hl & _).
  exists final. split; [exact Hfin|].
  rewrite Hl. unfold Np.abs. cbn [map Np.max]. rewrite div_nan_r.
  change (abs nan) with nan. now rewrite fold_maximum_nan.
Qed.

Lemma count_from_nth (n : nat) : forall (a : Z) (k : nat) (dflt : Z),
  (k < n)%nat -> nth k (Py.count_from a n) dflt = a + Z.of_nat k.
Proof.
  induction n as [|n IH]; intros a k dflt Hk; [lia|].
  destruct k as [|k]; cbn [Py.count_from nth]; [lia|].
  rewrite IH by lia. lia.
Qed.

Lemma count_from_In (n : nat) : forall a k : Z,
  a <= k < a + Z.of_nat n -> In k (Py.count_from a n).
Proof.
  induction n as [|n IH]; intros a k Hk; [lia|]. cbn [Py.count_from In].
  destruct (Z.eq_dec a k); [now left|right]. apply IH. lia.
Qed.

Lemma range_In (a b k : Z) : a <= k < b -> In k (Py.range a b).
Proof. intros H. unfold Py.range. apply count_from_In. lia. Qed.

(** The tone, instant by instant. *)
Lemma tone_points (f : float) (sr d : Z) :
  App.tone np_sin f (App.time_grid sr d)
  = map (fun k => np_sin (Py.float_of_int 2 * Np.pi * f * App.grid_point sr d k)%float)
        (Py.range 0 (sr * d)).
Proof. unfold App.tone. rewrite time_grid_points, map_map. reflexivity. Qed.

Lemma tone_nth (f : float) (sr d k : Z) (dflt : float) :
  0 <= k < sr * d ->
  nth (Z.to_nat k) (App.tone np_sin f (App.time_grid sr d)) dflt
  = np_sin (Py.float_of_int 2 * Np.pi * f * App.grid_point sr d k)%float.
Proof.
  intros Hk. rewrite tone_points.
  rewrite (nth_indep _ dflt
             (np_sin (Py.float_of_int 2 * Np.pi * f * App.grid_point sr d 0)%float))
    by (rewrite length_map; unfold Py.range; rewrite count_from_length; lia).
  rewrite (map_nth (fun k => np_sin (Py.float_of_int 2 * Np.pi * f * App.grid_point sr d k)%float)).
  unfold Py.range. rewrite count_from_nth by lia. f_equal. f_equal. f_equal. lia.
Qed.

Lemma step_ok_all :
  forallb (fun sr => forallb (App.step_ok sr) (Py.range 1 121)) App.rates = true.
Proof. vm_compute. reflexivity. Qed.

Lemma grid_point_step (sr d k : Z) :
  In sr App.rates -> 1 <= d <= 120 ->
  App.grid_point sr d k = (Py.float_of_int k * (1 / Py.float_of_int sr) + 0)%float.
Proof.
  intros Hsr Hd. pose proof step_ok_all as H.
  rewrite forallb_forall in H. specialize (H sr Hsr).
  rewrite forallb_forall in H. specialize (H d (range_In 1 121 d ltac:(lia))).
  unfold App.step_ok in H. apply andb_prop in H as [H1 H2].
  apply FloatAxioms.Leibniz.eqb_spec in H1. apply negb_true_iff in H2.
  unfold App.grid_point. cbv zeta. rewrite H2, H1. reflexivity.
Qed.

Lemma mul_zero_r (x : float) : is_finite x = true -> is_zero (x * 0)%float = true.
Proof.
  intros Hf. apply is_zero_SF. rewrite mul_spec, Prim2SF_zero. unfold SF64mul.
  destruct (is_finite_cases x Hf) as [[s ->]|(s & m & e & -> & _)]; cbn [SFmul]; eauto.
Qed.

Variable pydub_export : App.AudioSegment -> string -> Py.result App.bytes.

(** The loop of the archive branch: the entries it appends, or the
    offset whose export failed. *)
Lemma individual_loop_spec (base : float) (sr d : Z) (incl : bool) (fmt : string) :
  forall (offs : list float) (i : Z) (zip : list (string * App.bytes)),
  match App.individual_loop np_sin pydub_export base sr d incl fmt i offs zip with
  | inr out =>
      exists bufs,
        Forall2 (fun off buf =>
                   App.export_buffer pydub_export
                     (App.create_audio_segment np_sin base off sr d incl) fmt = inr buf)
                offs bufs
        /\ out = zip ++ combine
                   (map (fun '(k, off) => App.fname k base off sr fmt)
                        (combine (Py.count_from i (List.length offs)) offs))
                   bufs
  | inl e =>
      exists off, In off offs /\
        App.export_buffer pydub_export
          (App.create_audio_segment np_sin base off sr d incl) fmt = inl e
  end.
Proof.
  induction offs as [|off offs IH]; intros i zip; cbn [App.individual_loop].
  - exists []. split; [constructor|]. cbn. now rewrite app_nil_r.
  - destruct (App.export_buffer pydub_export
                (App.create_audio_segment np_sin base off sr d incl) fmt) as [e|buf] eqn:E;
      cbn [Py.bind].
    + exists off. split; [now left|exact E].
    + specialize (IH (i + 1) (zip ++ [(App.fname i base off sr fmt, buf)])).
      destruct (App.individual_loop np_sin pydub_export base sr d incl fmt (i + 1) offs
                  (zip ++ [(App.fname i base off sr fmt, buf)])) as [e|out].
      * destruct IH as (off' & Hin & He). exists off'. split; [now right|exact He].
      * destruct IH as (bufs & HF & ->). exists (buf :: bufs).
        split; [now constructor|]. cbn. now rewrite <- app_assoc.
Qed.

Lemma Forall2_length_eq {A B} (R : A -> B -> Prop) (l : list A) (l' : list B) :
  Forall2 R l l' -> List.length l = List.length l'.
Proof. induction 1; cbn; congruence. Qed.

Lemma archive_spec (base : float) (offsets : list float) (sr d : Z) (incl : bool)
    (fmt : string) :
  match App.individual np_sin pydub_export base offsets sr d incl fmt with
  | inr (App.Archive entries count) =>
      List.length entries = List.length offsets
      /\ count = Z.of_nat (List.length entries)
      /\ map fst entries
         = map (fun '(k, off) => App.fname k base off sr fmt)
               (combine (Py.count_from 0 (List.length offsets)) offsets)
      /\ Forall2 (fun off e =>
                    App.export_buffer pydub_export
                      (App.create_audio_segment np_sin base off sr d incl) fmt
                    = inr (snd e))
                 offsets entries
  | inr _ => False
  | inl e =>
      exists off, In off offsets /\
        App.export_buffer pydub_export
          (App.create_audio_segment np_sin base off sr d incl) fmt = inl e
  end.
Proof.
  unfold App.individual.
  pose proof (individual_loop_spec base sr d incl fmt offsets 0 []) as H.
  destruct (App.individual_loop np_sin pydub_export base sr d incl fmt 0 offsets [])
    as [e|out]; cbn [Py.bind]; [exact H|]. unfold Py.ret.
  destruct H as (bufs & HF & ->). cbn [app].
  pose proof (Forall2_length_eq _ _ _ HF) as Hlen.
  assert (Hnames : List.length
                     (map (fun '(k, off) => App.fname k base off sr fmt)
                          (combine (Py.count_from 0 (List.length offsets)) offsets))
                   = List.length bufs).
  { rewrite length_map, length_combine, count_from_length. lia. }
  repeat split.
  - rewrite length_combine. lia.
  - rewrite length_combine. lia.
  - apply map_fst_combine_eq. exact Hnames.
  - revert HF Hnames.
    generalize (map (fun '(k, off) => App.fname k base off sr fmt)
                    (combine (Py.count_from 0 (List.length offsets)) offsets)).
    intros names HF. revert names.
    induction HF as [|off buf offs bufs' Hx HF IH]; intros names Hn.
    + destruct names; [constructor|discriminate].
    + destruct names as [|nm names]; [discriminate|]. cbn [combine].
      constructor; [exact Hx|]. cbn [List.length] in Hn, Hlen. apply IH; lia.
Qed.

End Engine.

Lemma truthy_true (s : string) : Py.truthy s = true <-> s <> EmptyString.
Proof. destruct s; cbn; split; congruence. Qed.

Lemma offsets2_spec (raw : string) :
  match App.offsets2 raw with
  | inr l =>
      Forall2 (fun tok x => Py.float_of_str (Py.strip tok) = inr x)
              (filter (fun x => Py.truthy (Py.strip x)) (Py.split "," raw)) l
  | inl e =>
      e = Py.ValueError /\
      exists tok, In tok (Py.split "," raw) /\ Py.strip tok <> EmptyString
                  /\ Py.float_of_str (Py.strip tok) = inl Py.ValueError
  end.
Proof.
  unfold App.offsets2.
  destruct (Py.mapM _ _) as [e|l] eqn:E.
  - apply mapM_inl in E as (tok & Hin & Hf).
    pose proof (float_of_str_error _ _ Hf) as ->.
    apply filter_In in Hin as [Hin Ht]. apply truthy_true in Ht.
    split; [reflexivity|]. now exists tok.
  - now apply mapM_inr in E.
Qed.








(** Offsets *)

Lemma offsets1_length (depth : Z) : List.length (App.offsets1 depth) = Z.to_nat depth.
Proof.
  unfold App.offsets1, Py.range. rewrite length_map, count_from_length. f_equal. lia.
Qed.

Lemma offsets1_nth (depth i : Z) :
  1 <= i <= depth ->
  nth (Z.to_nat (i - 1)) (App.offsets1 depth) 0%float = App.pow10_neg i.
Proof.
  intros H. unfold App.offsets1.
  rewrite (nth_indep _ 0%float (App.pow10_neg 0))
    by (rewrite length_map; unfold Py.range; rewrite count_from_length; lia).
  rewrite map_nth. unfold Py.range. rewrite count_from_nth by lia. f_equal. lia.
Qed.

Lemma pow10_neg_nearest :
  forallb (fun i => Spec.nearest_pow10_neg i (App.pow10_neg i)) (Py.range 1 16) = true.
Proof. vm_compute. reflexivity. Qed.

Lemma pow10_neg_decreasing :
  forallb (fun i => (App.pow10_neg (i + 1) <? App.pow10_neg i)%float
                    && (0 <? App.pow10_neg i)%float) (Py.range 1 16) = true.
Proof. vm_compute. reflexivity. Qed.

Lemma offset_set_spec (depth : Z) (raw : string) :
  1 <= depth <= 15 ->
  List.length (App.offsets1 depth) = Z.to_nat depth
  /\ (forall i, 1 <= i <= depth ->
        nth (Z.to_nat (i - 1)) (App.offsets1 depth) 0%float = App.pow10_neg i
        /\ Spec.nearest_pow10_neg i (App.pow10_neg i) = true)
  /\ (forall i, 1 <= i < depth ->
        (App.pow10_neg (i + 1) <? App.pow10_neg i)%float = true)
  /\ (0 <? App.pow10_neg depth)%float = true
  /\ match App.offsets2 raw with
     | inr lits => App.all_offsets depth raw = inr (App.offsets1 depth ++ lits)
     | inl e => App.all_offsets depth raw = inl e
     end.
Proof.
  intros Hd.
  pose proof pow10_neg_nearest as Hn. rewrite forallb_forall in Hn.
  pose proof pow10_neg_decreasing as Hdec. rewrite forallb_forall in Hdec.
  split; [apply offsets1_length|].
  split.
  { intros i Hi. split; [now apply offsets1_nth|]. apply Hn, range_In. lia. }
  split.
  { intros i Hi. specialize (Hdec i (range_In 1 16 i ltac:(lia))).
    now apply andb_prop in Hdec. }
  split.
  { specialize (Hdec depth (range_In 1 16 depth ltac:(lia))).
    now apply andb_prop in Hdec. }
  unfold App.all_offsets. now destruct (App.offsets2 raw).
Qed.

(** C4.  For a depth from 1 to 15 the geometric part has [depth]
    elements, the one of index [i - 1] being [10 ** -i], a float nearest
    to [10^-i]; they are positive and strictly decreasing; and the
    offset set is the geometric part followed by the parsed literals, as
    they are (it fails when the literals fail to parse). *)
Theorem C4_offset_set (depth : Z) (raw : string) :
  1 <= depth <= 15 ->
  List.length (App.offsets1 depth) = Z.to_nat depth
  /\ (forall i, 1 <= i <= depth ->
        nth (Z.to_nat (i - 1)) (App.offsets1 depth) 0%float = App.pow10_neg i
        /\ Spec.nearest_pow10_neg i (App.pow10_neg i) = true)
  /\ (forall i, 1 <= i < depth ->
        (App.pow10_neg (i + 1) <? App.pow10_neg i)%float = true)
  /\ (0 <? App.pow10_neg depth)%float = true
  /\ match App.offsets2 raw with
     | inr lits => App.all_offsets depth raw = inr (App.offsets1 depth ++ lits)
     | inl e => App.all_offsets depth raw = inl e
     end.
Proof. exact (offset_set_spec depth raw). Qed.

Lemma C4_offset_set_witness :
  1 <= 5 <= 15 /\
  App.all_offsets 5 "1, 10, 100"
  = inr (App.offsets1 5 ++ [1; 10; 100]%float).
Proof.
  split; [lia|].
  pose proof (C4_offset_set 5 "1, 10, 100" ltac:(lia)) as (_ & _ & _ & _ & H).
  exact H.
Defined.

(** Names *)

(** [clean_off] is the one string that [.15f] gives once every final
    zero, and then every final point, is taken away. *)
Lemma clean_off_iff (o : float) (c : string) :
  c = App.clean_off o
  <-> exists dots zeros,
        Py.format_fixed 15 o = (c ++ dots ++ zeros)%string
        /\ Py.all_chars (Ascii.eqb ".") dots /\ Py.all_chars (Ascii.eqb "0") zeros
        /\ (forall r, c <> (r ++ ".")%string)
        /\ (forall r, (c ++ dots)%string <> (r ++ "0")%string).
Proof.
  unfold App.clean_off, Py.rstrip. split.
  - intros ->.
    destruct (rstrip_with_app (Ascii.eqb "0") (Py.format_fixed 15 o)) as (zeros & Hz & Hzp).
    destruct (rstrip_with_app (Ascii.eqb ".")
                (Py.rstrip_with (Ascii.eqb "0") (Py.format_fixed 15 o))) as (dots & Hd & Hdp).
    exists dots, zeros. split; [|split; [exact Hdp|split; [exact Hzp|split]]].
    + rewrite Hz at 1. rewrite Hd at 1. apply append_assoc.
    + intros r H. apply rstrip_with_last in H. discriminate.
    + intros r H. rewrite <- Hd in H. apply rstrip_with_last in H. discriminate.
  - intros (dots & zeros & -> & Hd & Hz & Hc & Hcd).
    rewrite <- append_assoc.
    rewrite (rstrip_char_unique "0" (c ++ dots) zeros Hz Hcd).
    now rewrite (rstrip_char_unique "." c dots Hd Hc).
Qed.

(** C3, as amended.  The entry of position [i] (from zero) is named
    [{i+1}_{b}Hz_plus_{o}Hz_{sr}SR.{fmt}], with [b] printed as Python
    prints a float and [o] printed with 15 decimals and then stripped:
    the printed offset is the one string that [.15f] gives once all the
    zeros at its end, and then all the points at its end, are taken
    away.  Base frequency 440.0, offset 0.1, rate 96000, third entry,
    format wav give [3_440.0Hz_plus_0.1Hz_96000SR.wav]; base frequency
    100 gives [1_100.0Hz_plus_0.1Hz_44100SR.wav]. *)
Theorem C3_entry_name :
  (forall i b o sr fmt,
      App.fname i b o sr fmt
      = (Py.str_of_int (i + 1) ++ "_" ++ Py.float_repr b ++ "Hz_plus_"
         ++ App.clean_off o ++ "Hz_" ++ Py.str_of_int sr ++ "SR." ++ fmt)%string)
  /\ (forall o c,
        c = App.clean_off o
        <-> exists dots zeros,
              Py.format_fixed 15 o = (c ++ dots ++ zeros)%string
              /\ Py.all_chars (Ascii.eqb ".") dots /\ Py.all_chars (Ascii.eqb "0") zeros
              /\ (forall r, c <> (r ++ ".")%string)
              /\ (forall r, (c ++ dots)%string <> (r ++ "0")%string))
  /\ App.fname 2 440 (App.pow10_neg 1) 96000 "wav"
     = "3_440.0Hz_plus_0.1Hz_96000SR.wav"%string
  /\ App.fname 0 100 (App.pow10_neg 1) 44100 "wav"
     = "1_100.0Hz_plus_0.1Hz_44100SR.wav"%string.
Proof.
  split; [reflexivity|]. split; [exact clean_off_iff|].
  split; vm_compute; reflexivity.
Qed.

Lemma C3_base_frequency_counterexample :
  String.eqb (App.fname 0 100 (App.pow10_neg 1) 44100 "wav")
             "1_100Hz_plus_0.1Hz_44100SR.wav" = false.
Proof. vm_compute. reflexivity. Qed.


Lemma rates_pos (sr d : Z) : In sr App.rates -> 1 <= d -> 0 < sr * d.
Proof. unfold App.rates. cbn [In]. intros [<-|[<-|[<-|[<-|[]]]]] Hd; lia. Qed.

Lemma grid_point_zero (sr d : Z) :
  In sr App.rates -> 1 <= d <= 120 -> App.grid_point sr d 0 = 0%float.
Proof.
  intros Hsr Hd. rewrite grid_point_step by assumption.
  unfold App.rates in Hsr. cbn [In] in Hsr.
  destruct Hsr as [<-|[<-|[<-|[<-|[]]]]]; vm_compute; reflexivity.
Qed.

(** Lists, codes and NaN *)

Lemma count_from_bounds (n : nat) : forall a k : Z,
  In k (Py.count_from a n) -> a <= k < a + Z.of_nat n.
Proof.
  induction n as [|n IH]; intros a k; cbn [Py.count_from In]; [intros []|].
  intros [<-|Hin]; [lia|]. apply IH in Hin. lia.
Qed.

Lemma map_fst_to_int16 (final : list (float * float)) :
  map fst (App.to_int16 final)
  = map (fun l => Np.astype_int16 (l * 32767)%float) (map fst final).
Proof. unfold App.to_int16. rewrite !map_map. apply map_ext. now intros [l r]. Qed.

Lemma map_snd_to_int16 (final : list (float * float)) :
  map snd (App.to_int16 final)
  = map (fun r => Np.astype_int16 (r * 32767)%float) (map snd final).
Proof. unfold App.to_int16. rewrite !map_map. apply map_ext. now intros [l r]. Qed.

Lemma astype_nan (x : float) :
  is_nan x = true -> Np.astype_int16 (x * 32767)%float = None.
Proof. intros H. apply is_nan_eq in H. subst x. reflexivity. Qed.

Lemma is_nan_abs (x : float) : is_nan (abs x) = is_nan x.
Proof.
  destruct (is_nan x) eqn:E.
  - apply is_nan_eq in E. now subst x.
  - apply is_nan_false. apply is_nan_false in E. rewrite abs_spec.
    destruct (Prim2SF x); cbn; congruence.
Qed.

Lemma maximum_nan_r (a b : float) : is_nan b = true -> is_nan (Np.maximum a b) = true.
Proof.
  intros Hb. unfold Np.maximum.
  destruct (b <=? a)%float eqn:Hle.
  - apply leb_not_nan in Hle as [Hn _]. congruence.
  - cbn [orb]. destruct (is_nan a) eqn:Ha; assumption.
Qed.

(** A NaN anywhere in the array is the maximum of the array. *)
Lemma fold_maximum_nan_in (l : list float) : forall a,
  Exists (fun x => is_nan x = true) (a :: l) ->
  is_nan (fold_left Np.maximum l a) = true.
Proof.
  induction l as [|b l IH]; intros a H; cbn [fold_left].
  - inversion H as [? ? Ha|? ? Hl]; subst; [exact Ha|inversion Hl].
  - apply IH. inversion H as [? ? Ha|? ? Hl]; subst.
    + apply Exists_cons_hd. unfold Np.maximum. rewrite Ha, orb_true_r. exact Ha.
    + inversion Hl as [? ? Hb|? ? Hl']; subst.
      * apply Exists_cons_hd. now apply maximum_nan_r.
      * now apply Exists_cons_tl.
Qed.

(** A magnitude at most zero is a zero. *)
Lemma abs_le_zero (x z : float) :
  is_zero z = true -> (abs x <=? z)%float = true -> is_zero x = true.
Proof.
  intros Hz Hle. apply is_zero_SF in Hz as [s Hs]. apply is_zero_SF.
  rewrite leb_spec, abs_spec, Hs in Hle.
  destruct (Prim2SF x) as [sx|sx| |sx m e]; try discriminate Hle.
  now exists sx.
Qed.

Lemma div_zero_zero (x z : float) :
  is_zero x = true -> is_zero z = true -> is_nan (x / z)%float = true.
Proof.
  intros Hx Hz. apply is_zero_SF in Hx as [sx Hx]. apply is_zero_SF in Hz as [sz Hz].
  destruct (is_nan (x / z)) eqn:E; [reflexivity|].
  apply is_nan_false in E. rewrite div_spec, Hx, Hz in E. now elim E.
Qed.

(** Finite numbers *)

Lemma is_finite_SF (x : float) :
  is_finite x = true
  <-> match Prim2SF x with
      | S754_zero _ | S754_finite _ _ _ => True
      | _ => False
      end.
Proof.
  split.
  - intros H. destruct (is_finite_cases x H) as [[s ->]|(s & m & e & -> & _)]; exact I.
  - unfold is_finite, is_nan, is_infinity.
    rewrite !eqb_spec, abs_spec, Prim2SF_infinity.
    destruct (Prim2SF x) as [s|s| |s m e]; try contradiction; intros _; unfold SFeqb;
      cbn [SFabs SFcompare].
    + reflexivity.
    + rewrite Z.compare_refl.
      change (Pos.compare_cont Eq m m) with (Pos.compare m m).
      rewrite Pos.compare_refl. now destruct s.
Qed.








(** Zeros *)




Section Sweep.

Variable np_sin : float -> float.

Lemma assemble_length (incl : bool) (base : float) (sig t : list float) :
  List.length sig = List.length t ->
  List.length (App.assemble np_sin incl base sig t) = List.length t.
Proof.
  intros H. unfold App.assemble, Np.vstack_T.
  destruct incl; rewrite length_combine, ?tone_length, H; apply Nat.min_id.
Qed.

Lemma to_int16_length (final : list (float * float)) :
  List.length (App.to_int16 final) = List.length final.
Proof. apply length_map. Qed.

Lemma time_grid_nil (sr d : Z) : sr * d <= 0 -> App.time_grid sr d = [].
Proof.
  intros H. apply length_zero_iff_nil. rewrite time_grid_length. lia.
Qed.

Lemma mix_length (base : float) (offsets t : list float) :
  List.length (App.mix np_sin base offsets t) = List.length t.
Proof. rewrite mix_pointwise. apply length_map. Qed.

Lemma sweep_final_with_peak (base : float) (offsets : list float) (sr d : Z)
    (incl : bool) (peak : float) :
  Np.max (Np.abs (App.mix np_sin base offsets (App.time_grid sr d))) = inr peak ->
  exists final,
    App.sweep_final np_sin base offsets sr d incl = inr final
    /\ map fst final
       = map (fun x => (x / peak)%float) (App.mix np_sin base offsets (App.time_grid sr d)).
Proof.
  intros Hmax.
  pose proof (channels np_sin base base sr d incl offsets) as H. cbv zeta in H.
  destruct H as (_ & _ & _ & H).
  unfold App.normalize in H. rewrite Hmax in H. cbn [Py.bind] in H. unfold Py.ret in H.
  destruct H as (final & Hfin & Hl & _). eauto.
Qed.







(** A NaN among the tones *)

Lemma is_nan_SF (x : float) : is_nan x = true <-> Prim2SF x = S754_nan.
Proof.
  split.
  - intros H. apply is_nan_eq in H. now subst x.
  - intros H. destruct (is_nan x) eqn:E; [reflexivity|].
    apply is_nan_false in E. contradiction.
Qed.

Lemma add_nan (a b : float) :
  is_nan a = true \/ is_nan b = true -> is_nan (a + b) = true.
Proof.
  intros H. apply is_nan_SF. rewrite add_spec. unfold SF64add.
  destruct H as [H|H]; apply is_nan_SF in H; rewrite H; [reflexivity|].
  now destruct (Prim2SF a).
Qed.

Lemma mix_at_nan (base : float) (offsets : list float) (tk : float) :
  Exists (fun off =>
            is_nan (np_sin (Py.float_of_int 2 * Np.pi * (base + off) * tk)) = true)
         offsets ->
  is_nan (App.mix_at np_sin base offsets tk) = true.
Proof.
  unfold App.mix_at. intros H.
  assert (G : forall acc,
             is_nan acc = true
             \/ Exists (fun off =>
                          is_nan (np_sin (Py.float_of_int 2 * Np.pi * (base + off) * tk))
                          = true) offsets ->
             is_nan (fold_left
                       (fun acc off =>
                          (acc + np_sin (Py.float_of_int 2 * Np.pi * (base + off) * tk))%float)
                       offsets acc) = true).
  { clear H. induction offsets as [|off offsets IH]; intros acc [Ha|He]; cbn [fold_left].
    - exact Ha.
    - inversion He.
    - apply IH. left. apply add_nan. now left.
    - apply IH. inversion He as [? ? Hh|? ? Ht]; subst.
      + left. apply add_nan. now right.
      + now right. }
  apply G. now right.
Qed.

(** One NaN in the mix: the peak and the whole left channel are NaN. *)
Lemma sweep_nan_mix (base : float) (offsets : list float) (sr d : Z) (incl : bool) :
  Exists (fun x => is_nan x = true) (App.mix np_sin base offsets (App.time_grid sr d)) ->
  exists final,
    App.sweep_final np_sin base offsets sr d incl = inr final
    /\ Np.max (Np.abs (App.mix np_sin base offsets (App.time_grid sr d))) = inr nan
    /\ Forall (fun x => is_nan x = true) (map fst final)
    /\ Forall (fun c => c = None) (map fst (App.to_int16 final)).
Proof.
  intros Hex.
  assert (Hmax : Np.max (Np.abs (App.mix np_sin base offsets (App.time_grid sr d)))
                 = inr nan).
  { destruct (App.mix np_sin base offsets (App.time_grid sr d)) as [|x l];
      [inversion Hex|].
    unfold Np.abs. cbn [map Np.max]. unfold Py.ret. f_equal.
    apply is_nan_eq. apply fold_maximum_nan_in.
    change (abs x :: map abs l) with (map abs (x :: l)).
    apply Exists_exists in Hex as (y & Hy & Hnan). apply Exists_exists.
    exists (abs y). split; [now apply in_map|]. now rewrite is_nan_abs. }
  destruct (sweep_final_with_peak base offsets sr d incl nan Hmax) as (final & Hfin & Hl).
  exists final. split; [exact Hfin|]. split; [exact Hmax|].
  assert (Hnan : Forall (fun x => is_nan x = true) (map fst final)).
  { rewrite Hl. rewrite Forall_forall. intros y Hy.
    apply in_map_iff in Hy as (x & <- & Hx). now rewrite div_nan_r. }
  split; [exact Hnan|].
  rewrite map_fst_to_int16. rewrite Forall_forall in *. intros c Hc.
  apply in_map_iff in Hc as (x & <- & Hx). apply astype_nan. now apply Hnan.
Qed.

(** The product with zero of a number that is not finite is NaN. *)
Lemma mul_nonfinite_zero (x : float) :
  is_finite x = false -> is_nan (x * 0) = true.
Proof.
  intros H. apply is_nan_SF. rewrite mul_spec, Prim2SF_zero. unfold SF64mul.
  destruct (Prim2SF x) as [s|s| |s m e] eqn:E; try reflexivity; exfalso;
    assert (Hf : is_finite x = true) by (apply is_finite_SF; now rewrite E); congruence.
Qed.

Variable pydub_export : App.AudioSegment -> string -> Py.result App.bytes.

(** Sequence numbers *)

Lemma names_one_based (base : float) (sr : Z) (fmt : string) (offsets : list float) :
  forall a : Z,
  map (fun '(k, off) => App.fname k base off sr fmt)
      (combine (Py.count_from a (List.length offsets)) offsets)
  = map (fun '(i, off) =>
           (Py.str_of_int i ++ "_" ++ Py.float_repr base ++ "Hz_plus_"
            ++ App.clean_off off ++ "Hz_" ++ Py.str_of_int sr ++ "SR." ++ fmt)%string)
        (combine (Py.count_from (a + 1) (List.length offsets)) offsets).
Proof.
  induction offsets as [|off offsets IH]; intros a; cbn [List.length Py.count_from combine map];
    [reflexivity|].
  f_equal. apply IH.
Qed.

End Sweep.

Section Claims.

Variable np_sin : float -> float.
Variable pydub_export : App.AudioSegment -> string -> Py.result App.bytes.

(** C1, as amended.  Quantization converts [sample * 32767] to a 16-bit
    integer by rounding toward zero (not to the nearest integer), for
    each sample of each channel on its own. *)
Theorem C1_quantization_truncates (final : list (float * float)) :
  App.to_int16 final
  = map (fun '(l, r) => (Spec.toward_zero (l * 32767)%float,
                         Spec.toward_zero (r * 32767)%float)) final
  /\ map fst (App.to_int16 final)
     = map (fun l => Spec.toward_zero (l * 32767)%float) (map fst final)
  /\ map snd (App.to_int16 final)
     = map (fun r => Spec.toward_zero (r * 32767)%float) (map snd final).
Proof. exact (to_int16_toward_zero final). Qed.


(** C6, as amended.  In the sweep branch the mix holds at each instant
    the sum over the offsets, in their order, of
    [sin(2 pi (base + off) t)].  When its peak absolute value is a
    nonzero number, the left channel is the mix divided by that peak and
    its own peak absolute value is exactly one.  When a sample of a tone
    is NaN the mix is NaN at that instant, and one NaN in the mix makes
    the peak NaN and with it every sample of the left channel. *)
Theorem C6_sweep_unit_peak (base : float) (offsets : list float) (sr d : Z)
    (incl : bool) :
  App.mix np_sin base offsets (App.time_grid sr d)
  = map (App.mix_at np_sin base offsets) (App.time_grid sr d)
  /\ (forall tk,
        App.mix_at np_sin base offsets tk
        = fold_left
            (fun acc off =>
               (acc + np_sin (Py.float_of_int 2 * Np.pi * (base + off) * tk))%float)
            offsets 0%float)
  /\ (forall peak,
        Np.max (Np.abs (App.mix np_sin base offsets (App.time_grid sr d))) = inr peak ->
        is_finite peak = true -> is_zero peak = false ->
        exists final,
          App.sweep_final np_sin base offsets sr d incl = inr final
          /\ map fst final
             = map (fun x => (x / peak)%float)
                   (App.mix np_sin base offsets (App.time_grid sr d))
          /\ Np.max (Np.abs (map fst final)) = inr 1%float)
  /\ (forall tk,
        Exists (fun off =>
                  is_nan (np_sin (Py.float_of_int 2 * Np.pi * (base + off) * tk)) = true)
               offsets ->
        is_nan (App.mix_at np_sin base offsets tk) = true)
  /\ (Exists (fun x => is_nan x = true)
             (App.mix np_sin base offsets (App.time_grid sr d)) ->
      exists final,
        App.sweep_final np_sin base offsets sr d incl = inr final
        /\ Np.max (Np.abs (App.mix np_sin base offsets (App.time_grid sr d))) = inr nan
        /\ Forall (fun x => is_nan x = true) (map fst final)).
Proof.
  split; [apply mix_pointwise|]. split; [reflexivity|].
  split; [intros peak; apply sweep_unit_peak|].
  split; [intros tk; apply mix_at_nan|].
  intros H. destruct (sweep_nan_mix np_sin base offsets sr d incl H)
    as (final & H1 & H2 & H3 & _).
  eauto.
Qed.

(** C7.  The frame of a single tone and the frame of the sweep have
    the signal on the left; on the right they have the reference tone
    at the base frequency when the reference is asked for, and the
    signal again when it is not. *)
Theorem C7_channel_assembly (base offset : float) (sr d : Z) (incl : bool)
    (offsets : list float) :
  let t := App.time_grid sr d in
  let primary := App.tone np_sin (base + offset)%float t in
  let final := App.assemble np_sin incl base primary t in
  App.frames (App.create_audio_segment np_sin base offset sr d incl) = App.to_int16 final
  /\ map fst final = primary
  /\ map snd final = (if incl then App.tone np_sin base t else primary)
  /\ match App.normalize (App.mix np_sin base offsets t) with
     | inr mixed =>
         exists final',
           App.sweep_final np_sin base offsets sr d incl = inr final'
           /\ map fst final' = mixed
           /\ map snd final' = (if incl then App.tone np_sin base t else mixed)
     | inl e => App.sweep_final np_sin base offsets sr d incl = inl e
     end.
Proof. exact (channels np_sin base offset sr d incl offsets). Qed.

(** C8, as amended.  For every frequency, every rate of the page and
    every duration from 1 to 120 seconds, the tone has [sr * d] samples
    and sample [k] is the sine of [2 pi f t_k], where [t_k] is the float
    product of [k] and [1 / sr].  Sample 0 is a zero when the sine of
    zero is zero and [2 pi f] is finite; when [2 pi f] is not finite
    (the frequency is so large that the product overflows) and the sine
    of NaN is NaN, sample 0 is NaN. *)
Theorem C8_waveform (f : float) (sr d : Z) :
  In sr App.rates -> 1 <= d <= 120 ->
  List.length (App.tone np_sin f (App.time_grid sr d)) = Z.to_nat (sr * d)
  /\ (forall k, 0 <= k < sr * d ->
        nth (Z.to_nat k) (App.tone np_sin f (App.time_grid sr d)) nan
        = np_sin (2 * Np.pi * f * (Py.float_of_int k * (1 / Py.float_of_int sr) + 0))%float)
  /\ ((forall x, is_zero x = true -> is_zero (np_sin x) = true) ->
      is_finite (2 * Np.pi * f)%float = true ->
      is_zero (nth 0 (App.tone np_sin f (App.time_grid sr d)) nan) = true)
  /\ ((forall x, is_nan x = true -> is_nan (np_sin x) = true) ->
      is_finite (2 * Np.pi * f)%float = false ->
      is_nan (nth 0 (App.tone np_sin f (App.time_grid sr d)) nan) = true).
Proof.
  intros Hsr Hd.
  assert (H0 : nth 0 (App.tone np_sin f (App.time_grid sr d)) nan
               = np_sin (2 * Np.pi * f * 0)%float).
  { change 0%nat with (Z.to_nat 0).
    rewrite tone_nth by (pose proof (rates_pos sr d Hsr); lia).
    now rewrite grid_point_zero by assumption. }
  split; [now rewrite tone_length, time_grid_length|].
  split; [|split].
  - intros k Hk. rewrite tone_nth by exact Hk. now rewrite grid_point_step.
  - intros Hsin Hfin. rewrite H0. apply Hsin. now apply mul_zero_r.
  - intros Hsin Hfin. rewrite H0. apply Hsin. now apply mul_nonfinite_zero.
Qed.

(** C9.  The archive branch writes one entry for each offset, in the
    order of the offsets: the entry of the [i]-th offset, counting from
    1, is the export of the segment of that offset and its name starts
    with the numeral of [i]; the count shown is the number of entries.
    The only way not to produce the archive is an exception of the
    export of one offset, and the archive is produced whenever the
    export of every offset succeeds. *)
Theorem C9_archive_entries (base : float) (offsets : list float) (sr d : Z)
    (incl : bool) (fmt : string) :
  match App.individual np_sin pydub_export base offsets sr d incl fmt with
  | inr (App.Archive entries count) =>
      List.length entries = List.length offsets
      /\ count = Z.of_nat (List.length entries)
      /\ map fst entries
         = map (fun '(i, off) =>
                  (Py.str_of_int i ++ "_" ++ Py.float_repr base ++ "Hz_plus_"
                   ++ App.clean_off off ++ "Hz_" ++ Py.str_of_int sr ++ "SR."
                   ++ fmt)%string)
               (combine (Py.range 1 (Z.of_nat (List.length offsets) + 1)) offsets)
      /\ Forall2 (fun off e =>
                    App.export_buffer pydub_export
                      (App.create_audio_segment np_sin base off sr d incl) fmt
                    = inr (snd e))
                 offsets entries
  | inr _ => False
  | inl e =>
      exists off, In off offsets /\
        App.export_buffer pydub_export
          (App.create_audio_segment np_sin base off sr d incl) fmt = inl e
  end
  /\ ((forall off, In off offsets ->
         exists buf, App.export_buffer pydub_export
                       (App.create_audio_segment np_sin base off sr d incl) fmt = inr buf) ->
      exists entries,
        App.individual np_sin pydub_export base offsets sr d incl fmt
        = inr (App.Archive entries (Z.of_nat (List.length offsets)))).
Proof.
  pose proof (archive_spec np_sin pydub_export base offsets sr d incl fmt) as H.
  split.
  - destruct (App.individual np_sin pydub_export base offsets sr d incl fmt)
      as [e|[| |entries count]]; try exact H.
    destruct H as (Hl & Hc & Hn & He). split; [exact Hl|]. split; [exact Hc|].
    split; [|exact He]. rewrite Hn, (names_one_based base sr fmt offsets 0).
    unfold Py.range. do 3 f_equal. lia.
  - intros Hall.
    destruct (App.individual np_sin pydub_export base offsets sr d incl fmt)
      as [e|[| |entries count]]; try contradiction.
    + destruct H as (off & Hin & He). destruct (Hall off Hin) as (buf & Hb). congruence.
    + destruct H as (Hl & -> & _). exists entries. now rewrite Hl.
Qed.


End Claims.

Lemma C1_rounding_counterexample :
  App.to_int16 [(0.25, 0.25)%float] = [(Some 8191, Some 8191)]
  /\ Spec.quantize [(0.25, 0.25)%float] = [(Some 8192, Some 8192)].
Proof. split; reflexivity. Qed.



Lemma C6_sweep_unit_peak_witness :
  exists final,
    App.sweep_final Ref.sin 440 (App.offsets1 2 ++ [1%float]) 8 1 true = inr final
    /\ map fst final
       = map (fun x => (x / 0x1.2c117bdd7a1f0p+0)%float)
             (App.mix Ref.sin 440 (App.offsets1 2 ++ [1%float]) (App.time_grid 8 1))
    /\ Np.max (Np.abs (map fst final)) = inr 1%float.
Proof.
  apply (proj1 (proj2 (proj2
           (C6_sweep_unit_peak Ref.sin 440 (App.offsets1 2 ++ [1%float]) 8 1 true)))
           0x1.2c117bdd7a1f0p+0%float).
  - vm_compute. reflexivity.
  - reflexivity.
  - reflexivity.
Defined.

Lemma C6_nan_peak_counterexample :
  exists offsets final,
    App.all_offsets 1 "1e308" = inr offsets
    /\ App.sweep_final Ref.sin 440 offsets 44100 1 false = inr final
    /\ Np.max (Np.abs (map fst final)) = inr nan.
Proof.
  eexists. 
  assert (H : exists final,
             App.sweep_final Ref.sin 440
               [App.pow10_neg 1; SF2Prim (Py.decimal_to_SF false 1 308)] 44100 1 false
             = inr final
             /\ Np.max (Np.abs (map fst final)) = inr nan).
  { apply sweep_nan_head; [lia|]. vm_compute. reflexivity. }
  destruct H as (final & H1 & H2). exists final.
  split; [|split; [exact H1|exact H2]]. reflexivity.
Qed.

Lemma C8_waveform_witness :
  List.length (App.tone Ref.sin 440 (App.time_grid 44100 1)) = Z.to_nat (44100 * 1)
  /\ (forall k, 0 <= k < 44100 * 1 ->
        nth (Z.to_nat k) (App.tone Ref.sin 440 (App.time_grid 44100 1)) nan
        = Ref.sin (2 * Np.pi * 440 * (Py.float_of_int k * (1 / Py.float_of_int 44100) + 0))%float)
  /\ ((forall x, is_zero x = true -> is_zero (Ref.sin x) = true) ->
      is_finite (2 * Np.pi * 440)%float = true ->
      is_zero (nth 0 (App.tone Ref.sin 440 (App.time_grid 44100 1)) nan) = true)
  /\ ((forall x, is_nan x = true -> is_nan (Ref.sin x) = true) ->
      is_finite (2 * Np.pi * 440)%float = false ->
      is_nan (nth 0 (App.tone Ref.sin 440 (App.time_grid 44100 1)) nan) = true).
Proof.
  apply (C8_waveform Ref.sin 440 44100 1).
  - cbn. auto.
  - lia.
Defined.

Lemma C8_overflow_counterexample :
  exists off,
    Py.float_of_str "1e308" = inr off
    /\ is_finite off = true
    /\ is_nan (nth 0 (App.tone Ref.sin (440 + off) (App.time_grid 44100 1)) nan) = true.
Proof.
  exists (SF2Prim (Py.decimal_to_SF false 1 308)).
  split; [reflexivity|]. split; [reflexivity|].
  change 0%nat with (Z.to_nat 0).
  rewrite tone_nth by lia. vm_compute. reflexivity.
Qed.


End AppFacts.

(** ** Edge cases, invariants and compositions *)

Module EdgeFacts.

Import B64 B64Facts PyFacts LiteralFacts AppFacts Spec.

(** ** The offsets field *)

Lemma split_length (sep : ascii) (s : string) :
  List.length (Py.split sep s)
  = S (count_occ ascii_dec (list_ascii_of_string s) sep).
Proof.
  induction s as [|c s IH]; [reflexivity|]. cbn [Py.split list_ascii_of_string].
  destruct (Ascii.eqb_spec c sep) as [->|Hne].
  - rewrite count_occ_cons_eq by reflexivity. cbn [List.length]. now rewrite IH.
  - rewrite count_occ_cons_neq by exact Hne.
    destruct (Py.split sep s); [discriminate IH|exact IH].
Qed.

Lemma mapM_length {A B} (f : A -> Py.result B) (l : list A) (out : list B) :
  Py.mapM f l = inr out -> List.length out = List.length l.
Proof.
  intros H. apply mapM_inr in H. symmetry. exact (Forall2_length_eq _ _ _ H).
Qed.

Lemma rstrip_with_empty (p : ascii -> bool) (s : string) :
  Py.rstrip_with p s = EmptyString -> Py.all_chars p s.
Proof.
  intros H. destruct (rstrip_with_app p s) as (t & Ht & Hp).
  rewrite H in Ht. cbn in Ht. now subst t.
Qed.

Lemma strip_empty (s : string) :
  Py.strip s = EmptyString <-> Py.all_chars Py.isspace s.
Proof.
  unfold Py.strip. split.
  - intros H. apply rstrip_with_empty in H.
    destruct (lstrip_with_app Py.isspace s) as (t & Ht & Hp & _).
    rewrite Ht. apply all_chars_app. now split.
  - intros H. now rewrite lstrip_with_all.
Qed.

(** The pieces of a split hold the characters of the string that are
    not the separator. *)
Lemma split_all_chars (sep : ascii) (p : ascii -> bool) (s : string) :
  Py.all_chars (fun c => Ascii.eqb c sep || p c) s
  <-> Forall (Py.all_chars p) (Py.split sep s).
Proof.
  unfold Py.all_chars. induction s as [|c s IH]; cbn [Py.split list_ascii_of_string].
  - split; intros _; repeat constructor.
  - destruct (Ascii.eqb_spec c sep) as [->|Hne].
    + split.
      * intros H. inversion H; subst. constructor; [constructor|]. now apply IH.
      * intros H. inversion H; subst. constructor; [now rewrite Ascii.eqb_refl|].
        now apply IH.
    + pose proof (split_not_nil sep s) as Hnil.
      destruct (Py.split sep s) as [|tok rest]; [congruence|].
      split.
      * intros H. inversion H as [|? ? Hc Hr]; subst. apply IH in Hr.
        inversion Hr; subst. constructor; [|assumption]. cbn. constructor; [|assumption].
        destruct (Ascii.eqb_spec c sep); [congruence|exact Hc].
      * intros H. inversion H as [|? ? Ht Hr]; subst. cbn in Ht.
        inversion Ht as [|? ? Hc Hr']; subst.
        constructor; [rewrite Hc; apply orb_true_r|]. apply IH. now constructor.
Qed.

Lemma filter_nil_iff {A} (f : A -> bool) (l : list A) :
  filter f l = [] <-> Forall (fun x => f x = false) l.
Proof.
  induction l as [|a l IH]; cbn; [split; constructor|].
  destruct (f a) eqn:E; split.
  - discriminate.
  - intros H. inversion H; congruence.
  - intros H. constructor; [exact E|now apply IH].
  - intros H. inversion H; subst. now apply IH.
Qed.

(** X1. A field of the offsets box yields no literal offset, and no
    error, exactly when it holds nothing but commas and white space. *)
Theorem blank_field_no_literals (raw : string) :
  App.offsets2 raw = inr []
  <-> Py.all_chars (fun c => Ascii.eqb c ","%char || Py.isspace c) raw.
Proof.
  unfold App.offsets2. rewrite split_all_chars. split.
  - intros H. apply mapM_length in H. cbn in H.
    apply eq_sym, length_zero_iff_nil, filter_nil_iff in H.
    eapply Forall_impl; [|exact H]. cbn. intros tok Htok.
    apply strip_empty. destruct (Py.strip tok); [reflexivity|discriminate].
  - intros H.
    assert (E : filter (fun x => Py.truthy (Py.strip x)) (Py.split "," raw) = []).
    { apply filter_nil_iff. eapply Forall_impl; [|exact H]. cbn. intros tok Htok.
      apply strip_empty in Htok. now rewrite Htok. }
    now rewrite E.
Qed.

(** X2. [split] cuts the field into one piece more than it has commas,
    so a field with [n] commas gives at most [n + 1] literal offsets:
    one for each piece that is not blank. *)
Theorem literal_count (raw : string) :
  List.length (Py.split "," raw)
  = S (count_occ ascii_dec (list_ascii_of_string raw) ","%char)
  /\ match App.offsets2 raw with
     | inr l =>
         List.length l
         = List.length (filter (fun x => Py.truthy (Py.strip x)) (Py.split "," raw))
         /\ (List.length l <= S (count_occ ascii_dec (list_ascii_of_string raw) ","%char))%nat
     | inl _ => True
     end.
Proof.
  split; [apply split_length|].
  destruct (App.offsets2 raw) as [e|l] eqn:E; [exact I|].
  unfold App.offsets2 in E. apply mapM_length in E. split; [exact E|].
  rewrite E, <- split_length. apply filter_length_le.
Qed.

(** ** [strip] *)

Lemma rstrip_with_idem (p : ascii -> bool) (s : string) :
  Py.rstrip_with p (Py.rstrip_with p s) = Py.rstrip_with p s.
Proof.
  induction s as [|c s IH]; [reflexivity|]. cbn [Py.rstrip_with].
  destruct (Py.rstrip_with p s) as [|c' r] eqn:E.
  - destruct (p c) eqn:Hc; [reflexivity|]. cbn. now rewrite Hc.
  - cbn [Py.rstrip_with]. cbn [Py.rstrip_with] in IH.
    destruct (Py.rstrip_with p r) as [|c'' r''] eqn:E'.
    + destruct (p c'); [discriminate|]. now rewrite IH.
    + now rewrite IH.
Qed.

Lemma strip_idem (s : string) : Py.strip (Py.strip s) = Py.strip s.
Proof.
  destruct (Py.strip s) as [|c r] eqn:E; [reflexivity|].
  pose proof (strip_head s c r E) as Hc.
  unfold Py.strip at 1. cbn [Py.lstrip_with]. rewrite Hc.
  rewrite <- E. unfold Py.strip. apply rstrip_with_idem.
Qed.

(** X3. [x.strip()] removes a run of white space at each end and
    nothing else: what is left neither starts nor ends with white
    space, and stripping it again changes nothing. *)
Theorem strip_spec (s : string) :
  (exists a b, s = (a ++ Py.strip s ++ b)%string
               /\ Py.all_chars Py.isspace a /\ Py.all_chars Py.isspace b)
  /\ (forall c r, Py.strip s = String c r -> Py.isspace c = false)
  /\ (forall r c, Py.strip s = (r ++ String c EmptyString)%string -> Py.isspace c = false)
  /\ Py.strip (Py.strip s) = Py.strip s.
Proof.
  repeat split.
  - destruct (lstrip_with_app Py.isspace s) as (a & Ha & Hpa & _).
    destruct (rstrip_with_app Py.isspace (Py.lstrip_with Py.isspace s)) as (b & Hb & Hpb).
    exists a, b. repeat split; [|exact Hpa|exact Hpb].
    unfold Py.strip. now rewrite <- Hb.
  - apply strip_head.
  - unfold Py.strip. apply rstrip_with_last.
  - apply strip_idem.
Qed.

Lemma sign_chars (sg : string) (neg : bool) :
  sign sg neg -> Py.all_chars (fun c => negb (Py.isspace c)) sg.
Proof. intros [ | | ]; repeat constructor. Qed.

Lemma digits_not_space (ds : string) :
  Py.all_chars Py.isdigit ds -> Py.all_chars (fun c => negb (Py.isspace c)) ds.
Proof.
  apply all_chars_impl. intros c.
  destruct c as [[] [] [] [] [] [] [] []]; cbv; intros H; try discriminate H; reflexivity.
Qed.

Lemma lower_not_space (c : ascii) :
  Py.isspace (Py.lower c) = false -> negb (Py.isspace c) = true.
Proof.
  destruct c as [[] [] [] [] [] [] [] []]; cbv; intros H; try discriminate H; reflexivity.
Qed.

Lemma word_not_space (w k : string) :
  Py.lower_str w = k -> Py.all_chars (fun c => negb (Py.isspace c)) k ->
  Py.all_chars (fun c => negb (Py.isspace c)) w.
Proof.
  unfold Py.all_chars. revert k. induction w as [|c w IH]; intros k <-; cbn; intros H;
    [constructor|].
  inversion H as [|? ? Hc Hr]; subst. constructor; [|now apply (IH _ eq_refl)].
  apply lower_not_space. now apply negb_true_iff.
Qed.

Lemma exponent_chars (ex : string) (E : Z) :
  exponent ex E -> Py.all_chars (fun c => negb (Py.isspace c)) ex.
Proof.
  intros [ |c sg ds neg Hc Hsg Hds _]; [constructor|].
  change (String c (sg ++ ds)) with (String c EmptyString ++ (sg ++ ds))%string.
  apply all_chars_app. split; [destruct Hc as [-> | ->]; repeat constructor|].
  apply all_chars_app. split; [now apply sign_chars with neg|now apply digits_not_space].
Qed.

Lemma mantissa_chars (m : string) (D nf : Z) :
  mantissa m D nf -> Py.all_chars (fun c => negb (Py.isspace c)) m.
Proof.
  intros [ip Hip _|ip fp Hip Hfp _]; [now apply digits_not_space|].
  apply all_chars_app. split; [now apply digits_not_space|].
  change (String "." fp) with ("." ++ fp)%string.
  apply all_chars_app. split; [repeat constructor|now apply digits_not_space].
Qed.

(** A float literal holds no white space. *)
Lemma literal_chars (t : string) (X : spec_float) :
  literal t X -> Py.all_chars (fun c => negb (Py.isspace c)) t.
Proof.
  intros [sg w neg Hsg Hw|sg w neg Hsg Hw|sg m ex neg D nf E Hsg Hm Hex];
    apply all_chars_app; (split; [now apply sign_chars with neg|]).
  - destruct Hw as [Hw|Hw]; apply (word_not_space w _ Hw); repeat constructor.
  - apply (word_not_space w _ Hw); repeat constructor.
  - apply all_chars_app. split; [now apply mantissa_chars with D nf|].
    now apply exponent_chars with E.
Qed.

Lemma drop_underscores_chars (p : ascii -> bool) (u : string) :
  p "_"%char = true -> Py.all_chars p (drop_underscores u) -> Py.all_chars p u.
Proof.
  intros Hp. unfold Py.all_chars. induction u as [|c u IH]; cbn; [constructor|].
  destruct (Ascii.eqb_spec c "_") as [->|_]; cbn; intros H.
  - constructor; [exact Hp|now apply IH].
  - inversion H; subst. constructor; [assumption|now apply IH].
Qed.

Lemma strip_padded (a u b : string) :
  Py.all_chars Py.isspace a -> Py.all_chars Py.isspace b ->
  Py.all_chars (fun c => negb (Py.isspace c)) u ->
  Py.strip (a ++ u ++ b) = u.
Proof.
  intros Ha Hb Hu. unfold Py.strip. rewrite lstrip_with_app_all by exact Ha.
  destruct u as [|c r].
  - cbn [String.append]. rewrite lstrip_with_all by exact Hb. reflexivity.
  - assert (Hc : Py.isspace c = false)
      by (inversion Hu as [|? ? H _]; subst; now apply negb_true_iff in H).
    cbn [String.append Py.lstrip_with]. rewrite Hc.
    change (String c (r ++ b)) with (String c r ++ b)%string.
    rewrite rstrip_with_app_all by exact Hb. now apply rstrip_with_none.
Qed.

Lemma float_of_str_stripped (s : string) (x : float) :
  Py.float_of_str s = inr x -> Py.float_of_str (Py.strip s) = inr x.
Proof.
  unfold Py.float_of_str.
  destruct (Py.parse_float s) as [X|] eqn:E; [|discriminate]. intros [= <-].
  apply parse_float_spec in E.
  set (u := Py.rstrip_with Py.float_space (Py.lstrip_with Py.float_space s)) in *.
  assert (Hu : Py.all_chars (fun c => negb (Py.isspace c)) u).
  { destruct E as [_ Hl]. apply drop_underscores_chars; [reflexivity|].
    now apply literal_chars with X. }
  destruct (lstrip_with_app Py.float_space s) as (a & Ha & Hpa & _).
  destruct (rstrip_with_app Py.float_space (Py.lstrip_with Py.float_space s))
    as (b & Hb & Hpb).
  fold u in Hb.
  assert (Hs : Py.strip s = u).
  { rewrite Ha, Hb. apply strip_padded; try assumption;
      eapply all_chars_impl; try eassumption; apply float_space_isspace. }
  assert (Hp : Py.parse_float (Py.strip s) = Some X).
  { apply parse_float_spec. rewrite float_strip_stripped, Hs. exact E. }
  now rewrite Hp.
Qed.

(** X4. [x.strip()] never costs a value: whenever [float(x)] succeeds,
    [float(x.strip())] gives the same number, and a field that the
    comprehension without [strip] reads is read alike with it.  But the
    [strip] is not redundant: [float] alone refuses a piece padded with
    one of the separators 28 to 31, which [strip] removes. *)
Theorem float_of_str_strip :
  (forall s x, Py.float_of_str s = inr x -> Py.float_of_str (Py.strip s) = inr x)
  /\ (forall raw l,
        Py.mapM Py.float_of_str
          (filter (fun x => Py.truthy (Py.strip x)) (Py.split "," raw)) = inr l ->
        App.offsets2 raw = inr l)
  /\ (exists s, Py.float_of_str s = inl Py.ValueError
                /\ Py.float_of_str (Py.strip s) = inr 7%float).
Proof.
  split; [exact float_of_str_stripped|]. split.
  - intros raw. unfold App.offsets2.
    induction (filter (fun x => Py.truthy (Py.strip x)) (Py.split "," raw)) as [|a l' IH];
      intros l; cbn [Py.mapM]; [auto|].
    destruct (Py.float_of_str a) as [e|x] eqn:Ea; cbn [Py.bind]; [discriminate|].
    rewrite (float_of_str_stripped a x Ea). cbn [Py.bind].
    destruct (Py.mapM Py.float_of_str l') as [e|xs]; cbn [Py.bind]; [discriminate|].
    now rewrite (IH xs eq_refl).
  - exists (String (ascii_of_nat 28) "7"). split; reflexivity.
Qed.

(** ** Numerals of integers *)

Lemma string_of_uint_digits (d : Decimal.uint) :
  Py.all_chars Py.isdigit (NilEmpty.string_of_uint d).
Proof.
  unfold Py.all_chars. induction d; cbn; constructor; try reflexivity; assumption.
Qed.

Lemma str_of_int_chars (n : Z) :
  Py.all_chars (fun c => Py.isdigit c || Ascii.eqb c "-"%char) (Py.str_of_int n).
Proof.
  assert (H : forall d, Py.all_chars (fun c => Py.isdigit c || Ascii.eqb c "-"%char)
                          (NilZero.string_of_uint d)).
  { intros d. unfold NilZero.string_of_uint.
    assert (H0 : Py.all_chars (fun c => Py.isdigit c || Ascii.eqb c "-"%char)
                   (NilEmpty.string_of_uint d)).
    { eapply Forall_impl; [|apply string_of_uint_digits]. cbn. now intros c ->. }
    destruct d; try exact H0. repeat constructor. }
  unfold Py.str_of_int. destruct (Z.to_int n) as [d|d]; cbn [NilZero.string_of_int].
  - apply H.
  - constructor; [reflexivity|apply H].
Qed.

Lemma numeral_char_facts (c : ascii) :
  (Py.isdigit c || Ascii.eqb c "-"%char) = true ->
  Py.isspace c = false /\ Py.lower c = c /\ Ascii.eqb c "_"%char = false
  /\ Ascii.eqb c ","%char = false /\ Ascii.eqb c "."%char = false
  /\ Ascii.eqb "."%char c = false.
Proof.
  destruct c as [[] [] [] [] [] [] [] []]; cbv; intros H; try discriminate H;
    repeat split.
Qed.

Lemma digit_char_facts (c : ascii) :
  Py.isdigit c = true ->
  Ascii.eqb c "-"%char = false /\ Ascii.eqb c "+"%char = false
  /\ Ascii.eqb c "i"%char = false /\ Ascii.eqb c "n"%char = false.
Proof.
  destruct c as [[] [] [] [] [] [] [] []]; cbv; intros H; try discriminate H;
    repeat split.
Qed.

Lemma strip_numeral (s : string) :
  Py.all_chars (fun c => Py.isdigit c || Ascii.eqb c "-"%char) s -> Py.strip s = s.
Proof.
  intros H. unfold Py.strip.
  assert (Hl : Py.lstrip_with Py.isspace s = s).
  { destruct s as [|c s]; [reflexivity|]. cbn.
    inversion H as [|? ? Hc _]; subst.
    destruct (numeral_char_facts c Hc) as (-> & _). reflexivity. }
  rewrite Hl. apply rstrip_with_none.
  eapply all_chars_impl; [|exact H]. cbn. intros c Hc.
  destruct (numeral_char_facts c Hc) as (-> & _). reflexivity.
Qed.

Lemma float_strip_numeral (s : string) :
  Py.all_chars (fun c => Py.isdigit c || Ascii.eqb c "-"%char) s ->
  Py.rstrip_with Py.float_space (Py.lstrip_with Py.float_space s) = s.
Proof.
  intros H.
  assert (Hf : forall c, (Py.isdigit c || Ascii.eqb c "-"%char) = true ->
                         Py.float_space c = false).
  { intros c Hc. destruct (numeral_char_facts c Hc) as (Hs & _).
    destruct (Py.float_space c) eqn:E; [|reflexivity].
    apply float_space_isspace in E. congruence. }
  assert (Hl : Py.lstrip_with Py.float_space s = s).
  { destruct s as [|c s]; [reflexivity|]. cbn [Py.lstrip_with].
    inversion H as [|? ? Hc _]; subst. now rewrite (Hf c Hc). }
  rewrite Hl. apply rstrip_with_none.
  eapply all_chars_impl; [|exact H]. cbv beta. intros c Hc. now rewrite (Hf c Hc).
Qed.

Lemma lower_str_numeral (s : string) :
  Py.all_chars (fun c => Py.isdigit c || Ascii.eqb c "-"%char) s -> Py.lower_str s = s.
Proof.
  unfold Py.all_chars. induction s as [|c s IH]; cbn; intros H; [reflexivity|].
  inversion H as [|? ? Hc Hr]; subst.
  destruct (numeral_char_facts c Hc) as (_ & -> & _). now rewrite IH.
Qed.

Lemma remove_underscores_digits (s : string) : forall prev,
  Ascii.eqb prev "_"%char = false -> Py.all_chars Py.isdigit s ->
  Py.remove_underscores prev s = Some s.
Proof.
  unfold Py.all_chars. induction s as [|c s IH]; intros prev Hp H; cbn [Py.remove_underscores].
  - now rewrite Hp.
  - inversion H as [|? ? Hc Hr]; subst. cbn in Hr.
    assert (Hc' : (Py.isdigit c || Ascii.eqb c "-"%char) = true) by now rewrite Hc.
    destruct (numeral_char_facts c Hc') as (_ & _ & Hu & _).
    rewrite Hu, Hp. cbn [andb]. now rewrite (IH c Hu Hr).
Qed.

Lemma split_no_sep_one (sep : ascii) (s : string) :
  Py.all_chars (fun c => negb (Ascii.eqb c sep)) s -> Py.split sep s = [s].
Proof.
  unfold Py.all_chars. induction s as [|c s IH]; cbn; intros H; [reflexivity|].
  inversion H as [|? ? Hc Hr]; subst. apply negb_true_iff in Hc.
  now rewrite Hc, (IH Hr).
Qed.

(** Reading the numeral of [d] continues the number read so far. *)
Lemma take_digits_acc (d : Decimal.uint) : forall (acc : positive) (k : Z),
  Py.take_digits (NilEmpty.string_of_uint d) (Zpos acc) k
  = (Zpos (Pos.of_uint_acc d acc),
     k + Z.of_nat (String.length (NilEmpty.string_of_uint d)), EmptyString).
Proof.
  induction d; intros acc k;
    cbn [NilEmpty.string_of_uint Py.take_digits Pos.of_uint_acc String.length];
    [f_equal; f_equal; lia| | | | | | | | | |];
    match goal with
    | |- context [Py.isdigit ?c] => change (Py.isdigit c) with true; cbv iota
    end;
    match goal with
    | |- context [Py.code ?c - 48] =>
        let v := eval cbv in (Py.code c - 48) in change (Py.code c - 48) with v
    end;
    match goal with
    | |- Py.take_digits _ ?a _ = (Zpos (Pos.of_uint_acc _ ?b), _, _) =>
        replace a with (Zpos b) by lia
    end;
    rewrite IHd; f_equal; f_equal; lia.
Qed.

Lemma take_digits_uint (d : Decimal.uint) : forall k : Z,
  Py.take_digits (NilEmpty.string_of_uint d) 0 k
  = (Z.of_N (Pos.of_uint d),
     k + Z.of_nat (String.length (NilEmpty.string_of_uint d)), EmptyString).
Proof.
  induction d; intros k;
    cbn [NilEmpty.string_of_uint Py.take_digits Pos.of_uint String.length];
    [f_equal; f_equal; lia| | | | | | | | | |];
    match goal with
    | |- context [Py.isdigit ?c] => change (Py.isdigit c) with true; cbv iota
    end.
  1: { change (10 * 0 + (Py.code "0" - 48)) with 0. rewrite IHd. f_equal. f_equal. lia. }
  all: match goal with
       | |- Py.take_digits _ ?a _ = (Z.of_N (N.pos (Pos.of_uint_acc _ ?b)), _, _) =>
           change a with (Zpos b)
       end;
       rewrite take_digits_acc; cbn [Z.of_N]; f_equal; f_equal; lia.
Qed.

(** The numeral of a natural number: digits, at least one, that read
    back as the number. *)
Lemma str_of_nat_uint (n : Z) :
  0 <= n ->
  exists d, Py.str_of_int n = NilEmpty.string_of_uint d
            /\ Z.of_N (Pos.of_uint d) = n
            /\ (0 < String.length (NilEmpty.string_of_uint d))%nat.
Proof.
  intros Hn. unfold Py.str_of_int. destruct n as [|p|p]; [| |lia].
  - exists (Decimal.D0 Decimal.Nil). cbn. repeat split. lia.
  - exists (Pos.to_uint p). cbn [Z.to_int NilZero.string_of_int].
    pose proof (DecimalPos.Unsigned.to_uint_nonnil p) as Hnil.
    rewrite DecimalPos.Unsigned.of_to. split; [|split; [reflexivity|]].
    + unfold NilZero.string_of_uint. destruct (Pos.to_uint p); congruence.
    + destruct (Pos.to_uint p); [congruence|cbn; lia..].
Qed.

Lemma parse_decimal_digits (d : Decimal.uint) :
  (0 < String.length (NilEmpty.string_of_uint d))%nat ->
  Py.parse_decimal (NilEmpty.string_of_uint d) = Some (Z.of_N (Pos.of_uint d), 0).
Proof.
  intros Hl. unfold Py.parse_decimal. rewrite take_digits_uint.
  replace (0 + Z.of_nat (String.length (NilEmpty.string_of_uint d)) + 0 =? 0) with false
    by (symmetry; apply Z.eqb_neq; lia).
  reflexivity.
Qed.

Lemma decimal_to_SF_int (s : bool) (n : Z) :
  0 <= n -> Py.decimal_to_SF s n 0 = binary_normalize prec emax (cond_Zopp s n) 0 s.
Proof.
  intros Hn. unfold Py.decimal_to_SF.
  destruct (Z.eqb_spec n 0) as [->|Hz]; [now destruct s|].
  change (400 <? 0) with false. cbv iota.
  replace (0 + ((Z.log2 n + 1) / 3 + 1) <? -400) with false.
  - change (0 <=? 0) with true. cbv iota. now rewrite Z.mul_1_r.
  - symmetry. apply Z.ltb_ge.
    pose proof (Z.log2_nonneg n). assert (0 <= (Z.log2 n + 1) / 3) by (apply Z.div_pos; lia).
    lia.
Qed.

Lemma binary_round_aux_opp (sx : bool) (m e : Z) (l : location) :
  binary_round_aux prec emax (negb sx) m e l
  = SFopp (binary_round_aux prec emax sx m e l).
Proof.
  unfold binary_round_aux.
  destruct (shr_fexp prec emax m e l) as [mrs' e'].
  destruct (shr_fexp prec emax _ e' loc_Exact) as [mrs'' e''].
  destruct (shr_m mrs''); [reflexivity| |reflexivity].
  destruct (e'' <=? emax - prec); reflexivity.
Qed.

Lemma binary_normalize_opp (n : Z) :
  binary_normalize prec emax (- n) 0 true = SFopp (binary_normalize prec emax n 0 false).
Proof.
  destruct n as [|p|p]; cbn [Z.opp binary_normalize SFopp negb]; [reflexivity| |].
  - unfold binary_round. destruct (shl_align p 0 _). apply (binary_round_aux_opp false).
  - unfold binary_round. destruct (shl_align p 0 _).
    rewrite (binary_round_aux_opp false). now destruct (binary_round_aux _ _ _ _ _ _) as [[]|[]| |[] ? ?].
Qed.

Lemma float_of_nat_SF (n : Z) :
  0 <= n < 2 ^ 63 ->
  SF2Prim (binary_normalize prec emax n 0 false) = Py.float_of_int n.
Proof.
  intros Hn. unfold Py.float_of_int.
  replace (0 <=? n) with true by (symmetry; apply Z.leb_le; lia).
  rewrite <- (SF2Prim_Prim2SF (of_uint63 (Uint63.of_Z n))), of_uint63_spec.
  change (Uint63Axioms.to_Z (Uint63.of_Z n)) with (Uint63.to_Z (Uint63.of_Z n)).
  rewrite Uint63.of_Z_spec, Z.mod_small; [reflexivity|]. change Uint63.wB with (2 ^ 63). exact Hn.
Qed.

Lemma parse_float_digits (d : Decimal.uint) :
  (0 < String.length (NilEmpty.string_of_uint d))%nat ->
  Py.parse_float (NilEmpty.string_of_uint d)
  = Some (Py.decimal_to_SF false (Z.of_N (Pos.of_uint d)) 0)
  /\ Py.parse_float (String "-" (NilEmpty.string_of_uint d))
     = Some (Py.decimal_to_SF true (Z.of_N (Pos.of_uint d)) 0).
Proof.
  intros Hl. pose proof (string_of_uint_digits d) as Hd.
  assert (Hn : Py.all_chars (fun c => Py.isdigit c || Ascii.eqb c "-"%char)
                 (NilEmpty.string_of_uint d)).
  { eapply all_chars_impl; [|exact Hd]. cbn. now intros c ->. }
  pose proof (parse_decimal_digits d Hl) as Hp.
  pose proof (lower_str_numeral _ Hn) as Hlow.
  destruct (NilEmpty.string_of_uint d) as [|c s] eqn:E; [cbn in Hl; lia|].
  assert (Hc : Py.isdigit c = true) by (inversion Hd; assumption).
  destruct (digit_char_facts c Hc) as (Hm & Hplus & Hi & Hnn).
  assert (Hsign : Py.take_sign (String c s) = (false, String c s)).
  { unfold Py.take_sign.
    revert Hm Hplus. clear.
    destruct c as [[] [] [] [] [] [] [] []]; cbv; intros; try discriminate; reflexivity. }
  assert (Hkw : (String.eqb (String c s) "inf" || String.eqb (String c s) "infinity"
                 || String.eqb (String c s) "nan")%bool = false).
  { cbn [String.eqb]. now rewrite Hi, Hnn. }
  split.
  - unfold Py.parse_float. rewrite (float_strip_numeral _ Hn).
    rewrite (remove_underscores_digits _ "000"%char eq_refl Hd).
    rewrite Hsign, Hlow.
    apply orb_false_iff in Hkw as [Hkw1 Hkw2]. apply orb_false_iff in Hkw1 as [Hk1 Hk2].
    rewrite Hk1, Hk2, Hkw2. cbn [orb]. rewrite Hp. reflexivity.
  - unfold Py.parse_float. rewrite float_strip_numeral by (constructor; [reflexivity|exact Hn]).
    change (Py.remove_underscores "000" (String "-" (String c s)))
      with (option_map (String "-") (Py.remove_underscores "-" (String c s))).
    rewrite (remove_underscores_digits _ "-"%char eq_refl Hd). cbn [option_map Py.take_sign].
    rewrite Hlow.
    apply orb_false_iff in Hkw as [Hkw1 Hkw2]. apply orb_false_iff in Hkw1 as [Hk1 Hk2].
    rewrite Hk1, Hk2, Hkw2. cbn [orb]. rewrite Hp. reflexivity.
Qed.

Lemma float_of_str_int (n : Z) :
  - 2 ^ 63 < n < 2 ^ 63 ->
  Py.float_of_str (Py.str_of_int n) = inr (Py.float_of_int n).
Proof.
  intros Hn. unfold Py.float_of_str.
  destruct (Z.leb_spec 0 n) as [Hpos|Hneg].
  - destruct (str_of_nat_uint n Hpos) as (d & -> & Hv & Hl).
    destruct (parse_float_digits d Hl) as [-> _]. unfold Py.ret. f_equal.
    rewrite Hv, decimal_to_SF_int by exact Hpos. cbn [cond_Zopp].
    apply float_of_nat_SF. lia.
  - assert (Hs : Py.str_of_int n = String "-" (Py.str_of_int (- n))).
    { unfold Py.str_of_int. destruct n; try lia. reflexivity. }
    rewrite Hs. destruct (str_of_nat_uint (- n) ltac:(lia)) as (d & -> & Hv & Hl).
    destruct (parse_float_digits d Hl) as [_ ->]. unfold Py.ret. f_equal.
    rewrite Hv, decimal_to_SF_int by lia. cbn [cond_Zopp].
    rewrite binary_normalize_opp.
    unfold Py.float_of_int. replace (0 <=? n) with false by (symmetry; apply Z.leb_gt; lia).
    rewrite <- (SF2Prim_Prim2SF (- of_uint63 (Uint63.of_Z (- n)))), opp_spec, of_uint63_spec.
    change (Uint63Axioms.to_Z (Uint63.of_Z (- n))) with (Uint63.to_Z (Uint63.of_Z (- n))).
    rewrite Uint63.of_Z_spec, Z.mod_small; [reflexivity|]. change Uint63.wB with (2 ^ 63). lia.
Qed.

Lemma str_of_int_not_empty (n : Z) : Py.str_of_int n <> EmptyString.
Proof.
  unfold Py.str_of_int.
  destruct (Z.to_int n) as [d|d] eqn:E; cbn [NilZero.string_of_int]; [|discriminate].
  unfold NilZero.string_of_uint. destruct d; try discriminate.
Qed.

(** X5. The numeral that Python prints for an integer is read back by
    [float] as that integer converted to a float (exactly, below
    [2^53]); typed alone in the offsets field it gives that one offset. *)
Theorem integer_literal_exact (n : Z) :
  - 2 ^ 63 < n < 2 ^ 63 ->
  Py.float_of_str (Py.str_of_int n) = inr (Py.float_of_int n)
  /\ App.offsets2 (Py.str_of_int n) = inr [Py.float_of_int n].
Proof.
  intros Hn. pose proof (float_of_str_int n Hn) as Hf. split; [exact Hf|].
  pose proof (str_of_int_chars n) as Hc.
  unfold App.offsets2. rewrite split_no_sep_one.
  - cbn [filter]. rewrite (strip_numeral _ Hc).
    destruct (Py.str_of_int n) eqn:E; [now apply str_of_int_not_empty in E|].
    cbn [Py.truthy Py.mapM]. rewrite (strip_numeral _ Hc), Hf. reflexivity.
  - eapply all_chars_impl; [|exact Hc]. cbn. intros c H.
    destruct (numeral_char_facts c H) as (_ & _ & _ & -> & _). reflexivity.
Qed.

Lemma integer_literal_exact_witness :
  - 2 ^ 63 < 100 < 2 ^ 63
  /\ Py.float_of_str (Py.str_of_int 100) = inr (Py.float_of_int 100)
  /\ App.offsets2 (Py.str_of_int 100) = inr [Py.float_of_int 100].
Proof. split; [lia|apply (integer_literal_exact 100); lia]. Defined.

(** ** The offset set *)

(** X6. With the depth slider at 1 or more the offset set is never
    empty: it starts with [10**-1], and holds one offset for each
    depth step and one for each piece of the field that is not blank. *)
Theorem all_offsets_shape (depth : Z) (raw : string) :
  1 <= depth ->
  match App.all_offsets depth raw with
  | inr l =>
      (exists rest, l = App.pow10_neg 1 :: rest)
      /\ List.length l
         = (Z.to_nat depth
            + List.length (filter (fun x => Py.truthy (Py.strip x)) (Py.split "," raw)))%nat
  | inl e => e = Py.ValueError
  end.
Proof.
  intros Hd. unfold App.all_offsets.
  pose proof (offsets2_spec raw) as H2.
  destruct (App.offsets2 raw) as [e|l2] eqn:E; cbn [Py.bind Py.ret]; [exact (proj1 H2)|].
  split.
  - unfold App.offsets1. rewrite range_cons by lia. cbn [map app]. eauto.
  - rewrite length_app, offsets1_length. f_equal.
    unfold App.offsets2 in E. now apply mapM_length in E.
Qed.

Lemma all_offsets_shape_witness :
  1 <= 5 /\
  match App.all_offsets 5 "1, 10, 100" with
  | inr l =>
      (exists rest, l = App.pow10_neg 1 :: rest)
      /\ List.length l
         = (Z.to_nat 5
            + List.length (filter (fun x => Py.truthy (Py.strip x))
                                  (Py.split "," "1, 10, 100")))%nat
  | inl e => e = Py.ValueError
  end.
Proof. split; [lia|apply (all_offsets_shape 5 "1, 10, 100"); lia]. Defined.

(** ** Entry names *)

Lemma str_of_int_inj (a b : Z) : Py.str_of_int a = Py.str_of_int b -> a = b.
Proof.
  unfold Py.str_of_int. intros H.
  assert (Hn : forall n, NilZero.int_of_string (NilZero.string_of_int (Z.to_int n))
                         = Some (Z.to_int n)).
  { intros n. apply NilZero.isi; destruct n; cbn; try discriminate;
      intros [= E]; now apply DecimalPos.Unsigned.to_uint_nonnil in E. }
  pose proof (Hn a) as Ha. rewrite H, Hn in Ha. injection Ha as Ha.
  rewrite <- (DecimalZ.of_to a), <- (DecimalZ.of_to b). now rewrite Ha.
Qed.

Lemma app_sep_inj (sep : ascii) (s1 : string) : forall (s2 r1 r2 : string),
  ~ In sep (list_ascii_of_string s1) -> ~ In sep (list_ascii_of_string s2) ->
  (s1 ++ String sep r1 = s2 ++ String sep r2)%string -> s1 = s2.
Proof.
  induction s1 as [|c s1 IH]; intros [|c2 s2] r1 r2 H1 H2; cbn.
  - reflexivity.
  - intros [= <- _]. exfalso. apply H2. now left.
  - intros [= -> _]. exfalso. apply H1. now left.
  - intros [= <- E]. f_equal. apply (IH s2 r1 r2); [| |exact E].
    + intros Hin. apply H1. now right.
    + intros Hin. apply H2. now right.
Qed.

Lemma str_of_int_no_underscore (n : Z) :
  ~ In "_"%char (list_ascii_of_string (Py.str_of_int n)).
Proof.
  intros Hin. pose proof (str_of_int_chars n) as H. unfold Py.all_chars in H.
  rewrite Forall_forall in H. specialize (H _ Hin). discriminate.
Qed.

Lemma fname_index_inj (i j : Z) (b b' o o' : float) (sr sr' : Z) (fmt fmt' : string) :
  App.fname i b o sr fmt = App.fname j b' o' sr' fmt' -> i = j.
Proof.
  unfold App.fname. cbn [String.append]. intros H.
  apply app_sep_inj in H; try apply str_of_int_no_underscore.
  apply str_of_int_inj in H. lia.
Qed.

Lemma count_from_NoDup (n : nat) : forall a : Z, NoDup (Py.count_from a n).
Proof.
  induction n as [|n IH]; intros a; cbn [Py.count_from]; constructor; [|apply IH].
  intros Hin. apply count_from_bounds in Hin. lia.
Qed.

Lemma NoDup_map_key {A B C} (key : C -> A) (f : C -> B) (l : list C) :
  (forall x y, f x = f y -> key x = key y) ->
  NoDup (map key l) -> NoDup (map f l).
Proof.
  intros Hinj. induction l as [|a l IH]; cbn; intros H; [constructor|].
  inversion H as [|? ? Hnin Hnd]; subst. constructor; [|now apply IH].
  intros Hin. apply in_map_iff in Hin as (y & Hy & Hiny). apply Hnin.
  apply Hinj in Hy. rewrite <- Hy. now apply in_map.
Qed.

Lemma rstrip_with_keep (p : ascii -> bool) (c : ascii) (a : string) :
  p c = false ->
  Py.rstrip_with p (a ++ String c EmptyString) = (a ++ String c EmptyString)%string.
Proof.
  intros Hc. induction a as [|x a IH]; cbn [String.append Py.rstrip_with].
  - now rewrite Hc.
  - rewrite IH. now destruct a.
Qed.

Lemma div_half_even_exact (q d : Z) : 0 < d -> Py.div_half_even (q * d) d = q.
Proof.
  intros Hd. unfold Py.div_half_even.
  assert (E : Z.div_eucl (q * d) d = (q * d / d, (q * d) mod d)).
  { unfold Z.div, Z.modulo. now destruct (Z.div_eucl (q * d) d). }
  rewrite E, Z_div_mult, Z_mod_mult by lia.
  change (2 * 0) with 0. now rewrite (proj2 (Z.compare_lt_iff 0 d) Hd).
Qed.

Lemma str_of_int_sign (s : bool) (a k : Z) :
  0 < a -> k = cond_Zopp s a ->
  ((if s then "-" else EmptyString) ++ Py.str_of_int a)%string = Py.str_of_int k.
Proof.
  intros Ha ->. destruct a as [|p|p]; try lia. now destruct s.
Qed.

(** X7. An offset whose value is a whole number other than zero is
    printed in the entry name as that integer: the fifteen zeros and the
    decimal point that [.15f] writes are stripped. *)
Theorem clean_off_integral (x : float) (k num den : Z) :
  Spec.exact (Prim2SF x) = Some (num, den) -> num = k * den -> k <> 0 ->
  App.clean_off x = Py.str_of_int k.
Proof.
  intros Hex Hk Hnz. unfold App.clean_off, Py.format_fixed.
  unfold Spec.exact in Hex.
  destruct (Prim2SF x) as [s|s| |s m e]; try discriminate Hex.
  { injection Hex as <- <-. lia. }
  assert (Hnd : num = cond_Zopp s (Zpos m * 2 ^ Z.max e 0) /\ den = 2 ^ Z.max (- e) 0).
  { injection Hex as <- <-. split; reflexivity. }
  destruct Hnd as [-> ->]. clear Hex.
  set (pw := 10 ^ Z.of_nat 15).
  assert (Hpw : 0 < pw) by (unfold pw; apply Z.pow_pos_nonneg; lia).
  assert (Hn : exists a, 0 < a /\ k = cond_Zopp s a
                         /\ (if 0 <=? e then Zpos m * pw * 2 ^ e
                             else Py.div_half_even (Zpos m * pw) (2 ^ (- e))) = a * pw).
  { destruct (Z.leb_spec 0 e) as [He|He].
    - rewrite Z.max_l, Z.max_r in Hk by lia. rewrite Z.pow_0_r in Hk.
      exists (Zpos m * 2 ^ e). assert (0 < 2 ^ e) by (apply Z.pow_pos_nonneg; lia).
      split; [apply Z.mul_pos_pos; lia|]. split; [|ring].
      rewrite Z.mul_1_r in Hk. now symmetry.
    - rewrite Z.max_r, Z.max_l in Hk by lia. rewrite Z.pow_0_r, Z.mul_1_r in Hk.
      assert (Hp : 0 < 2 ^ (- e)) by (apply Z.pow_pos_nonneg; lia).
      exists (Z.abs k).
      assert (Hm : Zpos m = Z.abs k * 2 ^ (- e)).
      { destruct s; cbn [cond_Zopp] in Hk.
        - assert (k < 0) by nia. rewrite Z.abs_neq, Z.mul_opp_l by lia. lia.
        - assert (0 < k) by nia. rewrite Z.abs_eq by lia. lia. }
      split; [lia|]. split.
      + destruct s; cbn [cond_Zopp] in *.
        * assert (k < 0) by nia. lia.
        * assert (0 < k) by nia. lia.
      + rewrite Hm. replace (Z.abs k * 2 ^ (- e) * pw) with (Z.abs k * pw * 2 ^ (- e)) by ring.
        now apply div_half_even_exact. }
  destruct Hn as (a & Ha & Hka & ->).
  rewrite Z_div_mult, Z_mod_mult by lia.
  change (Py.zfill 15 (Py.str_of_int 0)) with "000000000000000"%string.
  rewrite <- (str_of_int_sign s a k Ha Hka).
  set (S := ((if s then "-" else EmptyString) ++ Py.str_of_int a)%string).
  assert (HS : Py.all_chars (fun c => Py.isdigit c || Ascii.eqb c "-"%char) S).
  { unfold S. rewrite (str_of_int_sign s a k Ha Hka). apply str_of_int_chars. }
  replace ((if s then "-" else EmptyString)
           ++ Py.str_of_int a ++ "." ++ "000000000000000")%string
    with ((S ++ ".") ++ "000000000000000")%string
    by (unfold S; now rewrite !append_assoc).
  unfold Py.rstrip.
  rewrite rstrip_with_app_all by (repeat constructor).
  rewrite (rstrip_with_keep (Ascii.eqb "0") "." S eq_refl).
  rewrite rstrip_with_app_all by (repeat constructor).
  apply rstrip_with_none. eapply all_chars_impl; [|exact HS]. cbv beta. intros c Hc.
  destruct (numeral_char_facts c Hc) as (_ & _ & _ & _ & _ & ->). reflexivity.
Qed.

Lemma clean_off_integral_witness : App.clean_off 100 = Py.str_of_int 100.
Proof.
  apply (clean_off_integral 100 100 7036874417766400 70368744177664).
  - reflexivity.
  - reflexivity.
  - discriminate.
Defined.

(** X8. The offsets of the depth slider print as exact decimals in the
    entry names: [10**-i] gives [0.0...01] with [i] decimals, for every
    depth from 1 to 15. *)
Theorem depth_offset_names (i : Z) :
  1 <= i <= 15 ->
  App.clean_off (App.pow10_neg i)
  = ("0." ++ Py.repeat_char "0" (Z.to_nat (i - 1)) ++ "1")%string.
Proof.
  intros Hi.
  assert (H : forallb (fun i => String.eqb (App.clean_off (App.pow10_neg i))
                                  ("0." ++ Py.repeat_char "0" (Z.to_nat (i - 1)) ++ "1"))
                      (Py.range 1 16) = true) by (vm_compute; reflexivity).
  rewrite forallb_forall in H. apply String.eqb_eq. apply H. apply range_In. lia.
Qed.

Lemma depth_offset_names_witness :
  1 <= 3 <= 15 /\ App.clean_off (App.pow10_neg 3) = "0.001"%string.
Proof. split; [lia|apply (depth_offset_names 3); lia]. Defined.

(** ** Codes *)


Lemma SFmul_opp_l (x y : spec_float) :
  SFmul prec emax (SFopp x) y = SFopp (SFmul prec emax x y).
Proof.
  destruct x as [sx|sx| |sx mx ex], y as [sy|sy| |sy my ey]; cbn [SFmul SFopp];
    try reflexivity; try (now destruct sx, sy).
  rewrite <- binary_round_aux_opp. now destruct sx, sy.
Qed.

Lemma mul_opp_l (x y : float) : Prim2SF (- x * y) = SFopp (Prim2SF (x * y)).
Proof. rewrite !mul_spec, opp_spec. apply SFmul_opp_l. Qed.

Lemma astype_opp (x : float) :
  (abs x <=? 1)%float = true ->
  Np.astype_int16 (- x * 32767)%float
  = option_map Z.opp (Np.astype_int16 (x * 32767)%float).
Proof.
  intros H. destruct (astype_int16_scaled x H) as (z & Hz & Hr).
  rewrite Hz. cbn [option_map]. revert Hz.
  unfold Np.astype_int16, Np.trunc. rewrite mul_opp_l.
  destruct (Prim2SF (x * 32767)) as [s|s| |s m e]; cbn [SFopp]; try discriminate.
  - intros [= <-]. reflexivity.
  - set (v := if 0 <=? e then Zpos m * 2 ^ e else Zpos m / 2 ^ (- e)).
    destruct ((-32768 <=? cond_Zopp s v) && (cond_Zopp s v <=? 32767)); [|discriminate].
    intros [= <-].
    replace (cond_Zopp (negb s) v) with (- cond_Zopp s v)
      by (destruct s; cbn [cond_Zopp negb]; lia).
    replace ((-32768 <=? - cond_Zopp s v) && (- cond_Zopp s v <=? 32767)) with true;
      [reflexivity|].
    symmetry. apply andb_true_intro. split; apply Z.leb_le; lia.
Qed.

(** X9. Quantization is symmetric about zero: for samples of magnitude
    at most one, the negated sample converts to the negated code, on
    each channel. *)
Theorem quantization_odd (final : list (float * float)) :
  Forall (fun '(l, r) => (abs l <=? 1)%float = true /\ (abs r <=? 1)%float = true) final ->
  App.to_int16 (map (fun '(l, r) => (- l, - r)%float) final)
  = map (fun '(cl, cr) => (option_map Z.opp cl, option_map Z.opp cr))
        (App.to_int16 final).
Proof.
  unfold App.to_int16. rewrite !map_map.
  induction final as [|[l r] final IH]; intros H; [reflexivity|].
  inversion H as [|? ? Hhd Hrest]; subst. destruct Hhd as [Hl Hr]. cbn [map].
  rewrite (astype_opp l Hl), (astype_opp r Hr). f_equal. now apply IH.
Qed.

Lemma quantization_odd_witness :
  App.to_int16 (map (fun '(l, r) => (- l, - r)%float) [(0.25, -1); (0.75, 0)]%float)
  = map (fun '(cl, cr) => (option_map Z.opp cl, option_map Z.opp cr))
        (App.to_int16 [(0.25, -1); (0.75, 0)]%float).
Proof. apply quantization_odd. repeat constructor. Defined.

Lemma Forall2_map_self {A B} (R : A -> B -> Prop) (f : A -> B) (l : list A) :
  (forall x, In x l -> R x (f x)) -> Forall2 R l (map f l).
Proof.
  induction l as [|a l IH]; intros H; cbn [map]; constructor.
  - apply H. now left.
  - apply IH. intros x Hx. apply H. now right.
Qed.

(** A number that is neither above one nor below minus one has
    magnitude at most one. *)
Lemma between_abs_le_one (y : float) :
  is_nan y = false -> (1 <? y)%float = false -> (y <? -1)%float = false ->
  (abs y <=? 1)%float = true.
Proof.
  rewrite is_nan_false, !ltb_spec, leb_spec, abs_spec, Prim2SF_one.
  change (Prim2SF (-1)) with (S754_finite true m_one (-52)).
  unfold SFltb, SFleb.
  destruct (Prim2SF y) as [s|[]| |[] m e]; cbn [SFcompare SFabs]; intros Hn H1 H2;
    try reflexivity; try discriminate; try congruence.
  - revert H2. generalize m_one. intros p.
    destruct (e ?= -52); [|reflexivity|discriminate].
    match goal with |- context [?f Eq m p] => now destruct (f Eq m p) end.
  - revert H1. generalize m_one. intros p.
    rewrite (Z.compare_antisym e (-52)).
    pose proof (Pos.compare_cont_antisym m p Eq) as Ha. cbn [CompOpp] in Ha.
    rewrite <- Ha.
    destruct (e ?= -52); cbn [CompOpp]; [|reflexivity|discriminate].
    match goal with |- context [?f Eq m p] => now destruct (f Eq m p) end.
Qed.

Lemma Ref_sin_bounded (x : float) :
  is_nan (Ref.sin x) = false -> (abs (Ref.sin x) <=? 1)%float = true.
Proof.
  unfold Ref.sin. destruct (negb (is_finite x)); [discriminate|].
  cbv zeta.
  set (y := Ref.taylor _ _ _ _ _).
  destruct (1 <? y)%float eqn:H1; [reflexivity|].
  destruct (y <? -1)%float eqn:H2; [reflexivity|].
  intros Hn. now apply between_abs_le_one.
Qed.

(** ** Lists and letters *)

Lemma lower_idem (c : ascii) : Py.lower (Py.lower c) = Py.lower c.
Proof.
  destruct c as [[] [] [] [] [] [] [] []]; reflexivity.
Qed.

Lemma lower_str_idem (s : string) : Py.lower_str (Py.lower_str s) = Py.lower_str s.
Proof. induction s as [|c s IH]; cbn; [reflexivity|]. now rewrite lower_idem, IH. Qed.

Lemma count_from_app (n m : nat) : forall a : Z,
  Py.count_from a (n + m) = Py.count_from a n ++ Py.count_from (a + Z.of_nat n) m.
Proof.
  induction n as [|n IH]; intros a; cbn [Py.count_from Nat.add app].
  - now rewrite Z.add_0_r.
  - rewrite IH. do 3 f_equal. lia.
Qed.

Lemma range_app (a b c : Z) :
  a <= b <= c -> Py.range a c = Py.range a b ++ Py.range b c.
Proof.
  intros H. unfold Py.range.
  replace (Z.to_nat (c - a)) with (Z.to_nat (b - a) + Z.to_nat (c - b))%nat by lia.
  rewrite count_from_app. do 2 f_equal. lia.
Qed.

(** ** The engine *)

Section Engine.

Variable np_sin : float -> float.
Variable pydub_export : App.AudioSegment -> string -> Py.result App.bytes.

(** X10. [export_buffer] is blind to the letter case of the format
    name: names with the same lower-case form export alike, a name and
    its lower-case form among them, and lower-casing changes no character
    of the name that the encoder is handed. *)
Theorem export_buffer_case (seg : App.AudioSegment) (fmt : string) :
  App.export_buffer pydub_export seg (Py.lower_str fmt)
  = App.export_buffer pydub_export seg fmt
  /\ (forall fmt', Py.lower_str fmt' = Py.lower_str fmt ->
        App.export_buffer pydub_export seg fmt' = App.export_buffer pydub_export seg fmt)
  /\ (exists low,
        App.export_buffer pydub_export seg fmt = pydub_export seg low
        /\ Py.all_chars (fun c => Ascii.eqb (Py.lower c) c) low).
Proof.
  unfold App.export_buffer. split; [now rewrite lower_str_idem|].
  split; [now intros fmt' -> |].
  exists (Py.lower_str fmt). split; [reflexivity|]. unfold Py.all_chars.
  induction fmt as [|c s IH]; cbn; constructor; [|exact IH].
  rewrite lower_idem. apply Ascii.eqb_refl.
Qed.

(** X11. The segment of one offset has the chosen frame rate and
    [sample_rate * duration] frames, with or without the reference
    channel: it lasts [duration] seconds. *)
Theorem segment_shape (base offset : float) (sr d : Z) (incl : bool) :
  let seg := App.create_audio_segment np_sin base offset sr d incl in
  App.frame_rate seg = sr
  /\ List.length (App.frames seg) = Z.to_nat (sr * d)
  /\ (0 <= sr * d -> Z.of_nat (List.length (App.frames seg)) = App.frame_rate seg * d).
Proof.
  cbn zeta. unfold App.create_audio_segment. cbn [App.frame_rate App.frames].
  assert (H : List.length
                (App.to_int16
                   (App.assemble np_sin incl base
                      (App.tone np_sin (base + offset) (App.time_grid sr d))
                      (App.time_grid sr d))) = Z.to_nat (sr * d)).
  { rewrite to_int16_length, assemble_length by apply tone_length. apply time_grid_length. }
  split; [reflexivity|]. split; [exact H|]. intros Hp. rewrite H. lia.
Qed.

(** The frame of the instant [tk]. *)
Lemma frames_pointwise (base offset : float) (sr d : Z) (incl : bool) :
  App.frames (App.create_audio_segment np_sin base offset sr d incl)
  = map (fun tk =>
           (Np.astype_int16
              (np_sin (Py.float_of_int 2 * Np.pi * (base + offset) * tk) * 32767)%float,
            Np.astype_int16
              (np_sin (Py.float_of_int 2 * Np.pi
                       * (if incl then base else (base + offset)%float) * tk) * 32767)%float))
        (App.time_grid sr d).
Proof.
  unfold App.create_audio_segment. cbn [App.frames].
  unfold App.assemble, Np.vstack_T, App.tone, App.to_int16.
  destruct incl; rewrite combine_map_same, map_map; reflexivity.
Qed.

(** X12. For the rates and durations of the page the time grid does not
    depend on the duration: a longer duration extends the grid, and the
    segment of one offset starts with the frames of the shorter one. *)
Theorem longer_duration_extends (base offset : float) (sr d d' : Z) (incl : bool) :
  In sr App.rates -> 1 <= d <= d' -> d' <= 120 ->
  (exists rest, App.time_grid sr d' = App.time_grid sr d ++ rest)
  /\ firstn (Z.to_nat (sr * d))
            (App.frames (App.create_audio_segment np_sin base offset sr d' incl))
     = App.frames (App.create_audio_segment np_sin base offset sr d incl).
Proof.
  intros Hsr Hd Hd'.
  assert (Hpos : 0 < sr) by (pose proof (rates_pos sr 1 Hsr); lia).
  assert (Hgrid : App.time_grid sr d'
                  = App.time_grid sr d
                    ++ map (App.grid_point sr d') (Py.range (sr * d) (sr * d'))).
  { rewrite !time_grid_points, (range_app 0 (sr * d) (sr * d')) by nia.
    rewrite map_app. f_equal. apply map_ext. intros k.
    now rewrite !grid_point_step by (try assumption; lia). }
  split; [eauto|].
  rewrite !frames_pointwise, Hgrid, map_app.
  match goal with |- firstn _ (?a ++ _) = _ => set (l := a) end.
  assert (Hl : List.length l = Z.to_nat (sr * d))
    by (unfold l; rewrite length_map; apply time_grid_length).
  rewrite <- Hl, firstn_app, Nat.sub_diag, firstn_all. cbn [firstn]. apply app_nil_r.
Qed.

Lemma tone_codes (f : float) (t : list float) :
  (forall x, is_nan (np_sin x) = false -> (abs (np_sin x) <=? 1)%float = true) ->
  Forall2 (fun s c => if is_nan s then c = None
                      else exists z, c = Some z /\ -32767 <= z <= 32767)
          (App.tone np_sin f t)
          (map (fun s => Np.astype_int16 (s * 32767)%float) (App.tone np_sin f t)).
Proof.
  intros Hsin. apply Forall2_map_self. intros x Hx.
  unfold App.tone in Hx. apply in_map_iff in Hx as (tk & <- & _).
  destruct (is_nan (np_sin _)) eqn:E; [now apply astype_nan|].
  apply astype_int16_scaled. now apply Hsin.
Qed.

(** X13. When the sine stays within [[-1, 1]] wherever it is a number,
    as [np.sin] does, the segment of one offset never leaves the 16-bit
    range: on both channels a sample has a code between -32767 and 32767,
    unless it is NaN, and then its code is undefined. *)
Theorem individual_codes (base offset : float) (sr d : Z) (incl : bool) :
  (forall x, is_nan (np_sin x) = false -> (abs (np_sin x) <=? 1)%float = true) ->
  let t := App.time_grid sr d in
  let seg := App.create_audio_segment np_sin base offset sr d incl in
  Forall2 (fun s c => if is_nan s then c = None
                      else exists z, c = Some z /\ -32767 <= z <= 32767)
          (App.tone np_sin (base + offset) t) (map fst (App.frames seg))
  /\ Forall2 (fun s c => if is_nan s then c = None
                         else exists z, c = Some z /\ -32767 <= z <= 32767)
             (App.tone np_sin (if incl then base else (base + offset)%float) t)
             (map snd (App.frames seg)).
Proof.
  intros Hsin t seg.
  destruct (channels np_sin base offset sr d incl []) as (Hfr & Hl & Hr & _).
  subst seg. rewrite Hfr, map_fst_to_int16, map_snd_to_int16, Hl, Hr.
  split; [now apply tone_codes|].
  destruct incl; now apply tone_codes.
Qed.

(** X14. The reference channel is the same in both modes: with the
    reference switched on, the right channel of the sweep holds the codes
    of the right channel of every single-offset segment, whatever the
    offsets; the normalization does not touch it. *)
Theorem reference_channel_same (base offset : float) (offsets : list float)
    (sr d : Z) :
  match App.sweep_final np_sin base offsets sr d true with
  | inr final =>
      map snd (App.to_int16 final)
      = map snd (App.frames (App.create_audio_segment np_sin base offset sr d true))
      /\ map snd (App.to_int16 final)
         = map (fun s => Np.astype_int16 (s * 32767)%float)
               (App.tone np_sin base (App.time_grid sr d))
  | inl _ => True
  end.
Proof.
  destruct (channels np_sin base offset sr d true offsets) as (Hfr & _ & Hr & Hsw).
  destruct (App.normalize _) as [e|mixed].
  - now rewrite Hsw.
  - destruct Hsw as (final & -> & _ & Hr'). 
    rewrite Hfr, !map_snd_to_int16, Hr, Hr'. split; reflexivity.
Qed.

(** X15. The sweep branch fails in [np.max], with [ValueError], when the time
    grid has no sample, which the sliders rule out.  On a grid that is not empty
    the only error is the encoder's, and the download is the encoded
    segment, of [sample_rate * duration] frames at the chosen rate,
    under the name [sweep_<base_freq>Hz.<format>]. *)
Theorem sweep_result (base : float) (offsets : list float) (sr d : Z)
    (incl : bool) (fmt : string) :
  (sr * d = 0 ->
   App.sweep np_sin pydub_export base offsets sr d incl fmt = inl Py.ValueError)
  /\ (0 < sr * d ->
      exists final,
        App.sweep_final np_sin base offsets sr d incl = inr final
        /\ List.length final = Z.to_nat (sr * d)
        /\ App.sweep np_sin pydub_export base offsets sr d incl fmt
           = match pydub_export {| App.frame_rate := sr; App.frames := App.to_int16 final |}
                                (Py.lower_str fmt) with
             | inr out_file =>
                 inr (App.SweepFile out_file
                        ("sweep_" ++ Py.float_repr base ++ "Hz." ++ fmt))
             | inl e => inl e
             end).
Proof.
  split.
  - intros H. unfold App.sweep, App.sweep_final.
    rewrite (time_grid_nil sr d) by lia.
    pose proof (mix_length np_sin base offsets []) as Hl. cbn in Hl.
    apply length_zero_iff_nil in Hl. rewrite Hl. reflexivity.
  - intros H. unfold App.sweep, App.sweep_final.
    pose proof (normalize_cases (App.mix np_sin base offsets (App.time_grid sr d))) as Hn.
    pose proof (mix_length np_sin base offsets (App.time_grid sr d)) as Hl.
    rewrite time_grid_length in Hl.
    destruct (App.mix np_sin base offsets (App.time_grid sr d)) as [|x l] eqn:E.
    + cbn in Hl. lia.
    + rewrite Hn. cbn [Py.bind Py.ret].
      eexists. split; [reflexivity|]. split.
      * rewrite assemble_length; [apply time_grid_length|].
        rewrite length_map, time_grid_length. exact Hl.
      * unfold App.export_buffer.
        destruct (pydub_export _ _); reflexivity.
Qed.


(** X17. A mix that is zero everywhere (tones that cancel, or a tone
    of frequency zero) raises no error: its peak is zero, every sample of
    the left channel is the NaN of [0 / 0], and no sample has a defined
    16-bit code. *)
Theorem sweep_silent_mix (base : float) (offsets : list float) (sr d : Z)
    (incl : bool) (peak : float) :
  Np.max (Np.abs (App.mix np_sin base offsets (App.time_grid sr d))) = inr peak ->
  is_zero peak = true ->
  exists final,
    App.sweep_final np_sin base offsets sr d incl = inr final
    /\ List.length final = Z.to_nat (sr * d)
    /\ Forall (fun x => is_nan x = true) (map fst final)
    /\ Forall (fun c => c = None) (map fst (App.to_int16 final)).
Proof.
  intros Hmax Hz.
  destruct (sweep_final_with_peak np_sin base offsets sr d incl peak Hmax) as (final & Hfin & Hl).
  exists final. split; [exact Hfin|].
  assert (Hn : is_nan peak = false).
  { apply is_nan_false. apply is_zero_SF in Hz as [s ->]. discriminate. }
  destruct (max_upper _ _ Hmax Hn) as [_ Hall]. unfold Np.abs in Hall.
  assert (Hnan : Forall (fun x => is_nan x = true) (map fst final)).
  { rewrite Hl. rewrite Forall_forall in *. intros y Hy.
    apply in_map_iff in Hy as (x & <- & Hx).
    apply div_zero_zero; [|exact Hz].
    apply (abs_le_zero x peak Hz). apply Hall. now apply in_map. }
  split.
  { rewrite <- (length_map fst), Hl, length_map, mix_pointwise, length_map.
    apply time_grid_length. }
  split; [exact Hnan|].
  rewrite map_fst_to_int16. rewrite Forall_forall in *. intros c Hc.
  apply in_map_iff in Hc as (x & <- & Hx). apply astype_nan. now apply Hnan.
Qed.

(** X18. One NaN in the mix spoils the whole sweep: the peak is NaN,
    so every sample of the left channel is NaN and none has a defined
    16-bit code; no error is raised. *)
Theorem sweep_nan_spreads (base : float) (offsets : list float) (sr d : Z)
    (incl : bool) :
  Exists (fun x => is_nan x = true) (App.mix np_sin base offsets (App.time_grid sr d)) ->
  exists final,
    App.sweep_final np_sin base offsets sr d incl = inr final
    /\ Np.max (Np.abs (App.mix np_sin base offsets (App.time_grid sr d))) = inr nan
    /\ Forall (fun x => is_nan x = true) (map fst final)
    /\ Forall (fun c => c = None) (map fst (App.to_int16 final)).
Proof.
  intros Hex.
  assert (Hmax : Np.max (Np.abs (App.mix np_sin base offsets (App.time_grid sr d)))
                 = inr nan).
  { destruct (App.mix np_sin base offsets (App.time_grid sr d)) as [|x l];
      [inversion Hex|].
    unfold Np.abs. cbn [map Np.max]. unfold Py.ret. f_equal.
    apply is_nan_eq. apply fold_maximum_nan_in.
    change (abs x :: map abs l) with (map abs (x :: l)).
    apply Exists_exists in Hex as (y & Hy & Hnan). apply Exists_exists.
    exists (abs y). split; [now apply in_map|]. now rewrite is_nan_abs. }
  destruct (sweep_final_with_peak np_sin base offsets sr d incl nan Hmax) as (final & Hfin & Hl).
  exists final. split; [exact Hfin|]. split; [exact Hmax|].
  assert (Hnan : Forall (fun x => is_nan x = true) (map fst final)).
  { rewrite Hl. rewrite Forall_forall. intros y Hy.
    apply in_map_iff in Hy as (x & <- & Hx). now rewrite div_nan_r. }
  split; [exact Hnan|].
  rewrite map_fst_to_int16. rewrite Forall_forall in *. intros c Hc.
  apply in_map_iff in Hc as (x & <- & Hx). apply astype_nan. now apply Hnan.
Qed.

Lemma individual_loop_fails (base : float) (sr d : Z) (incl : bool) (fmt : string)
    (e : Py.exn) (off : float) (post : list float) :
  App.export_buffer pydub_export
    (App.create_audio_segment np_sin base off sr d incl) fmt = inl e ->
  forall (pre : list float) (i : Z) (zip : list (string * App.bytes)),
  Forall (fun o => exists buf,
            App.export_buffer pydub_export
              (App.create_audio_segment np_sin base o sr d incl) fmt = inr buf) pre ->
  App.individual_loop np_sin pydub_export base sr d incl fmt i (pre ++ off :: post) zip
  = inl e.
Proof.
  intros He. induction pre as [|o pre IH]; intros i zip Hpre; cbn [app App.individual_loop].
  - now rewrite He.
  - inversion Hpre as [|? ? (buf & Hb) Hrest]; subst. rewrite Hb. cbn [Py.bind].
    now apply IH.
Qed.

(** X19. The archive loop stops at the first offset whose export fails:
    the run ends with that error, whatever comes after, and no archive
    is offered. *)
Theorem first_failure_ends_archive (base : float) (sr d : Z) (incl : bool)
    (fmt : string) (e : Py.exn) (pre : list float) (off : float) (post : list float) :
  Forall (fun o => exists buf,
            App.export_buffer pydub_export
              (App.create_audio_segment np_sin base o sr d incl) fmt = inr buf) pre ->
  App.export_buffer pydub_export
    (App.create_audio_segment np_sin base off sr d incl) fmt = inl e ->
  App.individual np_sin pydub_export base (pre ++ off :: post) sr d incl fmt = inl e.
Proof.
  intros Hpre He. unfold App.individual.
  now rewrite (individual_loop_fails base sr d incl fmt e off post He pre 0 [] Hpre).
Qed.

(** X20. The sequence number at the head of an entry name tells the
    entries apart: two names built for different positions differ,
    whatever the offsets, so no two entries of an archive share a name
    (even when two offsets print alike). *)
Theorem archive_names_distinct (base : float) (offsets : list float) (sr d : Z)
    (incl : bool) (fmt : string) :
  (forall i j b b' o o' r r' f f',
      App.fname i b o r f = App.fname j b' o' r' f' -> i = j)
  /\ match App.individual np_sin pydub_export base offsets sr d incl fmt with
     | inr (App.Archive entries _) => NoDup (map fst entries)
     | _ => True
     end.
Proof.
  split; [intros; eapply fname_index_inj; eassumption|].
  pose proof (archive_spec np_sin pydub_export base offsets sr d incl fmt) as H.
  destruct (App.individual np_sin pydub_export base offsets sr d incl fmt)
    as [e|[| |entries count]]; try exact I.
  destruct H as (_ & _ & Hnames & _). rewrite Hnames.
  apply (NoDup_map_key fst).
  - intros [i o] [j o'] E. cbn. eapply fname_index_inj; exact E.
  - rewrite map_fst_combine_eq by apply count_from_length. apply count_from_NoDup.
Qed.

(** X21. What a run offers follows the button and the mode: nothing
    until the button is pressed, and then the sweep file under its
    download name, or the archive, whose count is the number of
    entries: one for each depth step and one for each piece of the
    field that is not blank.  Before the button is pressed, neither the
    sine nor the encoder is consulted. *)
Theorem run_output_kind (inp : App.inputs) :
  match App.run np_sin pydub_export inp with
  | inr App.Idle => App.generate inp = false
  | inr (App.SweepFile _ name) =>
      App.generate inp = true /\ App.gen_mode inp = App.Sweep
      /\ name = ("sweep_" ++ Py.float_repr (App.base_freq inp) ++ "Hz."
                 ++ App.file_format inp)%string
  | inr (App.Archive entries count) =>
      App.generate inp = true /\ App.gen_mode inp = App.Individual
      /\ count = Z.of_nat (List.length entries)
      /\ List.length entries
         = (Z.to_nat (App.decimals inp)
            + List.length (filter (fun x => Py.truthy (Py.strip x))
                                  (Py.split "," (App.raw_ints inp))))%nat
  | inl _ => True
  end
  /\ (App.generate inp = false ->
      forall sin' export', App.run sin' export' inp = App.run np_sin pydub_export inp).
Proof.
  split.
  - unfold App.run.
    destruct (App.all_offsets (App.decimals inp) (App.raw_ints inp)) as [e|offsets] eqn:E;
      cbn [Py.bind]; [exact I|].
    destruct (App.generate inp); [|reflexivity].
    destruct (App.gen_mode inp).
    + unfold App.sweep.
      destruct (App.sweep_final _ _ _ _ _ _) as [e|final]; cbn [Py.bind]; [exact I|].
      destruct (App.export_buffer _ _ _) as [e|out]; cbn [Py.bind Py.ret]; [exact I|].
      repeat split.
    + pose proof (archive_spec np_sin pydub_export (App.base_freq inp) offsets
                    (App.sample_rate inp) (App.duration inp) (App.include_ref inp)
                    (App.file_format inp)) as H.
      destruct (App.individual _ _ _ _ _ _ _ _) as [e|[| |entries count]];
        try exact I; try contradiction.
      destruct H as (Hlen & Hcount & _). repeat split; [exact Hcount|].
      rewrite Hlen. unfold App.all_offsets in E.
      destruct (App.offsets2 (App.raw_ints inp)) as [e|l2] eqn:E2; [discriminate|].
      cbn [Py.bind Py.ret] in E. injection E as <-.
      rewrite length_app, offsets1_length. f_equal.
      unfold App.offsets2 in E2. now apply mapM_length in E2.
  - intros Hg sin' export'. unfold App.run. rewrite Hg.
    reflexivity.
Qed.

End Engine.

Lemma longer_duration_extends_witness :
  (exists rest, App.time_grid 44100 2 = App.time_grid 44100 1 ++ rest)
  /\ firstn (Z.to_nat (44100 * 1))
            (App.frames (App.create_audio_segment Ref.sin 440 (App.pow10_neg 1) 44100 2 true))
     = App.frames (App.create_audio_segment Ref.sin 440 (App.pow10_neg 1) 44100 1 true).
Proof.
  apply (longer_duration_extends Ref.sin 440 (App.pow10_neg 1) 44100 1 2 true).
  - cbn. auto.
  - lia.
  - lia.
Defined.

Lemma individual_codes_witness :
  Forall2 (fun s c => if is_nan s then c = None
                      else exists z, c = Some z /\ -32767 <= z <= 32767)
          (App.tone Ref.sin (440 + App.pow10_neg 1) (App.time_grid 44100 1))
          (map fst (App.frames
                      (App.create_audio_segment Ref.sin 440 (App.pow10_neg 1) 44100 1 true)))
  /\ Forall2 (fun s c => if is_nan s then c = None
                         else exists z, c = Some z /\ -32767 <= z <= 32767)
             (App.tone Ref.sin 440 (App.time_grid 44100 1))
             (map snd (App.frames
                         (App.create_audio_segment Ref.sin 440 (App.pow10_neg 1) 44100 1 true))).
Proof.
  exact (individual_codes Ref.sin 440 (App.pow10_neg 1) 44100 1 true Ref_sin_bounded).
Defined.


Lemma sweep_silent_mix_witness :
  exists final,
    App.sweep_final Ref.sin (- App.pow10_neg 1) (App.offsets1 1) 8 1 true = inr final
    /\ List.length final = Z.to_nat (8 * 1)
    /\ Forall (fun x => is_nan x = true) (map fst final)
    /\ Forall (fun c => c = None) (map fst (App.to_int16 final)).
Proof.
  apply (sweep_silent_mix Ref.sin (- App.pow10_neg 1) (App.offsets1 1) 8 1 true 0%float).
  - vm_compute. reflexivity.
  - reflexivity.
Defined.

Lemma sweep_nan_spreads_witness :
  exists final,
    App.sweep_final Ref.sin 440 [SF2Prim (Py.decimal_to_SF false 1 308)] 8 1 false
    = inr final
    /\ Np.max (Np.abs (App.mix Ref.sin 440 [SF2Prim (Py.decimal_to_SF false 1 308)]
                         (App.time_grid 8 1))) = inr nan
    /\ Forall (fun x => is_nan x = true) (map fst final)
    /\ Forall (fun c => c = None) (map fst (App.to_int16 final)).
Proof.
  apply (sweep_nan_spreads Ref.sin 440 [SF2Prim (Py.decimal_to_SF false 1 308)] 8 1 false).
  apply Exists_cons_hd. vm_compute. reflexivity.
Defined.

Lemma first_failure_ends_archive_witness :
  App.individual Ref.sin
    (fun seg _ => match App.frames seg with
                  | (None, _) :: _ => inl Py.CouldntEncodeError
                  | _ => inr []
                  end)
    440 ([App.pow10_neg 1] ++ infinity :: [1%float]) 8 1 true "wav"
  = inl Py.CouldntEncodeError.
Proof.
  apply (first_failure_ends_archive Ref.sin
           (fun seg _ => match App.frames seg with
                         | (None, _) :: _ => inl Py.CouldntEncodeError
                         | _ => inr []
                         end)
           440 8 1 true "wav" Py.CouldntEncodeError [App.pow10_neg 1] infinity [1%float]).
  - constructor; [|constructor]. exists []. vm_compute. reflexivity.
  - vm_compute. reflexivity.
Defined.

End EdgeFacts.
